(** * swh-fuse: the artifact entries of [swh/fuse/fs/artifact.py]

    A shallow embedding of the entry classes that turn archived objects
    (contents, directories, revisions, releases, snapshots) into files,
    directories and symlinks, and of the three sharded views of a revision's
    history, followed by the properties of their listings. *)

From Stdlib Require Import List String Ascii ZArith Lia Bool Arith Permutation.
From Stdlib Require Import DecimalString DecimalNat.
Import ListNotations.
Open Scope string_scope.

(** ** Python strings

    A [str] or [bytes] value is a [string]: a sequence of 8-bit characters; a
    text with characters outside ASCII stands for its UTF-8 encoding. *)

Module Str.

(** [s.count(c)] for a pattern [c] of one character. *)
Fixpoint count (c : ascii) (s : string) : nat :=
  match s with
  | EmptyString => 0
  | String a s' => (if Ascii.eqb a c then 1 else 0) + count c s'
  end.

(** [s.startswith(p)]. *)
Definition startswith (s p : string) : bool := String.prefix p s.

(** [s.split(c)] for a separator [c] of one character: never empty, one
    more field than there are separators. *)
Fixpoint split (c : ascii) (s : string) : list string :=
  match s with
  | EmptyString => [EmptyString]
  | String a s' =>
      if Ascii.eqb a c then EmptyString :: split c s'
      else match split c s' with
           | [] => [String a EmptyString]
           | w :: ws => String a w :: ws
           end
  end.

(** [s.replace(c, "")]: every occurrence of the character removed. *)
Fixpoint remove (c : ascii) (s : string) : string :=
  match s with
  | EmptyString => EmptyString
  | String a s' => if Ascii.eqb a c then remove c s' else String a (remove c s')
  end.

(** [s.replace(c, d)] for single characters. *)
Fixpoint replace (c d : ascii) (s : string) : string :=
  match s with
  | EmptyString => EmptyString
  | String a s' => String (if Ascii.eqb a c then d else a) (replace c d s')
  end.

(** [c in s]. *)
Fixpoint contains (c : ascii) (s : string) : bool :=
  match s with
  | EmptyString => false
  | String a s' => Ascii.eqb a c || contains c s'
  end.

(** [s.lstrip(c)]. *)
Fixpoint lstrip (c : ascii) (s : string) : string :=
  match s with
  | EmptyString => EmptyString
  | String a s' => if Ascii.eqb a c then lstrip c s' else s
  end.

(** [all(p(c) for c in s)]. *)
Fixpoint all (p : ascii -> bool) (s : string) : bool :=
  match s with
  | EmptyString => true
  | String a s' => p a && all p s'
  end.

(** [sep.join(l)]. *)
Definition join (sep : string) (l : list string) : string := String.concat sep l.

(** [c * n]. *)
Fixpoint repeat (c : string) (n : nat) : string :=
  match n with
  | O => EmptyString
  | S n' => c ++ repeat c n'
  end.

(** One bound of a slice, as Python normalises it: a negative index counts
    from the end, and the result is clamped to [0, len]. *)
Definition slice_index (len i : Z) : Z :=
  if (i <? 0)%Z then Z.max (i + len) 0 else Z.min i len.

(** [s[a:b]] for integer bounds of either sign. *)
Definition slice (a b : Z) (s : string) : string :=
  let len := Z.of_nat (String.length s) in
  let lo := slice_index len a in
  let hi := slice_index len b in
  String.substring (Z.to_nat lo) (Z.to_nat (hi - lo)) s.

(** [str(n)] for a natural number. *)
Definition decimal (n : nat) : string := NilEmpty.string_of_uint (Nat.to_uint n).

(** [s.zfill]-like padding used by the [0wd] format on a digit string. *)
Definition zfill (width : nat) (s : string) : string :=
  repeat "0" (width - String.length s) ++ s.

(** [format(z, "0wd")]: decimal, zero-padded to at least [width]
    characters, the sign counted in the width. *)
Definition format_d (width : nat) (z : Z) : string :=
  if (z <? 0)%Z then "-" ++ zfill (width - 1) (decimal (Z.to_nat (- z)))
  else zfill width (decimal (Z.to_nat z)).

End Str.

(** ** [pathlib.Path] of a sequence of parts and its [str], for POSIX paths

    Each part is cut at ["/"]; empty and ["."] components are dropped; a part
    that starts with ["/"] makes the path absolute and discards what came
    before it (exactly two leading slashes are kept as ["//"]). The string of
    a path without root and without components is ["."]. *)

Module Path.

Definition components (part : string) : list string :=
  filter (fun x => negb (String.eqb x "") && negb (String.eqb x "."))
         (Str.split "/" part).

Definition splitroot (part : string) : string * string :=
  match part with
  | String "/" _ =>
      let stripped := Str.lstrip "/" part in
      if Nat.eqb (String.length part - String.length stripped) 2
      then ("//", stripped) else ("/", stripped)
  | _ => ("", part)
  end.

Definition parse_parts (parts : list string) : string * list string :=
  fold_left
    (fun (acc : string * list string) part =>
       let (root, rel) := splitroot part in
       if String.eqb root "" then (fst acc, (snd acc ++ components rel)%list)
       else (root, components rel))
    parts ("", []).

(** The [str] of the path built from [parts]. *)
Definition str (parts : list string) : string :=
  let (root, parsed) := parse_parts parts in
  match root, parsed with
  | EmptyString, [] => "."
  | _, _ => root ++ Str.join "/" parsed
  end.

End Path.

(** ** Identifiers ([swh.model.identifiers]) *)

Inductive ObjectType := CONTENT | DIRECTORY | REVISION | RELEASE | SNAPSHOT.

Definition ObjectType_eqb (a b : ObjectType) : bool :=
  match a, b with
  | CONTENT, CONTENT | DIRECTORY, DIRECTORY | REVISION, REVISION
  | RELEASE, RELEASE | SNAPSHOT, SNAPSHOT => true
  | _, _ => false
  end.

(** The name of an object type, as [swh.model] spells it. *)
Definition ObjectType_name (t : ObjectType) : string :=
  match t with
  | CONTENT => "content"
  | DIRECTORY => "directory"
  | REVISION => "revision"
  | RELEASE => "release"
  | SNAPSHOT => "snapshot"
  end.

(** The three-letter tag of an object type inside an identifier. *)
Definition ObjectType_tag (t : ObjectType) : string :=
  match t with
  | CONTENT => "cnt"
  | DIRECTORY => "dir"
  | REVISION => "rev"
  | RELEASE => "rel"
  | SNAPSHOT => "snp"
  end.

Record SWHID := mkSWHID { object_type : ObjectType; object_id : string }.

(** [str(swhid)] of an identifier without qualifiers. *)
Definition SWHID_str (s : SWHID) : string :=
  "swh:1:" ++ ObjectType_tag (object_type s) ++ ":" ++ object_id s.

Definition is_hex_digit (c : ascii) : bool :=
  let n := nat_of_ascii c in
  (((48 <=? n) && (n <=? 57)) || ((97 <=? n) && (n <=? 102)))%nat.

Fixpoint all_hex (s : string) : bool :=
  match s with
  | EmptyString => true
  | String c s' => is_hex_digit c && all_hex s'
  end.

(** The digest of an identifier is a SHA1 in hexadecimal. *)
Definition DIGEST_LENGTH : nat := 40.

(** What [swh.model] validates when an identifier is built. *)
Definition valid_swhid (s : SWHID) : bool :=
  Nat.eqb (String.length (object_id s)) DIGEST_LENGTH && all_hex (object_id s).

(** [swh.model.from_disk.DentryPerms.symlink], [0o120000]. *)
Module DentryPerms.
Definition symlink : Z := 40960.
End DentryPerms.

(** ** Records of the archive, as [get_metadata] decodes them *)

(** A [datetime]: only the calendar date is used. *)
Record Date := mkDate { year : nat; month : nat; day : nat }.

(** One entry of an archived directory. *)
Record DirEntryMeta := mkDirEntryMeta {
  entry_name : string;
  entry_target : SWHID;
  entry_perms : Z;
  entry_length : Z
}.

Record RevisionMeta := mkRevisionMeta {
  rev_directory : SWHID;
  rev_parents : list SWHID;
  rev_date : Date
}.

Record ReleaseMeta := mkReleaseMeta { rel_target : SWHID }.

Record BranchMeta := mkBranchMeta { branch_target : SWHID }.

(** ** Exceptions and results *)

Inductive exn :=
| NotFound
| ValueError (msg : string)
| IndexError
| RecursionError
| OtherError (msg : string).

Inductive result (A : Type) :=
| Ok (a : A)
| Err (x : exn).
Arguments Ok {A} a.
Arguments Err {A} x.

(** ** The collaborators reached through [self.fuse]

    The archive client, the caches and the configuration are parameters of
    the development. [get_metadata] returns a record whose shape follows the
    kind of the identifier; each shape has its accessor here.
    [cache_metadata_get] is the probe [fuse.cache.metadata.get], which never
    fetches. The functions are a snapshot of the collaborators during one
    listing. *)

Record Fuse := mkFuse {
  get_blob : SWHID -> result string;
  get_metadata_directory : SWHID -> result (list DirEntryMeta);
  get_metadata_revision : SWHID -> result RevisionMeta;
  get_metadata_release : SWHID -> result ReleaseMeta;
  get_metadata_snapshot : SWHID -> result (list (string * BranchMeta));
  get_history : SWHID -> result (list SWHID);
  cache_metadata_get : SWHID -> option RevisionMeta;
  conf_sharding_depth : Z;
  conf_sharding_length : Z
}.

(** ** Entries

    Modelled from the spec: the module [swh.fuse.fs.entry], with the entry
    base classes, [create_child] and [get_relative_root_path], is not among
    the sources. An entry has a name and a mode, and [create_child] allocates
    a child linked to its parent; the link serves to compute the prefix that
    leads back to the mount root, so an entry records its depth, one more
    than the depth of its parent. The two mode constants and the prefix for a
    given depth are parameters. No listing below creates two siblings of one
    name from a well-formed archive, and [create_child] is the allocation
    alone. *)

Record EntryModule := mkEntryModule {
  RDONLY_FILE : Z;
  RDONLY_DIR : Z;
  relative_root_path : nat -> string
}.

Record Content := mkContent {
  cnt_name : string;
  cnt_mode : Z;
  cnt_depth : nat;
  cnt_swhid : SWHID;
  cnt_prefetch : option DirEntryMeta
}.

Record Directory := mkDirectory {
  dir_name : string;
  dir_mode : Z;
  dir_depth : nat;
  dir_swhid : SWHID
}.

(** The mode of a symlink is fixed by its class. *)
Record FuseSymlinkEntry := mkSymlink {
  lnk_name : string;
  lnk_depth : nat;
  lnk_target : string
}.

Record Release := mkRelease {
  rel_name : string;
  rel_mode : Z;
  rel_depth : nat;
  rel_swhid : SWHID
}.

Record ReleaseType := mkReleaseType {
  rt_name : string;
  rt_mode : Z;
  rt_depth : nat;
  rt_target_type : ObjectType
}.

Record Snapshot := mkSnapshot {
  snp_name : string;
  snp_mode : Z;
  snp_depth : nat;
  snp_swhid : SWHID
}.

(** [name] is [".status"] and [mode] is [RDONLY_FILE], both fixed by the
    class. *)
Record StatusFile := mkStatusFile {
  sf_depth : nat;
  sf_done : nat;
  sf_todo : nat
}.

Record RevisionHistoryShardByDate := mkByDate {
  bd_name : string;
  bd_mode : Z;
  bd_depth : nat;
  bd_history_swhid : SWHID;
  bd_prefix : string
}.

Record RevisionHistoryShardByHash := mkByHash {
  bh_name : string;
  bh_mode : Z;
  bh_depth : nat;
  bh_history_swhid : SWHID;
  bh_prefix : string
}.

Record RevisionHistoryShardByPage := mkByPage {
  bp_name : string;
  bp_mode : Z;
  bp_depth : nat;
  bp_history_swhid : SWHID
}.

Inductive FuseEntry :=
| EContent (e : Content)
| EDirectory (e : Directory)
| ESymlink (e : FuseSymlinkEntry)
| EReleaseType (e : ReleaseType)
| EStatusFile (e : StatusFile)
| EByDate (e : RevisionHistoryShardByDate)
| EByHash (e : RevisionHistoryShardByHash)
| EByPage (e : RevisionHistoryShardByPage).

Definition entry_name_of (e : FuseEntry) : string :=
  match e with
  | EContent c => cnt_name c
  | EDirectory d => dir_name d
  | ESymlink l => lnk_name l
  | EReleaseType r => rt_name r
  | EStatusFile _ => ".status"
  | EByDate d => bd_name d
  | EByHash d => bh_name d
  | EByPage d => bp_name d
  end.

(** ** Effects of a listing

    A listing is an asynchronous generator: it yields entries one at a time
    and may store children lists in the directory-entry cache on the way; it
    ends normally or with an exception. A computation is the sequence of its
    events, in order, with its outcome. *)

Inductive event :=
| Yield (e : FuseEntry)
| DirentrySet (node : FuseEntry) (children : list FuseEntry).

Inductive outcome (A : Type) :=
| Ret (a : A)
| Raise (x : exn).
Arguments Ret {A} a.
Arguments Raise {A} x.

Definition M (A : Type) : Type := (list event * outcome A)%type.

Definition ret {A} (a : A) : M A := ([], Ret a).

Definition raise {A} (x : exn) : M A := ([], Raise x).

Definition bind {A B} (m : M A) (f : A -> M B) : M B :=
  match m with
  | (t, Ret a) => let (t', r) := f a in ((t ++ t')%list, r)
  | (t, Raise x) => (t, Raise x)
  end.

Notation "x <- m ;; k" := (bind m (fun x => k))
  (at level 61, m at next level, right associativity).
Notation "m ;;; k" := (bind m (fun _ => k))
  (at level 61, right associativity).

(** [await] on a collaborator: its value, or its exception. *)
Definition await {A} (r : result A) : M A :=
  match r with
  | Ok a => ret a
  | Err x => raise x
  end.

Definition yield (e : FuseEntry) : M unit := ([Yield e], Ret tt).

(** [fuse.cache.direntry.set(node, children)]. *)
Definition direntry_set (node : FuseEntry) (children : list FuseEntry) : M unit :=
  ([DirentrySet node children], Ret tt).

(** [for x in l: body(x)]. *)
Fixpoint for_each {A} (l : list A) (body : A -> M unit) : M unit :=
  match l with
  | [] => ret tt
  | x :: l' => body x ;;; for_each l' body
  end.

(** The entries a computation has yielded, in order. *)
Fixpoint yielded (t : list event) : list FuseEntry :=
  match t with
  | [] => []
  | Yield e :: t' => e :: yielded t'
  | DirentrySet _ _ :: t' => yielded t'
  end.

(** Entries are compared field by field. *)
Definition FuseEntry_eq_dec (a b : FuseEntry) : {a = b} + {a <> b}.
Proof.
  repeat decide equality; try apply Z.eq_dec; try apply string_dec.
Defined.

(** Modelled from the spec: [fuse.cache.direntry.get(node)], the cache of
    materialized children keyed by node, whose source is not among the
    sources. After the events [t] it holds for a node the children of the
    latest [set] for that node. *)
Fixpoint direntry_get (t : list event) (node : FuseEntry) : option (list FuseEntry) :=
  match t with
  | [] => None
  | ev :: t' =>
      match direntry_get t' node with
      | Some c => Some c
      | None =>
          match ev with
          | DirentrySet n c => if FuseEntry_eq_dec n node then Some c else None
          | Yield _ => None
          end
      end
  end.

(** ** Directory *)

Module Directory.
Section Methods.
Context (E : EntryModule) (fuse : Fuse).

(** The body of the loop of [compute_entries] for one archived entry. *)
Definition compute_entry (self : Directory) (entry : DirEntryMeta) : M unit :=
  let name := entry_name entry in
  let swhid := entry_target entry in
  let mode :=
    if ObjectType_eqb (object_type swhid) DIRECTORY
    then RDONLY_DIR E
    else entry_perms entry in
  if ObjectType_eqb (object_type swhid) CONTENT then
    yield (EContent (mkContent name mode (S (dir_depth self)) swhid (Some entry)))
  else if ObjectType_eqb (object_type swhid) DIRECTORY then
    yield (EDirectory (mkDirectory name mode (S (dir_depth self)) swhid))
  else if (mode =? DentryPerms.symlink)%Z then
    target <- await (get_blob fuse swhid) ;;
    yield (ESymlink (mkSymlink name (S (dir_depth self)) target))
  else if ObjectType_eqb (object_type swhid) REVISION then
    _ <- await (get_metadata_revision fuse swhid) ;;
    yield (ESymlink (mkSymlink name (S (dir_depth self))
             (Path.str [relative_root_path E (dir_depth self);
                        "archive/" ++ SWHID_str swhid])))
  else
    raise (ValueError "Unknown directory entry type: {swhid.object_type}").

Definition compute_entries (self : Directory) : M unit :=
  metadata <- await (get_metadata_directory fuse (dir_swhid self)) ;;
  for_each metadata (compute_entry self).

End Methods.
End Directory.

(** ** Release *)

Module Release.
Section Methods.
Context (E : EntryModule) (fuse : Fuse).

(** [limit] bounds the nesting of the recursive calls, as the interpreter's
    recursion limit does. *)
Fixpoint find_root_directory (limit : nat) (swhid : SWHID) : M (option SWHID) :=
  match limit with
  | O => raise RecursionError
  | S limit' =>
      if ObjectType_eqb (object_type swhid) RELEASE then
        metadata <- await (get_metadata_release fuse swhid) ;;
        find_root_directory limit' (rel_target metadata)
      else if ObjectType_eqb (object_type swhid) REVISION then
        metadata <- await (get_metadata_revision fuse swhid) ;;
        ret (Some (rev_directory metadata))
      else if ObjectType_eqb (object_type swhid) DIRECTORY then
        ret (Some swhid)
      else
        ret None
  end.

Definition compute_entries (limit : nat) (self : Release) : M unit :=
  metadata <- await (get_metadata_release fuse (rel_swhid self)) ;;
  let root_path := relative_root_path E (rel_depth self) in
  yield (ESymlink (mkSymlink "meta.json" (S (rel_depth self))
           (Path.str [root_path; "meta/" ++ SWHID_str (rel_swhid self) ++ ".json"]))) ;;;
  let target := rel_target metadata in
  yield (ESymlink (mkSymlink "target" (S (rel_depth self))
           (Path.str [root_path; "archive/" ++ SWHID_str target]))) ;;;
  yield (EReleaseType (mkReleaseType "target_type" (RDONLY_FILE E)
           (S (rel_depth self)) (object_type target))) ;;;
  target_dir <- find_root_directory limit target ;;
  match target_dir with
  | Some d =>
      yield (ESymlink (mkSymlink "root" (S (rel_depth self))
               (Path.str [root_path; "archive/" ++ SWHID_str d])))
  | None => ret tt
  end.

End Methods.
End Release.

(** ** [urllib.parse.quote_plus]

    The text is taken as its bytes. A byte among the letters, the digits and
    [_.-~], or listed in [safe], is kept; any other byte becomes [%XX] with
    upper-case hexadecimal digits. [quote_plus] writes a space as [+]. *)

Module urllib_parse.

Definition ALWAYS_SAFE (c : ascii) : bool :=
  let n := nat_of_ascii c in
  (((65 <=? n) && (n <=? 90)) || ((97 <=? n) && (n <=? 122))
   || ((48 <=? n) && (n <=? 57))
   || (n =? 95) || (n =? 46) || (n =? 45) || (n =? 126))%nat.

Definition hex_upper (n : nat) : ascii :=
  if (n <? 10)%nat then ascii_of_nat (48 + n) else ascii_of_nat (55 + n).

Definition quoter (safe : string) (c : ascii) : string :=
  if ALWAYS_SAFE c || Str.contains c safe then String c EmptyString
  else String "%" (String (hex_upper (nat_of_ascii c / 16))
                     (String (hex_upper (nat_of_ascii c mod 16)) EmptyString)).

Fixpoint quote_from_bytes (bs : string) (safe : string) : string :=
  match bs with
  | EmptyString => EmptyString
  | String c bs' => quoter safe c ++ quote_from_bytes bs' safe
  end.

Definition quote (s : string) (safe : string) : string := quote_from_bytes s safe.

Definition quote_plus (s : string) : string :=
  if negb (Str.contains " " s) then quote s ""
  else Str.replace " " "+" (quote s " ").

(** What [quote_plus] writes for one byte. *)
Definition plus_quoter (c : ascii) : string :=
  if Ascii.eqb c " " then "+" else quoter "" c.

Definition unhex (c : ascii) : nat :=
  let n := nat_of_ascii c in
  if (n <? 58)%nat then n - 48 else n - 55.

(** [unquote_plus] on well-formed escapes: [+] is a space and [%XX] the
    byte of that code. *)
Fixpoint unquote_plus (s : string) : string :=
  match s with
  | EmptyString => EmptyString
  | String c rest =>
      if Ascii.eqb c "+" then String " " (unquote_plus rest)
      else if Ascii.eqb c "%" then
        match rest with
        | String h (String l rest') =>
            String (ascii_of_nat (16 * unhex h + unhex l)) (unquote_plus rest')
        | _ => String c (unquote_plus rest)
        end
      else String c (unquote_plus rest)
  end.

(** The characters of a quoted name: the always safe ones, [%] and [+]. *)
Definition name_char (c : ascii) : bool :=
  ALWAYS_SAFE c || Ascii.eqb c "%" || Ascii.eqb c "+".

End urllib_parse.

(** ** Snapshot *)

Module Snapshot.
Section Methods.
Context (E : EntryModule) (fuse : Fuse).

Definition compute_entries (self : Snapshot) : M unit :=
  metadata <- await (get_metadata_snapshot fuse (snp_swhid self)) ;;
  let root_path := relative_root_path E (snp_depth self) in
  for_each metadata (fun item =>
    let branch_name := fst item in
    let branch_meta := snd item in
    let name := urllib_parse.quote_plus branch_name in
    yield (ESymlink (mkSymlink name (S (snp_depth self))
             (Path.str [root_path; "archive/" ++ SWHID_str (branch_target branch_meta)])))).

End Methods.
End Snapshot.

(** ** RevisionHistoryShardByDate *)

Module RevisionHistoryShardByDate.

(** [StatusFile.get_content]. *)
Definition StatusFile_get_content (f : StatusFile) : string :=
  "Done: " ++ Str.decimal (sf_done f) ++ "/" ++ Str.decimal (sf_todo f)
  ++ String (ascii_of_nat 10) EmptyString.

Definition get_full_sharded_name (meta : RevisionMeta) : string :=
  let date := rev_date meta in
  Str.format_d 4 (Z.of_nat (year date)) ++ "/"
  ++ Str.format_d 2 (Z.of_nat (month date)) ++ "/"
  ++ Str.format_d 2 (Z.of_nat (day date)).

(** The variables the loop of [compute_entries] updates. *)
Record locals := mkLocals {
  is_status_done : bool;
  subdirs : list string;
  nb_entries : nat
}.

Section Methods.
Context (E : EntryModule) (fuse : Fuse).

(** [l[i]]. *)
Definition index (l : list string) (i : nat) : M string :=
  match nth_error l i with
  | Some x => ret x
  | None => raise IndexError
  end.

(** The loop over the history; [subdirs] is the set of names yielded so
    far. *)
Fixpoint loop (self : RevisionHistoryShardByDate) (depth : nat)
         (history : list SWHID) (st : locals) : M locals :=
  match history with
  | [] => ret st
  | swhid :: rest =>
      match cache_metadata_get fuse swhid with
      | None => loop self depth rest (mkLocals false (subdirs st) (nb_entries st))
      | Some meta =>
          let nb := S (nb_entries st) in
          let name := get_full_sharded_name meta in
          if negb (Str.startswith name (bd_prefix self)) then
            loop self depth rest (mkLocals (is_status_done st) (subdirs st) nb)
          else
            next_prefix <- index (Str.split "/" name) depth ;;
            if existsb (String.eqb next_prefix) (subdirs st) then
              loop self depth rest (mkLocals (is_status_done st) (subdirs st) nb)
            else
              yield (EByDate (mkByDate next_prefix (RDONLY_DIR E) (S (bd_depth self))
                       (bd_history_swhid self)
                       (bd_prefix self ++ next_prefix ++ "/"))) ;;;
              loop self depth rest
                (mkLocals (is_status_done st) (next_prefix :: subdirs st) nb)
      end
  end.

Definition compute_entries (self : RevisionHistoryShardByDate) : M unit :=
  history <- await (get_history fuse (bd_history_swhid self)) ;;
  let depth := Str.count "/" (bd_prefix self) in
  st <- loop self depth history (mkLocals true [] 0) ;;
  if negb (is_status_done st) then
    yield (EStatusFile (mkStatusFile (S (bd_depth self)) (nb_entries st)
             (List.length history)))
  else ret tt.

End Methods.
End RevisionHistoryShardByDate.

(** ** RevisionHistoryShardByHash *)

(** [for x in l], collecting what the body returns. *)
Fixpoint collect {A B} (l : list A) (body : A -> M B) : M (list B) :=
  match l with
  | [] => ret []
  | x :: l' => b <- body x ;; bs <- collect l' body ;; ret (b :: bs)
  end.

(** [subdirs.setdefault(key, []).append(swhid)] on a dictionary, which keeps
    its keys in the order of their first insertion. *)
Fixpoint setdefault_append (subdirs : list (string * list SWHID)) (key : string)
         (swhid : SWHID) : list (string * list SWHID) :=
  match subdirs with
  | [] => [(key, [swhid])]
  | (k, v) :: rest =>
      if String.eqb k key then (k, (v ++ [swhid])%list) :: rest
      else (k, v) :: setdefault_append rest key swhid
  end.

Module RevisionHistoryShardByHash.
Section Methods.
Context (E : EntryModule) (fuse : Fuse).

Definition get_full_sharded_name (swhid : SWHID) : string :=
  let sharding_depth := conf_sharding_depth fuse in
  let sharding_length := conf_sharding_length fuse in
  if (sharding_depth <=? 0)%Z then SWHID_str swhid
  else
    let basename := object_id swhid in
    let parts :=
      map (fun i : nat =>
             Str.slice (Z.of_nat i * sharding_length)
                       ((Z.of_nat i + 1) * sharding_length) basename)
          (seq 0 (Z.to_nat sharding_depth)) in
    Path.str (parts ++ [SWHID_str swhid])%list.

(** The dictionary [subdirs] after the grouping loop. *)
Definition group (self : RevisionHistoryShardByHash) (swhids : list SWHID)
  : list (string * list SWHID) :=
  let sharding_length := conf_sharding_length fuse in
  let prefix_len := Z.of_nat (String.length (bh_prefix self)) in
  fold_left
    (fun subdirs swhid =>
       let name := get_full_sharded_name swhid in
       let next_prefix := Str.slice prefix_len (prefix_len + sharding_length) name in
       setdefault_append subdirs next_prefix swhid)
    swhids [].

(** [limit] bounds the nesting of the recursive calls, as the interpreter's
    recursion limit does. *)
Fixpoint fill_direntry_cache (limit : nat) (self : RevisionHistoryShardByHash)
         (swhids : list SWHID) : M (list FuseEntry) :=
  match limit with
  | O => raise RecursionError
  | S limit' =>
      let sharding_depth := conf_sharding_depth fuse in
      let depth := Str.count "/" (bh_prefix self) in
      children <-
        (if (Z.of_nat depth =? sharding_depth)%Z then
           let root_path := relative_root_path E (bh_depth self) in
           ret (map (fun swhid =>
                       ESymlink (mkSymlink (SWHID_str swhid) (S (bh_depth self))
                         (Path.str [root_path; "archive/" ++ SWHID_str swhid])))
                    swhids)
         else
           collect (group self swhids) (fun item =>
             let subdir := fst item in
             let subentries := snd item in
             let child_prefix := bh_prefix self ++ subdir ++ "/" in
             let child := mkByHash subdir (RDONLY_DIR E) (S (bh_depth self))
                            (bh_history_swhid self) child_prefix in
             _ <- fill_direntry_cache limit' child subentries ;;
             ret (EByHash child))) ;;
      direntry_set (EByHash self) children ;;;
      ret children
  end.

Definition compute_entries (limit : nat) (self : RevisionHistoryShardByHash) : M unit :=
  history <- await (get_history fuse (bh_history_swhid self)) ;;
  let hash_prefix := Str.remove "/" (bh_prefix self) in
  let swhids := filter (fun s => Str.startswith (object_id s) hash_prefix) history in
  children <- fill_direntry_cache limit self swhids ;;
  for_each children yield.

End Methods.
End RevisionHistoryShardByHash.

(** ** RevisionHistoryShardByPage *)

Module RevisionHistoryShardByPage.

Definition PAGE_SIZE : Z := 10000.

(** [PAGE_FMT.format(page_number=n)], the format being [03d]. *)
Definition PAGE_FMT (page_number : Z) : string := Str.format_d 3 page_number.

(** The variables the loop of [fill_direntry_cache] updates. *)
Record locals := mkLocals {
  page_number : Z;
  page : option RevisionHistoryShardByPage;
  page_root_path : option string;
  page_children : list FuseEntry;
  pages : list FuseEntry
}.

Section Methods.
Context (E : EntryModule) (fuse : Fuse).

(** [if page: cache.direntry.set(page, page_children); pages.append(page)]. *)
Definition flush (st : locals) : M locals :=
  match page st with
  | Some p =>
      direntry_set (EByPage p) (page_children st) ;;;
      ret (mkLocals (page_number st) (page st) (page_root_path st)
             (page_children st) (pages st ++ [EByPage p])%list)
  | None => ret st
  end.

(** The body of the loop for the element [swhid] at index [idx]. *)
Definition step (self : RevisionHistoryShardByPage) (idx : Z) (swhid : SWHID)
           (st : locals) : M locals :=
  st1 <- (if (idx mod PAGE_SIZE =? 0)%Z then
            st' <- flush st ;;
            let number := (page_number st' + 1)%Z in
            let p := mkByPage (PAGE_FMT number) (RDONLY_DIR E) (S (bp_depth self))
                       (bp_history_swhid self) in
            ret (mkLocals number (Some p) (Some (relative_root_path E (bp_depth p)))
                   [] (pages st'))
          else ret st) ;;
  match page st1, page_root_path st1 with
  | Some p, Some root =>
      let child := ESymlink (mkSymlink (SWHID_str swhid) (S (bp_depth p))
                     (Path.str [root; "archive/" ++ SWHID_str swhid])) in
      ret (mkLocals (page_number st1) (page st1) (page_root_path st1)
             (page_children st1 ++ [child])%list (pages st1))
  | _, _ => raise (OtherError "AttributeError")
  end.

(** [for idx, swhid in enumerate(swhids)], from index [idx] on. *)
Fixpoint loop (self : RevisionHistoryShardByPage) (idx : Z) (swhids : list SWHID)
         (st : locals) : M locals :=
  match swhids with
  | [] => ret st
  | swhid :: rest =>
      st' <- step self idx swhid st ;;
      loop self (idx + 1)%Z rest st'
  end.

Definition fill_direntry_cache (self : RevisionHistoryShardByPage)
           (swhids : list SWHID) : M (list FuseEntry) :=
  st <- loop self 0%Z swhids (mkLocals (-1)%Z None None [] []) ;;
  st' <- flush st ;;
  direntry_set (EByPage self) (pages st') ;;;
  ret (pages st').

Definition compute_entries (self : RevisionHistoryShardByPage) : M unit :=
  history <- await (get_history fuse (bp_history_swhid self)) ;;
  children <- fill_direntry_cache self history ;;
  for_each children yield.

End Methods.
End RevisionHistoryShardByPage.

(** ** Following target references

    The walk the specification describes for the [root] of a release: a tag
    leads to its target, a commit leads to the tree its record names, and the
    walk ends at a tree. [resolves_to_tree fuse s d] says that the walk from
    [s] reaches the tree [d]; [ends_in_blob fuse s] that the tags from [s] on
    lead to a blob. *)

Inductive resolves_to_tree (fuse : Fuse) : SWHID -> SWHID -> Prop :=
| resolve_tree d :
    object_type d = DIRECTORY -> resolves_to_tree fuse d d
| resolve_commit c m :
    object_type c = REVISION ->
    get_metadata_revision fuse c = Ok m ->
    resolves_to_tree fuse c (rev_directory m)
| resolve_tag t m d :
    object_type t = RELEASE ->
    get_metadata_release fuse t = Ok m ->
    resolves_to_tree fuse (rel_target m) d ->
    resolves_to_tree fuse t d.

Inductive ends_in_blob (fuse : Fuse) : SWHID -> Prop :=
| blob_end b :
    object_type b = CONTENT -> ends_in_blob fuse b
| blob_tag t m :
    object_type t = RELEASE ->
    get_metadata_release fuse t = Ok m ->
    ends_in_blob fuse (rel_target m) ->
    ends_in_blob fuse t.

(** The three entries every release shows, and its [root]. *)
Definition release_fixed_entries (E : EntryModule) (self : Release) (target : SWHID)
  : list FuseEntry :=
  let root_path := relative_root_path E (rel_depth self) in
  [ESymlink (mkSymlink "meta.json" (S (rel_depth self))
      (Path.str [root_path; "meta/" ++ SWHID_str (rel_swhid self) ++ ".json"]));
   ESymlink (mkSymlink "target" (S (rel_depth self))
      (Path.str [root_path; "archive/" ++ SWHID_str target]));
   EReleaseType (mkReleaseType "target_type" (RDONLY_FILE E) (S (rel_depth self))
      (object_type target))].

Definition release_root_entry (E : EntryModule) (self : Release) (d : SWHID) : FuseEntry :=
  ESymlink (mkSymlink "root" (S (rel_depth self))
    (Path.str [relative_root_path E (rel_depth self); "archive/" ++ SWHID_str d])).

(** ** The by-date view, as the specification words it

    The values of a list in the order of their first occurrence, [seen]
    being the values met before. *)
Fixpoint first_occurrences {A} (eqb : A -> A -> bool) (seen l : list A) : list A :=
  match l with
  | [] => []
  | x :: l' =>
      if existsb (eqb x) seen then first_occurrences eqb seen l'
      else x :: first_occurrences eqb (x :: seen) l'
  end.

(** A member of the history is resolved when the metadata cache holds its
    record. *)
Definition resolved (fuse : Fuse) (s : SWHID) : bool :=
  match cache_metadata_get fuse s with
  | Some _ => true
  | None => false
  end.

(** The dates of the resolved members, in the order of the history. *)
Definition resolved_dates (fuse : Fuse) (history : list SWHID) : list Date :=
  flat_map (fun s => match cache_metadata_get fuse s with
                     | Some meta => [rev_date meta]
                     | None => []
                     end) history.

Definition years_of (dates : list Date) : list nat :=
  first_occurrences Nat.eqb [] (map year dates).

Definition months_of (dates : list Date) (y : nat) : list nat :=
  first_occurrences Nat.eqb []
    (map month (filter (fun d => Nat.eqb (year d) y) dates)).

Definition days_of (dates : list Date) (y m : nat) : list nat :=
  first_occurrences Nat.eqb []
    (map day (filter (fun d => Nat.eqb (year d) y && Nat.eqb (month d) m) dates)).

(** A listed tree: an entry with the trees of its children. *)
#[warnings="-register-all"]
Inductive tree :=
| Node (entry : FuseEntry) (children : list tree).

(** The subdirectory [name] of a by-date directory. *)
Definition by_date_dir (E : EntryModule) (parent : RevisionHistoryShardByDate)
           (name : string) : RevisionHistoryShardByDate :=
  mkByDate name (RDONLY_DIR E) (S (bd_depth parent)) (bd_history_swhid parent)
           (bd_prefix parent ++ name ++ "/").

(** The resolved members of the history with their dates, in the order of
    the history. *)
Definition resolved_members (fuse : Fuse) (history : list SWHID) : list (SWHID * Date) :=
  flat_map (fun s => match cache_metadata_get fuse s with
                     | Some meta => [(s, rev_date meta)]
                     | None => []
                     end) history.

(** The commits of one day, in the order of the history. *)
Definition commits_of (members : list (SWHID * Date)) (y m d : nat) : list SWHID :=
  map fst (filter (fun member =>
                     Nat.eqb (year (snd member)) y && Nat.eqb (month (snd member)) m
                     && Nat.eqb (day (snd member)) d) members).

(** The calendar partition of the commit sequence below the by-date root:
    the years, in each year its months, in each month its days, and in each
    day the commits of that date, one entry [leaf day s] per commit [s]. The
    specification does not say which entry stands for a commit, so [leaf] is
    a parameter. *)
Definition calendar_partition (E : EntryModule) (root : RevisionHistoryShardByDate)
           (leaf : RevisionHistoryShardByDate -> SWHID -> FuseEntry)
           (members : list (SWHID * Date)) : tree :=
  let dates := map snd members in
  Node (EByDate root)
    (map (fun y =>
            let ydir := by_date_dir E root (Str.format_d 4 (Z.of_nat y)) in
            Node (EByDate ydir)
              (map (fun m =>
                      let mdir := by_date_dir E ydir (Str.format_d 2 (Z.of_nat m)) in
                      Node (EByDate mdir)
                        (map (fun d =>
                                let ddir :=
                                  by_date_dir E mdir (Str.format_d 2 (Z.of_nat d)) in
                                Node (EByDate ddir)
                                     (map (fun s => Node (leaf ddir s) [])
                                          (commits_of members y m d)))
                             (days_of dates y m)))
                   (months_of dates y)))
         (years_of dates)).

(** What the listings build instead, as the properties below show: the
    directories of the years, months and days alone, every day directory
    being empty. This is no wording of the specification. *)
Definition by_date_skeleton (E : EntryModule) (root : RevisionHistoryShardByDate)
           (dates : list Date) : tree :=
  Node (EByDate root)
    (map (fun y =>
            let ydir := by_date_dir E root (Str.format_d 4 (Z.of_nat y)) in
            Node (EByDate ydir)
              (map (fun m =>
                      let mdir := by_date_dir E ydir (Str.format_d 2 (Z.of_nat m)) in
                      Node (EByDate mdir)
                        (map (fun d =>
                                Node (EByDate
                                        (by_date_dir E mdir (Str.format_d 2 (Z.of_nat d))))
                                     [])
                             (days_of dates y m)))
                   (months_of dates y)))
         (years_of dates)).

Fixpoint all_some {A} (l : list (option A)) : option (list A) :=
  match l with
  | [] => Some []
  | Some a :: l' => option_map (cons a) (all_some l')
  | None :: l' => None
  end.

(** The recursive listing of a by-date directory: every directory found is
    listed in turn, down to [fuel] levels; [None] when a listing raises or
    when directories remain below the last level. *)
Fixpoint by_date_tree (E : EntryModule) (fuse : Fuse) (fuel : nat) (e : FuseEntry)
  : option tree :=
  match e with
  | EByDate d =>
      match fuel with
      | O => None
      | S fuel' =>
          match RevisionHistoryShardByDate.compute_entries E fuse d with
          | (t, Ret _) =>
              option_map (Node e) (all_some (map (by_date_tree E fuse fuel') (yielded t)))
          | (_, Raise _) => None
          end
      end
  | _ => Some (Node e [])
  end.

(** The names a by-date directory draws its children from: for each resolved
    member whose sharded name starts with the prefix of the directory, the
    field of that name at the depth of the directory. *)
Definition by_date_candidates (fuse : Fuse) (self : RevisionHistoryShardByDate)
           (history : list SWHID) : list string :=
  flat_map (fun s =>
              match cache_metadata_get fuse s with
              | Some meta =>
                  let name := RevisionHistoryShardByDate.get_full_sharded_name meta in
                  if Str.startswith name (bd_prefix self)
                  then [nth (Str.count "/" (bd_prefix self)) (Str.split "/" name) ""]
                  else []
              | None => []
              end) history.

(** The sharded name of a date, [YYYY/MM/DD]. *)
Definition date_name (date : Date) : string :=
  Str.format_d 4 (Z.of_nat (year date)) ++ "/"
  ++ Str.format_d 2 (Z.of_nat (month date)) ++ "/"
  ++ Str.format_d 2 (Z.of_nat (day date)).

(** A field of a path: a string without [/]. *)
Definition slash_free (s : string) : Prop := Str.count "/" s = 0.

(** ** The by-page view, as the specification words it

    [chunks size l] cuts [l] into consecutive pages of [size] elements, the
    last one holding what remains. *)
Fixpoint chunks_aux {A} (fuel size : nat) (l : list A) : list (list A) :=
  match fuel with
  | O => []
  | S fuel' =>
      match l with
      | [] => []
      | _ :: _ => firstn size l :: chunks_aux fuel' size (skipn size l)
      end
  end.

Definition chunks {A} (size : nat) (l : list A) : list (list A) :=
  chunks_aux (List.length l) size l.

(** The directory of the page of index [i] below a by-page directory, and
    the symlink of a commit inside a page. *)
Definition page_dir (E : EntryModule) (self : RevisionHistoryShardByPage) (i : nat)
  : RevisionHistoryShardByPage :=
  mkByPage (RevisionHistoryShardByPage.PAGE_FMT (Z.of_nat i)) (RDONLY_DIR E)
           (S (bp_depth self)) (bp_history_swhid self).

Definition page_leaf (E : EntryModule) (self : RevisionHistoryShardByPage) (swhid : SWHID)
  : FuseEntry :=
  ESymlink (mkSymlink (SWHID_str swhid) (S (S (bp_depth self)))
    (Path.str [relative_root_path E (S (bp_depth self)); "archive/" ++ SWHID_str swhid])).

(** The cache writes for the pages numbered from [first] on. *)
Fixpoint page_sets (E : EntryModule) (self : RevisionHistoryShardByPage) (first : nat)
         (pages : list (list SWHID)) : list event :=
  match pages with
  | [] => []
  | c :: rest =>
      DirentrySet (EByPage (page_dir E self first)) (map (page_leaf E self) c)
      :: page_sets E self (S first) rest
  end.

(** ** The by-hash view, as the specification words it *)

(** The hexadecimal digits [i*L .. (i+1)*L) of the digest of an identifier,
    [L] being the configured prefix length. *)
Definition hash_chunk (fuse : Fuse) (i : nat) (s : SWHID) : string :=
  String.substring (i * Z.to_nat (conf_sharding_length fuse))
                   (Z.to_nat (conf_sharding_length fuse)) (object_id s).

(** Names put end to end. *)
Definition concat_names (l : list string) : string := fold_right append "" l.

(** The prefix of the directory that holds an identifier at depth [k]. *)
Definition hash_prefix (fuse : Fuse) (k : nat) (s : SWHID) : string :=
  concat_names (map (fun i => hash_chunk fuse i s ++ "/") (seq 0 k)).

(** The symlink of a commit, in a directory at depth [depth]. *)
Definition hash_leaf (E : EntryModule) (depth : nat) (swhid : SWHID) : FuseEntry :=
  ESymlink (mkSymlink (SWHID_str swhid) (S depth)
    (Path.str [relative_root_path E depth; "archive/" ++ SWHID_str swhid])).

(** The subdirectory [name] of a by-hash directory. *)
Definition by_hash_dir (E : EntryModule) (parent : RevisionHistoryShardByHash)
           (name : string) : RevisionHistoryShardByHash :=
  mkByHash name (RDONLY_DIR E) (S (bh_depth parent)) (bh_history_swhid parent)
           (bh_prefix parent ++ name ++ "/").

(** The recursive listing of by-hash entries from the directory-entry cache:
    the symlinks found, each with the names of the directories that lead to
    it below [path]. [None] when a directory has no children in the cache or
    lies deeper than [fuel] levels. *)
Fixpoint by_hash_leaves (fuel : nat) (cache : list event) (path : list string)
         (e : FuseEntry) : option (list (list string * FuseEntry)) :=
  match e with
  | EByHash d =>
      match fuel with
      | O => None
      | S fuel' =>
          match direntry_get cache e with
          | Some children =>
              option_map (@List.concat _)
                (all_some (map (by_hash_leaves fuel' cache (path ++ [bh_name d])%list)
                               children))
          | None => None
          end
      end
  | _ => Some [(path, e)]
  end.

Definition by_hash_walk (fuel : nat) (cache : list event) (path : list string)
           (children : list FuseEntry) : option (list (list string * FuseEntry)) :=
  option_map (@List.concat _) (all_some (map (by_hash_leaves fuel cache path) children)).

(** The recursive listing of a by-hash directory: its listing, then the
    listing of the directories found, read from the directory-entry cache its
    listing has filled, down to [levels] levels. *)
Definition by_hash_recursive_listing (E : EntryModule) (fuse : Fuse) (limit levels : nat)
           (self : RevisionHistoryShardByHash) : option (list (list string * FuseEntry)) :=
  match RevisionHistoryShardByHash.compute_entries E fuse limit self with
  | (t, Ret _) => by_hash_walk levels t [] (yielded t)
  | (_, Raise _) => None
  end.

(** The cache writes of a computation all concern by-hash directories whose
    prefix starts with [Q], and the computation yields nothing. *)
Definition keys_under (Q : string) (t : list event) : Prop :=
  Forall (fun ev => match ev with
                    | DirentrySet (EByHash d) _ => String.prefix Q (bh_prefix d) = true
                    | _ => False
                    end) t.

(** The grouping of a list by a key, in the order of the first occurrence of
    the keys. *)
Definition group_by (key : SWHID -> string) (l : list SWHID) : list (string * list SWHID) :=
  fold_left (fun subdirs s => setdefault_append subdirs (key s) s) l [].

(** A plain field: not empty, not [.], without [/]. *)
Definition plain_field (p : string) : Prop :=
  slash_free p /\ String.eqb p "" = false /\ String.eqb p "." = false.

(** The value of a string of decimal digits. *)
Definition decimal_value (s : string) : option nat :=
  option_map Nat.of_uint (NilEmpty.uint_of_string s).

(** [quote_plus] writes its argument byte by byte. *)
Fixpoint quote_plus_bytes (s : string) : string :=
  match s with
  | EmptyString => EmptyString
  | String c s' => urllib_parse.plus_quoter c ++ quote_plus_bytes s'
  end.

(** The 256 bytes, one by one. *)
Ltac each_byte c :=
  destruct c as [[] [] [] [] [] [] [] []]; try reflexivity; try discriminate.

(** The symlink a snapshot shows for one of its branches. *)
Definition snapshot_branch_entry (E : EntryModule) (self : Snapshot)
           (item : string * BranchMeta) : FuseEntry :=
  ESymlink (mkSymlink (urllib_parse.quote_plus (fst item)) (S (snp_depth self))
    (Path.str [relative_root_path E (snp_depth self);
               "archive/" ++ SWHID_str (branch_target (snd item))])).

(** ** A small archive, for the examples *)

Definition SWHID_eqb (a b : SWHID) : bool :=
  ObjectType_eqb (object_type a) (object_type b) && String.eqb (object_id a) (object_id b).

Module Sample.

(** Modes as [stat] builds them: a regular file with [0o444], a directory
    with [0o555]; the root prefix climbs one level per ancestor. *)
Definition E : EntryModule :=
  mkEntryModule 33060 16749 (fun depth => Str.repeat "../" (depth - 1)).

Definition digest (tail : string) : string := Str.zfill 40 tail.

Definition blob1 := mkSWHID CONTENT (digest "b1").
Definition blob2 := mkSWHID CONTENT (digest "b2").
Definition tree1 := mkSWHID DIRECTORY (digest "d1").
Definition tree2 := mkSWHID DIRECTORY (digest "d2").
Definition tree3 := mkSWHID DIRECTORY (digest "d3").
Definition rev1 := mkSWHID REVISION (digest "c1").
Definition tag1 := mkSWHID RELEASE (digest "e1").
Definition tag2 := mkSWHID RELEASE (digest "e2").
Definition tag3 := mkSWHID RELEASE (digest "e3").
Definition snp1 := mkSWHID SNAPSHOT (digest "f1").

Definition readme := mkDirEntryMeta "README" blob1 33188 12.
Definition link := mkDirEntryMeta "link" blob2 DentryPerms.symlink 6.
Definition src := mkDirEntryMeta "src" tree2 16384 0.
Definition weird := mkDirEntryMeta "weird" tag1 33188 0.

(** [tree1] holds a file, a symlink and a subdirectory; [tree3] holds an
    entry that points to a tag. *)
Definition directories (s : SWHID) : result (list DirEntryMeta) :=
  if SWHID_eqb s tree1 then Ok [readme; link; src]
  else if SWHID_eqb s tree2 then Ok []
  else if SWHID_eqb s tree3 then Ok [readme; weird; src]
  else Err NotFound.

Definition blobs (s : SWHID) : result string :=
  if SWHID_eqb s blob1 then Ok ("hello world" ++ String (ascii_of_nat 10) "")
  else if SWHID_eqb s blob2 then Ok "README"
  else Err NotFound.

(** [tag1] names [tag2], which names the commit [rev1], whose tree is
    [tree1]; [tag3] names a blob. *)
Definition releases (s : SWHID) : result ReleaseMeta :=
  if SWHID_eqb s tag1 then Ok (mkReleaseMeta tag2)
  else if SWHID_eqb s tag2 then Ok (mkReleaseMeta rev1)
  else if SWHID_eqb s tag3 then Ok (mkReleaseMeta blob1)
  else Err NotFound.

Definition revisions (s : SWHID) : result RevisionMeta :=
  if SWHID_eqb s rev1 then Ok (mkRevisionMeta tree1 [] (mkDate 2020 12 4))
  else Err NotFound.

Definition snapshots (s : SWHID) : result (list (string * BranchMeta)) :=
  if SWHID_eqb s snp1
  then Ok [("feature/x", mkBranchMeta rev1); ("refs/tags/v 1.0", mkBranchMeta tag1)]
  else Err NotFound.

Definition rev2 := mkSWHID REVISION (digest "c2").
Definition rev3 := mkSWHID REVISION (digest "c3").

Definition history : list SWHID := [rev1; rev2; rev3].

(** The archive with a given state of the metadata cache and given
    sharding parameters. *)
Definition archive (cache : SWHID -> option RevisionMeta) (depth length : Z) : Fuse :=
  mkFuse blobs directories revisions releases snapshots
         (fun _ => Ok history) cache depth length.

Definition fuse : Fuse := archive (fun _ => None) 1 2.

(** A cache that knows the first and the last commit, and one that knows
    all three. *)
Definition cache_partial (s : SWHID) : option RevisionMeta :=
  if SWHID_eqb s rev1 then Some (mkRevisionMeta tree1 [] (mkDate 2020 12 4))
  else if SWHID_eqb s rev3 then Some (mkRevisionMeta tree2 [] (mkDate 2021 1 15))
  else None.

Definition cache_full (s : SWHID) : option RevisionMeta :=
  if SWHID_eqb s rev2 then Some (mkRevisionMeta tree2 [] (mkDate 2020 12 25))
  else cache_partial s.

Definition by_page := mkByPage "by-page" 16749 4 rev1.
Definition by_hash := mkByHash "by-hash" 16749 4 rev1 "".

Definition by_date := mkByDate "by-date" 16749 4 rev1 "".
Definition by_date_2020 := mkByDate "2020" 16749 5 rev1 "2020/".

Definition dir1 := mkDirectory "swh:1:dir:d1" 16749 2 tree1.
Definition dir3 := mkDirectory "swh:1:dir:d3" 16749 2 tree3.

Definition release1 := mkRelease "swh:1:rel:e1" 16749 2 tag1.
Definition release3 := mkRelease "swh:1:rel:e3" 16749 2 tag3.

Definition snapshot1 := mkSnapshot "swh:1:snp:f1" 16749 2 snp1.

End Sample.

(** ** Content

    The attribute [prefetch] of a content is absent, or the directory entry
    the content was made from, or the dictionary [{"length": n}] that
    [get_content] records; both are dictionaries with a key, which the tests
    of the methods take as true. The methods read and update the attribute,
    so they take its current value and return the new one beside their
    result. *)

Inductive Prefetch :=
| PrefetchEntry (entry : DirEntryMeta)
| PrefetchLength (length : Z).

Module Content.

(** [prefetch["length"]]. *)
Definition prefetch_length (p : Prefetch) : Z :=
  match p with
  | PrefetchEntry entry => entry_length entry
  | PrefetchLength n => n
  end.

(** The attribute as [create_child] sets it. *)
Definition initial_prefetch (self : Content) : option Prefetch :=
  option_map PrefetchEntry (cnt_prefetch self).

Definition get_content (fuse : Fuse) (self : Content) (prefetch : option Prefetch)
  : result string * option Prefetch :=
  match get_blob fuse (cnt_swhid self) with
  | Ok data =>
      (Ok data,
       match prefetch with
       | Some p => Some p
       | None => Some (PrefetchLength (Z.of_nat (String.length data)))
       end)
  | Err x => (Err x, prefetch)
  end.

Definition size (fuse : Fuse) (self : Content) (prefetch : option Prefetch)
  : result Z * option Prefetch :=
  match prefetch with
  | Some p => (Ok (prefetch_length p), prefetch)
  | None =>
      let (r, prefetch') := get_content fuse self prefetch in
      (match r with
       | Ok data => Ok (Z.of_nat (String.length data))
       | Err x => Err x
       end, prefetch')
  end.

End Content.

(** ** Revision *)

Record Revision := mkRevision {
  rv_name : string;
  rv_mode : Z;
  rv_depth : nat;
  rv_swhid : SWHID
}.

Record RevisionParents := mkRevisionParents {
  rp_name : string;
  rp_mode : Z;
  rp_depth : nat;
  rp_parents : list SWHID
}.

Record RevisionHistory := mkRevisionHistory {
  rh_name : string;
  rh_mode : Z;
  rh_depth : nat;
  rh_swhid : SWHID
}.

(** What a revision lists: symlinks and its two virtual directories. *)
Inductive RevisionChild :=
| RSymlink (e : FuseSymlinkEntry)
| RParents (e : RevisionParents)
| RHistory (e : RevisionHistory).

Definition revision_child_name (c : RevisionChild) : string :=
  match c with
  | RSymlink e => lnk_name e
  | RParents e => rp_name e
  | RHistory e => rh_name e
  end.

Module Revision.
Section Methods.
Context (E : EntryModule) (fuse : Fuse).

(** The entries yielded, in order, with the outcome of the listing; the
    record [rev_parents] holds the identifiers [x["id"]] of the parents. *)
Definition compute_entries (self : Revision) : list RevisionChild * outcome unit :=
  match get_metadata_revision fuse (rv_swhid self) with
  | Err x => ([], Raise x)
  | Ok metadata =>
      let directory := rev_directory metadata in
      let parents := rev_parents metadata in
      let root_path := relative_root_path E (rv_depth self) in
      let root_target := Path.str [root_path; "archive/" ++ SWHID_str directory] in
      let meta_target :=
        Path.str [root_path; "meta/" ++ SWHID_str (rv_swhid self) ++ ".json"] in
      (([RSymlink (mkSymlink "root" (S (rv_depth self)) root_target);
         RSymlink (mkSymlink "meta.json" (S (rv_depth self)) meta_target);
         RParents (mkRevisionParents "parents" (RDONLY_DIR E) (S (rv_depth self)) parents)]
        ++ (if (1 <=? List.length parents)%nat
            then [RSymlink (mkSymlink "parent" (S (rv_depth self)) "parents/1/")]
            else [])
        ++ [RHistory (mkRevisionHistory "history" (RDONLY_DIR E) (S (rv_depth self))
                        (rv_swhid self))])%list,
       Ret tt)
  end.

End Methods.
End Revision.

(** [enumerate(l)], from index [i] on. *)
Fixpoint enumerate {A} (i : nat) (l : list A) : list (nat * A) :=
  match l with
  | [] => []
  | x :: l' => (i, x) :: enumerate (S i) l'
  end.

Module RevisionParents.
Section Methods.
Context (E : EntryModule).

Definition compute_entries (self : RevisionParents) : M unit :=
  let root_path := relative_root_path E (rp_depth self) in
  for_each (enumerate 0 (rp_parents self)) (fun item =>
    let i := fst item in
    let parent := snd item in
    yield (ESymlink (mkSymlink (Str.decimal (i + 1)) (S (rp_depth self))
             (Path.str [root_path; "archive/" ++ SWHID_str parent])))).

End Methods.
End RevisionParents.

(** ** RevisionHistory

    The listing starts a task that fills the metadata cache in the
    background ([fill_metadata_cache], below); the task runs apart from the
    listing, which reads nothing of what it writes, and is not part of the
    events of the listing. *)

Module RevisionHistory.
Section Methods.
Context (E : EntryModule) (fuse : Fuse).

Definition by_date (self : RevisionHistory) : RevisionHistoryShardByDate :=
  mkByDate "by-date" (RDONLY_DIR E) (S (rh_depth self)) (rh_swhid self) "".

Definition by_hash (self : RevisionHistory) : RevisionHistoryShardByHash :=
  mkByHash "by-hash" (RDONLY_DIR E) (S (rh_depth self)) (rh_swhid self) "".

Definition by_page (self : RevisionHistory) : RevisionHistoryShardByPage :=
  mkByPage "by-page" (RDONLY_DIR E) (S (rh_depth self)) (rh_swhid self).

Definition compute_entries (limit : nat) (self : RevisionHistory) : M unit :=
  history <- await (get_history fuse (rh_swhid self)) ;;
  yield (EByDate (by_date self)) ;;;
  _ <- RevisionHistoryShardByHash.fill_direntry_cache E fuse limit (by_hash self) history ;;
  yield (EByHash (by_hash self)) ;;;
  _ <- RevisionHistoryShardByPage.fill_direntry_cache E (by_page self) history ;;
  yield (EByPage (by_page self)).

End Methods.
End RevisionHistory.

(** ** The background task of the by-date view

    [fill_metadata_cache] calls [get_metadata] on every member of the
    history. The metadata cache that [get_metadata] fills belongs to the
    collaborators: its states [S], the call and the probe are parameters, the
    call returning the state it leaves beside its result. *)

Module MetadataTask.
Section Methods.
Context {S : Type} (get_metadata : S -> SWHID -> S * result RevisionMeta).

Fixpoint fill_metadata_cache (state : S) (swhids : list SWHID) : S * outcome unit :=
  match swhids with
  | [] => (state, Ret tt)
  | swhid :: rest =>
      match get_metadata state swhid with
      | (state', Ok _) => fill_metadata_cache state' rest
      | (state', Err x) => (state', Raise x)
      end
  end.

End Methods.

(** The collaborators with the metadata cache in a given state. *)
Definition with_cache (fuse : Fuse) (cache : SWHID -> option RevisionMeta) : Fuse :=
  mkFuse (get_blob fuse) (get_metadata_directory fuse) (get_metadata_revision fuse)
         (get_metadata_release fuse) (get_metadata_snapshot fuse) (get_history fuse)
         cache (conf_sharding_depth fuse) (conf_sharding_length fuse).

End MetadataTask.

(** ** The virtual files *)

Module ReleaseType.

Definition get_content (self : ReleaseType) : string :=
  ObjectType_name (rt_target_type self) ++ String (ascii_of_nat 10) EmptyString.

Definition size (self : ReleaseType) : nat := String.length (get_content self).

End ReleaseType.

Module StatusFile.

Definition size (self : StatusFile) : nat :=
  String.length (RevisionHistoryShardByDate.StatusFile_get_content self).

End StatusFile.

(** ** Children the listings create, named for the properties below *)

(** The child of a directory for an archived entry that points to a blob or
    to a tree. *)
Definition directory_child (E : EntryModule) (self : Directory) (entry : DirEntryMeta)
  : FuseEntry :=
  if ObjectType_eqb (object_type (entry_target entry)) CONTENT
  then EContent (mkContent (entry_name entry) (entry_perms entry) (S (dir_depth self))
                   (entry_target entry) (Some entry))
  else EDirectory (mkDirectory (entry_name entry) (RDONLY_DIR E) (S (dir_depth self))
                     (entry_target entry)).

(** The symlink a directory shows for a submodule. *)
Definition submodule_link (E : EntryModule) (self : Directory) (entry : DirEntryMeta)
  : FuseEntry :=
  ESymlink (mkSymlink (entry_name entry) (S (dir_depth self))
    (Path.str [relative_root_path E (dir_depth self);
               "archive/" ++ SWHID_str (entry_target entry)])).

(** The symlink of the parent of index [i] in a [parents/] directory. *)
Definition parent_link (E : EntryModule) (self : RevisionParents) (i : nat) (parent : SWHID)
  : FuseEntry :=
  ESymlink (mkSymlink (Str.decimal (i + 1)) (S (rp_depth self))
    (Path.str [relative_root_path E (rp_depth self); "archive/" ++ SWHID_str parent])).

(** A directory name made of hexadecimal digits. *)
Definition hex_field (p : string) : Prop := all_hex p = true /\ p <> "".

(** ** The by-hash view, node by node *)

(** [subdirs.get(key, [])]. *)
Definition subdirs_get (subdirs : list (string * list SWHID)) (key : string) : list SWHID :=
  match find (fun item => String.eqb (fst item) key) subdirs with
  | Some item => snd item
  | None => []
  end.

(** The members of the history that [compute_entries] keeps for a by-hash
    directory: those whose digest starts with the prefix of the directory,
    its slashes removed. *)
Definition by_hash_members (history : list SWHID) (node : RevisionHistoryShardByHash)
  : list SWHID :=
  filter (fun s => Str.startswith (object_id s) (Str.remove "/" (bh_prefix node))) history.

(** The children [fill_direntry_cache] builds for a directory from a list of
    identifiers: symlinks at the sharding depth, one subdirectory per group
    above it. *)
Definition by_hash_children (E : EntryModule) (fuse : Fuse)
           (node : RevisionHistoryShardByHash) (swhids : list SWHID) : list FuseEntry :=
  if (Z.of_nat (Str.count "/" (bh_prefix node)) =? conf_sharding_depth fuse)%Z
  then map (hash_leaf E (bh_depth node)) swhids
  else map (fun item => EByHash (by_hash_dir E node (fst item)))
           (RevisionHistoryShardByHash.group fuse node swhids).

(** A by-hash directory of the history at depth [k]: its prefix is the
    prefix at depth [k] of each of its members. *)
Definition by_hash_at_depth (fuse : Fuse) (history_swhid : SWHID) (history : list SWHID)
           (k : nat) (node : RevisionHistoryShardByHash) : Prop :=
  k <= Z.to_nat (conf_sharding_depth fuse)
  /\ Str.count "/" (bh_prefix node) = k
  /\ bh_history_swhid node = history_swhid
  /\ forall s, In s (by_hash_members history node) -> bh_prefix node = hash_prefix fuse k s.

(** A cache write that stores, for a by-hash directory of the history, the
    children built from its members. *)
Definition by_hash_logged (E : EntryModule) (fuse : Fuse) (history_swhid : SWHID)
           (history : list SWHID) (ev : event) : Prop :=
  exists d k,
    ev = DirentrySet (EByHash d) (by_hash_children E fuse d (by_hash_members history d))
    /\ by_hash_at_depth fuse history_swhid history k d.

(** ** More of the small archive *)

Module Sample2.

Definition rev0 := mkSWHID REVISION (Sample.digest "c0").

(** The commit [rev0] has two parents. *)
Definition revisions (s : SWHID) : result RevisionMeta :=
  if SWHID_eqb s rev0
  then Ok (mkRevisionMeta Sample.tree1 [Sample.rev1; Sample.rev2] (mkDate 2021 2 3))
  else if SWHID_eqb s Sample.rev1
  then Ok (mkRevisionMeta Sample.tree1 [] (mkDate 2020 12 4))
  else if SWHID_eqb s Sample.rev2
  then Ok (mkRevisionMeta Sample.tree2 [] (mkDate 2020 12 25))
  else if SWHID_eqb s Sample.rev3
  then Ok (mkRevisionMeta Sample.tree2 [] (mkDate 2021 1 15))
  else Err NotFound.

Definition submodule := mkDirEntryMeta "vendor" Sample.rev1 57344 0.
Definition tree4 := mkSWHID DIRECTORY (Sample.digest "d4").

Definition directories (s : SWHID) : result (list DirEntryMeta) :=
  if SWHID_eqb s tree4 then Ok [Sample.readme; submodule; Sample.src]
  else Sample.directories s.

(** The tag [tag4] names a commit the archive does not hold. *)
Definition rev9 := mkSWHID REVISION (Sample.digest "c9").
Definition tag4 := mkSWHID RELEASE (Sample.digest "e4").

Definition releases (s : SWHID) : result ReleaseMeta :=
  if SWHID_eqb s tag4 then Ok (mkReleaseMeta rev9) else Sample.releases s.

Definition fuse : Fuse :=
  mkFuse Sample.blobs directories revisions releases Sample.snapshots
         (fun _ => Ok Sample.history) (fun _ => None) 1 2.

Definition release4 := mkRelease "swh:1:rel:e4" 16749 2 tag4.

Definition dir4 := mkDirectory "swh:1:dir:d4" 16749 2 tree4.
Definition revision0 := mkRevision "swh:1:rev:c0" 16749 2 rev0.
Definition history0 := mkRevisionHistory "history" 16749 3 rev0.

(** A metadata cache as a list of records, filled by [get_metadata]. *)
Definition cache_state := list (SWHID * RevisionMeta).

Definition lookup (state : cache_state) (s : SWHID) : option RevisionMeta :=
  option_map snd (find (fun item => SWHID_eqb (fst item) s) state).

Definition get_metadata (state : cache_state) (s : SWHID)
  : cache_state * result RevisionMeta :=
  match lookup state s with
  | Some meta => (state, Ok meta)
  | None =>
      match revisions s with
      | Ok meta => ((s, meta) :: state, Ok meta)
      | Err x => (state, Err x)
      end
  end.

End Sample2.

(* ------------------------------------------------------------------ *)
(** * Properties *)

(** ** Computations *)

Lemma bind_ret {A B} (t : list event) (a : A) (f : A -> M B) :
  bind (t, Ret a) f = ((t ++ fst (f a))%list, snd (f a)).
Proof. unfold bind. destruct (f a); reflexivity. Qed.

Lemma bind_raise {A B} (t : list event) (x : exn) (f : A -> M B) :
  bind (t, Raise x) f = (t, Raise x).
Proof. reflexivity. Qed.

Lemma bind_assoc {A B C} (m : M A) (f : A -> M B) (g : B -> M C) :
  bind (bind m f) g = bind m (fun a => bind (f a) g).
Proof.
  destruct m as [t [a|x]]; [|reflexivity].
  unfold bind at 2 3. destruct (f a) as [t1 [b|y]]; simpl.
  - destruct (g b) as [t2 r]. now rewrite app_assoc.
  - reflexivity.
Qed.

Lemma yielded_app (t1 t2 : list event) :
  yielded (t1 ++ t2) = (yielded t1 ++ yielded t2)%list.
Proof.
  induction t1 as [|[e|n c] t1 IH]; simpl; [reflexivity| |assumption].
  now rewrite IH.
Qed.

Lemma yielded_map_Yield (l : list FuseEntry) : yielded (map Yield l) = l.
Proof. induction l; simpl; congruence. Qed.

Lemma for_each_yield (l : list FuseEntry) : for_each l yield = (map Yield l, Ret tt).
Proof.
  induction l as [|e l IH]; [reflexivity|].
  simpl. rewrite IH. reflexivity.
Qed.

(** A loop whose body yields one entry or raises before yielding: the
    entries yielded so far stand at the positions of the items they come
    from, and a loop that ends normally has yielded one entry per item. *)
Section OneChildPerItem.
Context {A : Type} (body : A -> M unit).
Hypothesis body_cases : forall x,
  (exists e, body x = ([Yield e], Ret tt)) \/ (exists err, body x = ([], Raise err)).

Lemma for_each_positions (l : list A) (i : nat) (x : A) (child : FuseEntry) :
  nth_error l i = Some x ->
  nth_error (yielded (fst (for_each l body))) i = Some child ->
  body x = ([Yield child], Ret tt).
Proof.
  revert i. induction l as [|y l IH]; intros i Hx Hc.
  - destruct i; discriminate.
  - simpl in Hc. destruct (body_cases y) as [[e He]|[err He]].
    + rewrite He, bind_ret in Hc. simpl in Hc.
      destruct i as [|i]; simpl in *.
      * injection Hx as ->. injection Hc as ->. exact He.
      * eapply IH; eassumption.
    + rewrite He in Hc. simpl in Hc. destruct i; discriminate.
Qed.

Lemma for_each_complete (l : list A) :
  snd (for_each l body) = Ret tt ->
  List.length (yielded (fst (for_each l body))) = List.length l.
Proof.
  induction l as [|y l IH]; intros H; [reflexivity|].
  simpl in *. destruct (body_cases y) as [[e He]|[err He]].
  - rewrite He, bind_ret in *. simpl in *. f_equal. auto.
  - rewrite He in H. discriminate.
Qed.

Lemma for_each_stops (pre post : list A) (x : A) (t : list event) (err : exn) :
  for_each pre body = (t, Ret tt) ->
  body x = ([], Raise err) ->
  for_each (pre ++ x :: post) body = (t, Raise err).
Proof.
  revert t. induction pre as [|y pre IH]; intros t Hpre Hx.
  - simpl in *. injection Hpre as <-. rewrite Hx. reflexivity.
  - simpl in *. destruct (body_cases y) as [[e He]|[e He]]; rewrite He in *.
    + rewrite bind_ret in *. simpl in *.
      destruct (for_each pre body) as [t' r'] eqn:Ht'. simpl in *.
      injection Hpre as <- ->. now rewrite (IH t' eq_refl Hx).
    + discriminate.
Qed.

Lemma for_each_never_completes (pre post : list A) (x : A) (err : exn) :
  body x = ([], Raise err) ->
  snd (for_each (pre ++ x :: post) body) <> Ret tt.
Proof.
  intros Hx. induction pre as [|y pre IH]; simpl.
  - rewrite Hx. discriminate.
  - destruct (body_cases y) as [[e He]|[e He]]; rewrite He.
    + rewrite bind_ret. exact IH.
    + discriminate.
Qed.
End OneChildPerItem.

(** ** Directory listings *)

Lemma ObjectType_eqb_eq (a b : ObjectType) : ObjectType_eqb a b = true <-> a = b.
Proof. destruct a, b; simpl; split; congruence. Qed.

Lemma compute_entry_cases E fuse self entry :
  (exists e, Directory.compute_entry E fuse self entry = ([Yield e], Ret tt))
  \/ (exists err, Directory.compute_entry E fuse self entry = ([], Raise err)).
Proof.
  unfold Directory.compute_entry.
  destruct (ObjectType_eqb _ CONTENT); [left; eexists; reflexivity|].
  destruct (ObjectType_eqb _ DIRECTORY); [left; eexists; reflexivity|].
  destruct (_ =? _)%Z.
  - destruct (get_blob fuse _); [left|right]; eexists; reflexivity.
  - destruct (ObjectType_eqb _ REVISION); [|right; eexists; reflexivity].
    destruct (get_metadata_revision fuse _); [left|right]; eexists; reflexivity.
Qed.

(** The child made for an entry whose target is a tree. *)
Lemma compute_entry_tree E fuse self entry :
  object_type (entry_target entry) = DIRECTORY ->
  Directory.compute_entry E fuse self entry =
  ([Yield (EDirectory (mkDirectory (entry_name entry) (RDONLY_DIR E)
                         (S (dir_depth self)) (entry_target entry)))], Ret tt).
Proof.
  intros H. unfold Directory.compute_entry. rewrite H. reflexivity.
Qed.

(** The child made for an entry whose target is a blob: a file, whatever the
    permission bits are; the symlink branch is not reached. *)
Lemma compute_entry_blob E fuse self entry :
  object_type (entry_target entry) = CONTENT ->
  Directory.compute_entry E fuse self entry =
  ([Yield (EContent (mkContent (entry_name entry) (entry_perms entry)
                       (S (dir_depth self)) (entry_target entry) (Some entry)))], Ret tt).
Proof.
  intros H. unfold Directory.compute_entry. rewrite H. reflexivity.
Qed.

(** The symlink branch: permission bits of a symlink on a target that is
    neither a blob nor a tree. *)
Lemma compute_entry_symlink E fuse self entry bytes :
  entry_perms entry = DentryPerms.symlink ->
  object_type (entry_target entry) <> CONTENT ->
  object_type (entry_target entry) <> DIRECTORY ->
  get_blob fuse (entry_target entry) = Ok bytes ->
  Directory.compute_entry E fuse self entry =
  ([Yield (ESymlink (mkSymlink (entry_name entry) (S (dir_depth self)) bytes))], Ret tt).
Proof.
  intros Hp Hc Hd Hb. unfold Directory.compute_entry.
  destruct (ObjectType_eqb _ CONTENT) eqn:E1; [apply ObjectType_eqb_eq in E1; easy|].
  destruct (ObjectType_eqb _ DIRECTORY) eqn:E2; [apply ObjectType_eqb_eq in E2; easy|].
  rewrite Hp, Z.eqb_refl, Hb. reflexivity.
Qed.

Lemma compute_entry_unknown E fuse self entry :
  object_type (entry_target entry) <> CONTENT ->
  object_type (entry_target entry) <> DIRECTORY ->
  object_type (entry_target entry) <> REVISION ->
  entry_perms entry <> DentryPerms.symlink ->
  Directory.compute_entry E fuse self entry =
  ([], Raise (ValueError "Unknown directory entry type: {swhid.object_type}")).
Proof.
  intros Hc Hd Hr Hp. unfold Directory.compute_entry.
  destruct (ObjectType_eqb _ CONTENT) eqn:E1; [apply ObjectType_eqb_eq in E1; easy|].
  destruct (ObjectType_eqb _ DIRECTORY) eqn:E2; [apply ObjectType_eqb_eq in E2; easy|].
  destruct (ObjectType_eqb _ REVISION) eqn:E3; [apply ObjectType_eqb_eq in E3; easy|].
  destruct (_ =? _)%Z eqn:E4; [apply Z.eqb_eq in E4; easy|].
  reflexivity.
Qed.

Lemma compute_entries_metadata E fuse self metadata :
  get_metadata_directory fuse (dir_swhid self) = Ok metadata ->
  Directory.compute_entries E fuse self = for_each metadata (Directory.compute_entry E fuse self).
Proof.
  intros H. unfold Directory.compute_entries. rewrite H. simpl.
  destruct (for_each _ _). reflexivity.
Qed.

(** C1. The entry [link] of the sample tree has the permission bits of a
    symlink and a blob target whose content is ["README"]; the listing shows
    it as a regular file that carries the symlink mode, not as a symlink whose
    target is the content of the blob. *)
Theorem blob_symlink_listed_as_file :
  entry_perms Sample.link = DentryPerms.symlink
  /\ object_type (entry_target Sample.link) = CONTENT
  /\ get_blob Sample.fuse (entry_target Sample.link) = Ok "README"
  /\ get_metadata_directory Sample.fuse (dir_swhid Sample.dir1)
     = Ok [Sample.readme; Sample.link; Sample.src]
  /\ Directory.compute_entries Sample.E Sample.fuse Sample.dir1
     = ([Yield (EContent (mkContent "README" 33188 3 Sample.blob1 (Some Sample.readme)));
         Yield (EContent (mkContent "link" DentryPerms.symlink 3 Sample.blob2
                            (Some Sample.link)));
         Yield (EDirectory (mkDirectory "src" 16749 3 Sample.tree2))],
        Ret tt)
  /\ ~ In (ESymlink (mkSymlink "link" 3 "README"))
          (yielded (fst (Directory.compute_entries Sample.E Sample.fuse Sample.dir1))).
Proof.
  repeat split; try reflexivity.
  vm_compute. intros [H|[H|[H|[]]]]; discriminate.
Qed.

(** C6. In the listing of a tree, the child at the position of an entry
    whose target is a tree is a Directory made of the entry's name and target
    and of the read-only directory mode, so the permission bits of the entry
    do not reach it; every Directory child of the listing has that mode; and a
    listing that ends normally has a child for every entry. *)
Theorem tree_children_are_read_only_directories E fuse self metadata :
  get_metadata_directory fuse (dir_swhid self) = Ok metadata ->
  let listing := Directory.compute_entries E fuse self in
  (forall i entry child,
      nth_error metadata i = Some entry ->
      nth_error (yielded (fst listing)) i = Some child ->
      object_type (entry_target entry) = DIRECTORY ->
      child = EDirectory (mkDirectory (entry_name entry) (RDONLY_DIR E)
                            (S (dir_depth self)) (entry_target entry)))
  /\ (forall d, In (EDirectory d) (yielded (fst listing)) -> dir_mode d = RDONLY_DIR E)
  /\ (snd listing = Ret tt ->
      List.length (yielded (fst listing)) = List.length metadata).
Proof.
  intros Hm listing. unfold listing. rewrite (compute_entries_metadata E fuse self metadata Hm).
  split; [|split].
  - intros i entry child Hi Hc Ht.
    pose proof (for_each_positions _ (compute_entry_cases E fuse self) _ _ _ _ Hi Hc) as H.
    rewrite (compute_entry_tree E fuse self _ Ht) in H. congruence.
  - intros d Hin. apply In_nth_error in Hin. destruct Hin as [i Hc].
    assert (Hlt : i < List.length metadata).
    { clear -Hc. revert i Hc.
      induction metadata as [|y l IH]; intros i Hc; [destruct i; discriminate|].
      simpl in Hc. destruct (compute_entry_cases E fuse self y) as [[e He]|[e He]];
        rewrite He in Hc.
      - rewrite bind_ret in Hc. destruct i; simpl in *; [lia|].
        apply IH in Hc. lia.
      - destruct i; discriminate. }
    destruct (nth_error metadata i) as [entry|] eqn:Hi;
      [|apply nth_error_None in Hi; lia].
    pose proof (for_each_positions _ (compute_entry_cases E fuse self) _ _ _ _ Hi Hc) as H.
    unfold Directory.compute_entry in H.
    destruct (ObjectType_eqb _ CONTENT); [discriminate|].
    destruct (ObjectType_eqb _ DIRECTORY); [injection H as <-; reflexivity|].
    destruct (_ =? _)%Z.
    + destruct (get_blob fuse _); discriminate.
    + destruct (ObjectType_eqb _ REVISION); [|discriminate].
      destruct (get_metadata_revision fuse _); discriminate.
  - apply for_each_complete. apply compute_entry_cases.
Qed.

Lemma tree_children_are_read_only_directories_witness :
  get_metadata_directory Sample.fuse (dir_swhid Sample.dir1)
  = Ok [Sample.readme; Sample.link; Sample.src]
  /\ forall d,
      In (EDirectory d)
         (yielded (fst (Directory.compute_entries Sample.E Sample.fuse Sample.dir1))) ->
      dir_mode d = RDONLY_DIR Sample.E.
Proof.
  split; [reflexivity|].
  apply (tree_children_are_read_only_directories Sample.E Sample.fuse Sample.dir1
           [Sample.readme; Sample.link; Sample.src]).
  reflexivity.
Defined.

(** C7. An entry whose target is neither a blob, a tree nor a commit, and
    whose permission bits are not those of a symlink, makes the listing end
    with the classification error: the listing never ends normally, and when
    the entries before it are listed without error the caller receives their
    children and then the error, nothing of what follows the entry. *)
Theorem unknown_target_kind_raises E fuse self pre entry post :
  get_metadata_directory fuse (dir_swhid self) = Ok (pre ++ entry :: post)%list ->
  object_type (entry_target entry) <> CONTENT ->
  object_type (entry_target entry) <> DIRECTORY ->
  object_type (entry_target entry) <> REVISION ->
  entry_perms entry <> DentryPerms.symlink ->
  snd (Directory.compute_entries E fuse self) <> Ret tt
  /\ (forall t,
        for_each pre (Directory.compute_entry E fuse self) = (t, Ret tt) ->
        Directory.compute_entries E fuse self
        = (t, Raise (ValueError "Unknown directory entry type: {swhid.object_type}"))).
Proof.
  intros Hm Hc Hd Hr Hp.
  rewrite (compute_entries_metadata E fuse self _ Hm).
  pose proof (compute_entry_unknown E fuse self entry Hc Hd Hr Hp) as Hx.
  split.
  - eapply for_each_never_completes; [apply compute_entry_cases|exact Hx].
  - intros t Ht. eapply for_each_stops; [apply compute_entry_cases|exact Ht|exact Hx].
Qed.

Lemma unknown_target_kind_raises_witness :
  Directory.compute_entries Sample.E Sample.fuse Sample.dir3
  = ([Yield (EContent (mkContent "README" 33188 3 Sample.blob1 (Some Sample.readme)))],
     Raise (ValueError "Unknown directory entry type: {swhid.object_type}")).
Proof.
  apply (unknown_target_kind_raises Sample.E Sample.fuse Sample.dir3
           [Sample.readme] Sample.weird [Sample.src]);
    try reflexivity; try discriminate.
Defined.

(** ** Release listings *)

Lemma find_root_directory_silent fuse limit s :
  fst (Release.find_root_directory fuse limit s) = [].
Proof.
  revert s. induction limit as [|limit IH]; intros s; [reflexivity|].
  simpl. destruct (ObjectType_eqb _ RELEASE).
  - destruct (get_metadata_release fuse s) as [m|x]; [|reflexivity].
    simpl. specialize (IH (rel_target m)).
    destruct (Release.find_root_directory fuse limit (rel_target m)).
    simpl in *. assumption.
  - destruct (ObjectType_eqb _ REVISION).
    + destruct (get_metadata_revision fuse s); reflexivity.
    + destruct (ObjectType_eqb _ DIRECTORY); reflexivity.
Qed.

Lemma find_root_directory_resolves fuse s d :
  resolves_to_tree fuse s d ->
  exists n, forall limit, n <= limit ->
    Release.find_root_directory fuse limit s = ([], Ret (Some d)).
Proof.
  induction 1 as [d Hd|c m Hc Hm|t m d Ht Hm _ [n IH]].
  - exists 1. intros [|limit] Hl; [lia|]. simpl. rewrite Hd. reflexivity.
  - exists 1. intros [|limit] Hl; [lia|]. simpl. rewrite Hc, Hm. reflexivity.
  - exists (S n). intros [|limit] Hl; [lia|]. simpl. rewrite Ht, Hm. simpl.
    rewrite IH by lia. reflexivity.
Qed.

Lemma find_root_directory_sound fuse limit s t d :
  Release.find_root_directory fuse limit s = (t, Ret (Some d)) ->
  resolves_to_tree fuse s d.
Proof.
  revert s t. induction limit as [|limit IH]; intros s t H; [discriminate|].
  simpl in H. destruct (ObjectType_eqb _ RELEASE) eqn:E1.
  - apply ObjectType_eqb_eq in E1.
    destruct (get_metadata_release fuse s) as [m|x] eqn:Hm; [|discriminate].
    simpl in H.
    destruct (Release.find_root_directory fuse limit (rel_target m)) as [t' r] eqn:Hr.
    injection H as _ ->. eapply resolve_tag; eauto.
  - destruct (ObjectType_eqb _ REVISION) eqn:E2.
    + apply ObjectType_eqb_eq in E2.
      destruct (get_metadata_revision fuse s) as [m|x] eqn:Hm; [|discriminate].
      injection H as _ <-. now apply resolve_commit.
    + destruct (ObjectType_eqb _ DIRECTORY) eqn:E3; [|discriminate].
      apply ObjectType_eqb_eq in E3. injection H as _ <-. now apply resolve_tree.
Qed.

Lemma find_root_directory_blob fuse s :
  ends_in_blob fuse s ->
  exists n, forall limit, n <= limit ->
    Release.find_root_directory fuse limit s = ([], Ret None).
Proof.
  induction 1 as [b Hb|t m Ht Hm _ [n IH]].
  - exists 1. intros [|limit] Hl; [lia|]. simpl. rewrite Hb. reflexivity.
  - exists (S n). intros [|limit] Hl; [lia|]. simpl. rewrite Ht, Hm. simpl.
    rewrite IH by lia. reflexivity.
Qed.

(** The listing of a release, from what the search for its root returns. *)
Lemma release_compute_entries_unfold E fuse limit self metadata :
  get_metadata_release fuse (rel_swhid self) = Ok metadata ->
  Release.compute_entries E fuse limit self =
  match snd (Release.find_root_directory fuse limit (rel_target metadata)) with
  | Ret (Some d) =>
      (map Yield (release_fixed_entries E self (rel_target metadata)
                  ++ [release_root_entry E self d]), Ret tt)
  | Ret None => (map Yield (release_fixed_entries E self (rel_target metadata)), Ret tt)
  | Raise x => (map Yield (release_fixed_entries E self (rel_target metadata)), Raise x)
  end.
Proof.
  intros Hm. unfold Release.compute_entries. rewrite Hm.
  pose proof (find_root_directory_silent fuse limit (rel_target metadata)) as Hs.
  cbv [bind await ret yield raise release_fixed_entries release_root_entry].
  destruct (Release.find_root_directory fuse limit (rel_target metadata)) as [t r].
  simpl in Hs. subst t.
  destruct r as [[d|]|x]; reflexivity.
Qed.

(** C5. The listing of a release holds its three fixed entries, and then:
    when following the target references from the tag's target reaches a tree,
    a recursion limit that covers the chain gives a fourth entry [root], a
    symlink to that tree under [archive/]; whatever the limit, an entry named
    [root] in the listing is that symlink for a tree the references reach; and
    a chain of tags that ends in a blob gives the three fixed entries
    only. *)
Theorem release_root_iff_resolves_to_tree E fuse self metadata :
  get_metadata_release fuse (rel_swhid self) = Ok metadata ->
  let target := rel_target metadata in
  (forall d, resolves_to_tree fuse target d ->
     exists n, forall limit, n <= limit ->
       Release.compute_entries E fuse limit self
       = (map Yield (release_fixed_entries E self target ++ [release_root_entry E self d]),
          Ret tt))
  /\ (forall limit e,
        In e (yielded (fst (Release.compute_entries E fuse limit self))) ->
        entry_name_of e = "root" ->
        exists d, resolves_to_tree fuse target d /\ e = release_root_entry E self d)
  /\ (ends_in_blob fuse target ->
      exists n, forall limit, n <= limit ->
        Release.compute_entries E fuse limit self
        = (map Yield (release_fixed_entries E self target), Ret tt)).
Proof.
  intros Hm target. split; [|split].
  - intros d Hd. destruct (find_root_directory_resolves fuse _ _ Hd) as [n Hn].
    exists n. intros limit Hl.
    rewrite (release_compute_entries_unfold E fuse limit self metadata Hm).
    fold target. rewrite (Hn limit Hl). reflexivity.
  - intros limit e Hin Hname.
    rewrite (release_compute_entries_unfold E fuse limit self metadata Hm) in Hin.
    fold target in Hin.
    destruct (Release.find_root_directory fuse limit target) as [t r] eqn:Hr.
    simpl in Hin.
    assert (Hfixed : In e (release_fixed_entries E self target) -> False).
    { intros [H|[H|[H|[]]]]; subst e; discriminate. }
    destruct r as [[d|]|x]; simpl in Hin.
    + exists d. split; [eapply find_root_directory_sound; exact Hr|].
      destruct Hin as [H|[H|[H|[H|[]]]]]; subst e; try discriminate. reflexivity.
    + exfalso. apply Hfixed. simpl. tauto.
    + exfalso. apply Hfixed. simpl. tauto.
  - intros Hb. destruct (find_root_directory_blob fuse _ Hb) as [n Hn].
    exists n. intros limit Hl.
    rewrite (release_compute_entries_unfold E fuse limit self metadata Hm).
    fold target. rewrite (Hn limit Hl). reflexivity.
Qed.

Lemma release_root_iff_resolves_to_tree_witness :
  resolves_to_tree Sample.fuse Sample.tag2 Sample.tree1
  /\ (exists n, forall limit, n <= limit ->
        Release.compute_entries Sample.E Sample.fuse limit Sample.release1
        = (map Yield (release_fixed_entries Sample.E Sample.release1 Sample.tag2
                      ++ [release_root_entry Sample.E Sample.release1 Sample.tree1]),
           Ret tt)).
Proof.
  assert (H : resolves_to_tree Sample.fuse Sample.tag2 Sample.tree1).
  { apply (resolve_tag Sample.fuse Sample.tag2 (mkReleaseMeta Sample.rev1));
      [reflexivity|reflexivity|].
    apply (resolve_commit Sample.fuse Sample.rev1
             (mkRevisionMeta Sample.tree1 [] (mkDate 2020 12 4))); reflexivity. }
  split; [exact H|].
  apply (release_root_iff_resolves_to_tree Sample.E Sample.fuse Sample.release1
           (mkReleaseMeta Sample.tag2) eq_refl).
  exact H.
Defined.

(** ** Snapshot listings and the quoting of branch names *)

Lemma all_app p (s1 s2 : string) : Str.all p (s1 ++ s2) = Str.all p s1 && Str.all p s2.
Proof.
  induction s1 as [|c s1 IH]; simpl; [reflexivity|].
  now rewrite IH, andb_assoc.
Qed.

Lemma replace_app c d (s1 s2 : string) :
  Str.replace c d (s1 ++ s2) = Str.replace c d s1 ++ Str.replace c d s2.
Proof. induction s1 as [|a s1 IH]; simpl; congruence. Qed.

Lemma all_no_contains p c s : p c = false -> Str.all p s = true -> Str.contains c s = false.
Proof.
  intros Hp. induction s as [|a s IH]; simpl; [reflexivity|].
  intros H. apply andb_true_iff in H. destruct H as [Ha Hs].
  rewrite (IH Hs), orb_false_r.
  destruct (Ascii.eqb a c) eqn:Hac; [|reflexivity].
  apply Ascii.eqb_eq in Hac. congruence.
Qed.

Lemma quoter_space_replaced c :
  Str.replace " " "+" (urllib_parse.quoter " " c) = urllib_parse.plus_quoter c.
Proof. each_byte c. Qed.

Lemma plus_quoter_chars c :
  Str.all urllib_parse.name_char (urllib_parse.plus_quoter c) = true.
Proof. each_byte c. Qed.

Lemma unquote_plus_quoter c rest :
  urllib_parse.unquote_plus (urllib_parse.plus_quoter c ++ rest)
  = String c (urllib_parse.unquote_plus rest).
Proof. each_byte c. Qed.

Lemma quote_plus_bytewise s : urllib_parse.quote_plus s = quote_plus_bytes s.
Proof.
  unfold urllib_parse.quote_plus, urllib_parse.quote.
  destruct (Str.contains " " s) eqn:Hs; simpl.
  - clear Hs. induction s as [|c s IH]; [reflexivity|].
    simpl. now rewrite replace_app, quoter_space_replaced, IH.
  - induction s as [|c s IH]; [reflexivity|].
    simpl in *. apply orb_false_iff in Hs. destruct Hs as [Hc Hs].
    rewrite (IH Hs). unfold urllib_parse.plus_quoter. now rewrite Hc.
Qed.

Lemma unquote_plus_quote_plus s :
  urllib_parse.unquote_plus (urllib_parse.quote_plus s) = s.
Proof.
  rewrite quote_plus_bytewise.
  induction s as [|c s IH]; [reflexivity|].
  simpl. now rewrite unquote_plus_quoter, IH.
Qed.

Lemma quote_plus_injective s1 s2 :
  urllib_parse.quote_plus s1 = urllib_parse.quote_plus s2 -> s1 = s2.
Proof.
  intros H. rewrite <- (unquote_plus_quote_plus s1), <- (unquote_plus_quote_plus s2).
  now rewrite H.
Qed.

Lemma quote_plus_chars s :
  Str.all urllib_parse.name_char (urllib_parse.quote_plus s) = true.
Proof.
  rewrite quote_plus_bytewise.
  induction s as [|c s IH]; [reflexivity|].
  simpl. now rewrite all_app, plus_quoter_chars, IH.
Qed.

Lemma NoDup_map_injective {A B} (f : A -> B) (l : list A) :
  (forall x y, f x = f y -> x = y) -> NoDup l -> NoDup (map f l).
Proof.
  intros Hf. induction 1 as [|x l Hx _ IH]; simpl; constructor; [|assumption].
  intros Hin. apply in_map_iff in Hin. destruct Hin as [y [Hy Hin]].
  apply Hf in Hy. now subst y.
Qed.

Lemma for_each_yield_map {A} (f : A -> FuseEntry) (l : list A) :
  for_each l (fun x => yield (f x)) = (map Yield (map f l), Ret tt).
Proof.
  induction l as [|x l IH]; [reflexivity|].
  simpl. rewrite IH. reflexivity.
Qed.

(** C8. The listing of a snapshot is one symlink per branch, in the order of
    the branches: its name is the branch name through [quote_plus] and its
    target the branch's target under [archive/]. Branches of distinct names
    are shown under distinct names; a quoted name is made of the always safe
    characters, [%] and [+], so no [/] is left in it; [feature/x] is shown as
    [feature%2Fx]. *)
Theorem snapshot_lists_quoted_branches E fuse self metadata :
  get_metadata_snapshot fuse (snp_swhid self) = Ok metadata ->
  Snapshot.compute_entries E fuse self
  = (map Yield (map (snapshot_branch_entry E self) metadata), Ret tt)
  /\ (NoDup (map fst metadata) ->
      NoDup (map entry_name_of (map (snapshot_branch_entry E self) metadata)))
  /\ (forall name,
        Str.all urllib_parse.name_char (urllib_parse.quote_plus name) = true
        /\ Str.contains "/" (urllib_parse.quote_plus name) = false)
  /\ urllib_parse.quote_plus "feature/x" = "feature%2Fx".
Proof.
  intros Hm. split; [|split; [|split]].
  - unfold Snapshot.compute_entries. rewrite Hm.
    change (await (Ok metadata)) with (@ret (list (string * BranchMeta)) metadata).
    unfold ret at 1. rewrite bind_ret.
    fold (snapshot_branch_entry E self).
    change (fun item => yield (ESymlink _))
      with (fun item => yield (snapshot_branch_entry E self item)).
    rewrite (for_each_yield_map (snapshot_branch_entry E self)). reflexivity.
  - intros Hnd. rewrite map_map. simpl.
    rewrite <- (map_map fst urllib_parse.quote_plus).
    apply NoDup_map_injective; [apply quote_plus_injective|assumption].
  - intros name. split; [apply quote_plus_chars|].
    apply (all_no_contains urllib_parse.name_char); [reflexivity|apply quote_plus_chars].
  - reflexivity.
Qed.

Lemma snapshot_lists_quoted_branches_witness :
  Snapshot.compute_entries Sample.E Sample.fuse Sample.snapshot1
  = ([Yield (ESymlink (mkSymlink "feature%2Fx" 3
               ("../archive/swh:1:rev:" ++ Sample.digest "c1")));
      Yield (ESymlink (mkSymlink "refs%2Ftags%2Fv+1.0" 3
               ("../archive/swh:1:rel:" ++ Sample.digest "e1")))],
     Ret tt).
Proof.
  apply (snapshot_lists_quoted_branches Sample.E Sample.fuse Sample.snapshot1
           [("feature/x", mkBranchMeta Sample.rev1);
            ("refs/tags/v 1.0", mkBranchMeta Sample.tag1)]).
  reflexivity.
Defined.

(** ** Strings *)

Lemma append_assoc (a b c : string) : (a ++ b) ++ c = a ++ b ++ c.
Proof. induction a as [|x a IH]; simpl; congruence. Qed.

Lemma append_nil_r (a : string) : a ++ "" = a.
Proof. induction a as [|x a IH]; simpl; congruence. Qed.

Lemma length_append (a b : string) :
  String.length (a ++ b) = String.length a + String.length b.
Proof. induction a as [|x a IH]; simpl; congruence. Qed.

Lemma count_append c (a b : string) : Str.count c (a ++ b) = Str.count c a + Str.count c b.
Proof. induction a as [|x a IH]; simpl; [reflexivity|]. rewrite IH. lia. Qed.

Lemma split_length c s : List.length (Str.split c s) = S (Str.count c s).
Proof.
  induction s as [|a s IH]; [reflexivity|].
  simpl. destruct (Ascii.eqb a c); simpl; [now rewrite IH|].
  destruct (Str.split c s); simpl in *; congruence.
Qed.

Lemma prefix_count c p s : String.prefix p s = true -> Str.count c p <= Str.count c s.
Proof.
  revert s. induction p as [|a p IH]; intros s H; simpl; [lia|].
  destruct s as [|b s]; [discriminate|].
  simpl in H. destruct (ascii_dec a b) as [<-|]; [|discriminate].
  simpl. specialize (IH s H). lia.
Qed.

(** A name that starts with a prefix has a field at the depth of the
    prefix: the index into the split name is within bounds. *)
Lemma startswith_index name p :
  Str.startswith name p = true ->
  nth_error (Str.split "/" name) (Str.count "/" p)
  = Some (nth (Str.count "/" p) (Str.split "/" name) "").
Proof.
  intros H. apply nth_error_nth'. rewrite split_length.
  apply (prefix_count "/") in H. lia.
Qed.

(** ** By-date listings *)

Lemma by_date_loop E fuse self history st :
  exists subs,
    RevisionHistoryShardByDate.loop E fuse self (Str.count "/" (bd_prefix self)) history st
    = (map Yield
         (map (fun n => EByDate (by_date_dir E self n))
              (first_occurrences String.eqb (RevisionHistoryShardByDate.subdirs st)
                 (by_date_candidates fuse self history))),
       Ret (RevisionHistoryShardByDate.mkLocals
              (RevisionHistoryShardByDate.is_status_done st
               && forallb (resolved fuse) history)
              subs
              (RevisionHistoryShardByDate.nb_entries st
               + List.length (filter (resolved fuse) history)))).
Proof.
  revert st. induction history as [|s history IH]; intros [done subs nb].
  - exists subs. simpl. now rewrite andb_true_r, Nat.add_0_r.
  - simpl. unfold resolved at 1 3.
    destruct (cache_metadata_get fuse s) as [meta|] eqn:Hc.
    + simpl.
      destruct (Str.startswith _ (bd_prefix self)) eqn:Hp; simpl.
      * unfold RevisionHistoryShardByDate.index.
        rewrite (startswith_index _ _ Hp).
        set (next := nth _ _ _).
        unfold ret at 1. rewrite bind_ret. simpl.
        destruct (existsb (String.eqb next) subs) eqn:Hin.
        -- destruct (IH (RevisionHistoryShardByDate.mkLocals done subs (S nb)))
             as [subs' ->].
           exists subs'. simpl. do 3 f_equal. lia.
        -- destruct (IH (RevisionHistoryShardByDate.mkLocals done (next :: subs) (S nb)))
             as [subs' ->].
           exists subs'. simpl. do 3 f_equal. lia.
      * destruct (IH (RevisionHistoryShardByDate.mkLocals done subs (S nb)))
          as [subs' ->].
        exists subs'. simpl. do 3 f_equal. lia.
    + destruct (IH (RevisionHistoryShardByDate.mkLocals false subs nb)) as [subs' ->].
      exists subs'. simpl. now rewrite andb_false_r.
Qed.

(** The listing of a by-date directory, whatever its prefix: the directories
    of the names met first, then the status file when a member of the history
    is not resolved. *)
Lemma by_date_listing E fuse self history :
  get_history fuse (bd_history_swhid self) = Ok history ->
  RevisionHistoryShardByDate.compute_entries E fuse self
  = ((map Yield
        (map (fun n => EByDate (by_date_dir E self n))
             (first_occurrences String.eqb [] (by_date_candidates fuse self history)))
      ++ (if forallb (resolved fuse) history then []
          else [Yield (EStatusFile
                         (mkStatusFile (S (bd_depth self))
                            (List.length (filter (resolved fuse) history))
                            (List.length history)))]))%list,
     Ret tt).
Proof.
  intros Hh. unfold RevisionHistoryShardByDate.compute_entries. rewrite Hh.
  change (await (Ok history)) with (@ret (list SWHID) history).
  unfold ret at 1. rewrite bind_ret. simpl "++"%list.
  destruct (by_date_loop E fuse self history
              (RevisionHistoryShardByDate.mkLocals true [] 0)) as [subs Hl].
  simpl in Hl. cbv zeta. rewrite Hl. rewrite bind_ret. simpl fst. simpl snd.
  cbn [RevisionHistoryShardByDate.is_status_done RevisionHistoryShardByDate.nb_entries].
  destruct (forallb (resolved fuse) history); reflexivity.
Qed.

Lemma forallb_resolved_false fuse history :
  (exists s, In s history /\ cache_metadata_get fuse s = None) ->
  forallb (resolved fuse) history = false.
Proof.
  intros [s [Hin Hs]].
  destruct (forallb (resolved fuse) history) eqn:H; [|reflexivity].
  rewrite forallb_forall in H. specialize (H s Hin).
  unfold resolved in H. rewrite Hs in H. discriminate.
Qed.

(** C10. Whatever the prefix of a by-date directory, while a commit of the
    history has no record in the metadata cache its listing ends with a
    [.status] file, after directories only: [todo] is the length of the whole
    history and [done] the number of all its commits that have a record in the
    cache, whether their dates fall under the prefix or not. *)
Theorem by_date_status_counts_whole_history E fuse self history :
  get_history fuse (bd_history_swhid self) = Ok history ->
  (exists s, In s history /\ cache_metadata_get fuse s = None) ->
  exists dirs,
    RevisionHistoryShardByDate.compute_entries E fuse self
    = (map Yield (map EByDate dirs
                  ++ [EStatusFile
                        (mkStatusFile (S (bd_depth self))
                           (List.length (filter (resolved fuse) history))
                           (List.length history))]),
       Ret tt).
Proof.
  intros Hh Hu.
  rewrite (by_date_listing E fuse self history Hh).
  rewrite (forallb_resolved_false fuse history Hu).
  eexists. rewrite map_app, <- (map_map _ EByDate). reflexivity.
Qed.

Lemma by_date_status_counts_whole_history_witness :
  (exists s, In s Sample.history
             /\ cache_metadata_get (Sample.archive Sample.cache_partial 1 2) s = None)
  /\ exists dirs,
      RevisionHistoryShardByDate.compute_entries Sample.E
        (Sample.archive Sample.cache_partial 1 2) Sample.by_date_2020
      = (map Yield (map EByDate dirs ++ [EStatusFile (mkStatusFile 6 2 3)]), Ret tt).
Proof.
  assert (Hu : exists s, In s Sample.history
                 /\ cache_metadata_get (Sample.archive Sample.cache_partial 1 2) s = None).
  { exists Sample.rev2. split; [simpl; tauto|reflexivity]. }
  split; [exact Hu|].
  exact (by_date_status_counts_whole_history Sample.E
           (Sample.archive Sample.cache_partial 1 2) Sample.by_date_2020
           Sample.history eq_refl Hu).
Defined.

(** ** Decimal formats *)

Lemma format_d_of_nat w n : Str.format_d w (Z.of_nat n) = Str.zfill w (Str.decimal n).
Proof.
  unfold Str.format_d. destruct (Z.ltb_spec (Z.of_nat n) 0); [lia|].
  now rewrite Nat2Z.id.
Qed.

Lemma decimal_value_zero s : decimal_value (String "0" s) = decimal_value s.
Proof.
  unfold decimal_value. simpl. destruct (NilEmpty.uint_of_string s); reflexivity.
Qed.

Lemma decimal_value_format_d w n : decimal_value (Str.format_d w (Z.of_nat n)) = Some n.
Proof.
  rewrite format_d_of_nat. unfold Str.zfill.
  induction (w - String.length (Str.decimal n)) as [|k IH]; simpl.
  - unfold decimal_value, Str.decimal. rewrite NilEmpty.usu. simpl.
    now rewrite Unsigned.of_to.
  - now rewrite decimal_value_zero.
Qed.

Lemma format_d_eqb w a b :
  String.eqb (Str.format_d w (Z.of_nat a)) (Str.format_d w (Z.of_nat b)) = Nat.eqb a b.
Proof.
  destruct (Nat.eqb_spec a b) as [->|Hab]; [apply String.eqb_refl|].
  apply String.eqb_neq. intros H. apply Hab.
  pose proof (decimal_value_format_d w a) as Ha.
  rewrite H, decimal_value_format_d in Ha. congruence.
Qed.

Lemma format_d_slash_free w n : slash_free (Str.format_d w (Z.of_nat n)).
Proof.
  unfold slash_free. rewrite format_d_of_nat. unfold Str.zfill.
  rewrite count_append. replace (Str.count "/" (Str.decimal n)) with 0.
  - induction (w - String.length (Str.decimal n)); simpl; lia.
  - unfold Str.decimal. induction (Nat.to_uint n); simpl; auto.
Qed.

(** ** Fields of a path *)

Lemma slash_free_cons c a :
  slash_free (String c a) -> Ascii.eqb c "/" = false /\ slash_free a.
Proof.
  unfold slash_free. simpl. destruct (Ascii.eqb c "/"); [discriminate|auto].
Qed.

Lemma prefix_nil s : String.prefix "" s = true.
Proof. destruct s; reflexivity. Qed.

Lemma prefix_cons a p b s :
  String.prefix (String a p) (String b s) = Ascii.eqb a b && String.prefix p s.
Proof.
  cbn [String.prefix]. destruct (ascii_dec a b) as [->|H].
  - now rewrite Ascii.eqb_refl.
  - apply Ascii.eqb_neq in H. now rewrite H.
Qed.

Lemma prefix_field a b p s :
  slash_free a -> slash_free b ->
  String.prefix (a ++ "/" ++ p) (b ++ "/" ++ s) = String.eqb a b && String.prefix p s.
Proof.
  revert b. induction a as [|c a IH]; intros b Ha Hb.
  - destruct b as [|c' b]; cbn [append]; rewrite prefix_cons.
    + reflexivity.
    + apply slash_free_cons in Hb. destruct Hb as [Hc' _].
      rewrite Ascii.eqb_sym, Hc'. reflexivity.
  - apply slash_free_cons in Ha. destruct Ha as [Hc Ha].
    cbn [append] in IH.
    destruct b as [|c' b]; cbn [append]; rewrite prefix_cons.
    + rewrite Hc. reflexivity.
    + apply slash_free_cons in Hb. destruct Hb as [_ Hb].
      rewrite (IH b Ha Hb). cbn [String.eqb]. now rewrite andb_assoc.
Qed.

Lemma prefix_field_last a b p :
  slash_free a -> slash_free b -> String.prefix (a ++ "/" ++ p) b = false.
Proof.
  revert b. induction a as [|c a IH]; intros b Ha Hb.
  - destruct b as [|c' b]; cbn [append]; [reflexivity|]. rewrite prefix_cons.
    apply slash_free_cons in Hb. destruct Hb as [Hc' _].
    rewrite Ascii.eqb_sym, Hc'. reflexivity.
  - apply slash_free_cons in Ha. destruct Ha as [Hc Ha].
    cbn [append] in IH.
    destruct b as [|c' b]; cbn [append]; [reflexivity|]. rewrite prefix_cons.
    apply slash_free_cons in Hb. destruct Hb as [_ Hb].
    rewrite (IH b Ha Hb). apply andb_false_r.
Qed.

Lemma split_last a : slash_free a -> Str.split "/" a = [a].
Proof.
  induction a as [|c a IH]; intros Ha; [reflexivity|].
  apply slash_free_cons in Ha. destruct Ha as [Hc Ha].
  simpl. rewrite Hc, (IH Ha). reflexivity.
Qed.

Lemma split_field a s : slash_free a -> Str.split "/" (a ++ "/" ++ s) = a :: Str.split "/" s.
Proof.
  induction a as [|c a IH]; intros Ha; [reflexivity|].
  apply slash_free_cons in Ha. destruct Ha as [Hc Ha].
  simpl. rewrite Hc. simpl in IH. rewrite (IH Ha). reflexivity.
Qed.

Lemma split_date_name d :
  Str.split "/" (date_name d)
  = [Str.format_d 4 (Z.of_nat (year d)); Str.format_d 2 (Z.of_nat (month d));
     Str.format_d 2 (Z.of_nat (day d))].
Proof.
  unfold date_name.
  rewrite split_field by apply format_d_slash_free.
  rewrite split_field by apply format_d_slash_free.
  rewrite split_last by apply format_d_slash_free. reflexivity.
Qed.

(** ** First occurrences *)

Lemma first_occurrences_map {A B} (eqA : A -> A -> bool) (eqB : B -> B -> bool)
      (f : A -> B) :
  (forall x y, eqB (f x) (f y) = eqA x y) ->
  forall l seen,
    first_occurrences eqB (map f seen) (map f l) = map f (first_occurrences eqA seen l).
Proof.
  intros Hf. induction l as [|x l IH]; intros seen; [reflexivity|].
  simpl. replace (existsb (eqB (f x)) (map f seen)) with (existsb (eqA x) seen).
  - destruct (existsb (eqA x) seen); [apply IH|].
    simpl. f_equal. apply (IH (x :: seen)).
  - induction seen as [|y seen IHs]; simpl; [reflexivity|]. now rewrite Hf, IHs.
Qed.

(** ** The by-date tree once every member is resolved *)

Lemma flat_map_filter_map {A B} (p : A -> bool) (f : A -> B) (l : list A) :
  flat_map (fun x => if p x then [f x] else []) l = map f (filter p l).
Proof.
  induction l as [|x l IH]; [reflexivity|].
  simpl. destruct (p x); simpl; now rewrite IH.
Qed.

Lemma by_date_candidates_dates fuse self history :
  by_date_candidates fuse self history
  = map (fun d => nth (Str.count "/" (bd_prefix self)) (Str.split "/" (date_name d)) "")
        (filter (fun d => Str.startswith (date_name d) (bd_prefix self))
                (resolved_dates fuse history)).
Proof.
  rewrite <- flat_map_filter_map. unfold by_date_candidates, resolved_dates.
  induction history as [|s history IH]; [reflexivity|].
  simpl. rewrite IH. destruct (cache_metadata_get fuse s) as [meta|]; [|reflexivity].
  reflexivity.
Qed.

Lemma startswith_year y0 d :
  slash_free y0 ->
  String.prefix (y0 ++ "/") (date_name d)
  = String.eqb y0 (Str.format_d 4 (Z.of_nat (year d))).
Proof.
  intros Hy. unfold date_name.
  change (y0 ++ "/") with (y0 ++ "/" ++ "").
  rewrite prefix_field by (assumption || apply format_d_slash_free).
  now rewrite prefix_nil, andb_true_r.
Qed.

Lemma startswith_month y0 m0 d :
  slash_free y0 -> slash_free m0 ->
  String.prefix ((y0 ++ "/") ++ m0 ++ "/") (date_name d)
  = String.eqb y0 (Str.format_d 4 (Z.of_nat (year d)))
    && String.eqb m0 (Str.format_d 2 (Z.of_nat (month d))).
Proof.
  intros Hy Hm. unfold date_name. rewrite append_assoc.
  rewrite prefix_field by (assumption || apply format_d_slash_free).
  change (m0 ++ "/") with (m0 ++ "/" ++ "").
  rewrite prefix_field by (assumption || apply format_d_slash_free).
  now rewrite prefix_nil, andb_true_r.
Qed.

Lemma startswith_day y0 m0 d0 d :
  slash_free y0 -> slash_free m0 -> slash_free d0 ->
  String.prefix (((y0 ++ "/") ++ m0 ++ "/") ++ d0 ++ "/") (date_name d) = false.
Proof.
  intros Hy Hm Hd. unfold date_name. rewrite !append_assoc.
  rewrite prefix_field by (assumption || apply format_d_slash_free).
  rewrite prefix_field by (assumption || apply format_d_slash_free).
  change (d0 ++ "/") with (d0 ++ "/" ++ "").
  rewrite prefix_field_last by (assumption || apply format_d_slash_free).
  now rewrite !andb_false_r.
Qed.

Lemma filter_all {A} (p : A -> bool) (l : list A) :
  (forall x, p x = true) -> filter p l = l.
Proof.
  intros Hp. induction l as [|x l IH]; [reflexivity|]. simpl. now rewrite Hp, IH.
Qed.

Lemma filter_none {A} (p : A -> bool) (l : list A) :
  (forall x, p x = false) -> filter p l = [].
Proof.
  intros Hp. induction l as [|x l IH]; [reflexivity|]. simpl. now rewrite Hp.
Qed.

Lemma first_occurrences_format_d w (l : list nat) :
  first_occurrences String.eqb [] (map (fun n => Str.format_d w (Z.of_nat n)) l)
  = map (fun n => Str.format_d w (Z.of_nat n)) (first_occurrences Nat.eqb [] l).
Proof.
  apply (first_occurrences_map Nat.eqb String.eqb
           (fun n => Str.format_d w (Z.of_nat n)) (format_d_eqb w) l []).
Qed.

(** The names listed at each of the four levels. *)
Lemma by_date_names_root fuse self history :
  bd_prefix self = "" ->
  first_occurrences String.eqb [] (by_date_candidates fuse self history)
  = map (fun y => Str.format_d 4 (Z.of_nat y)) (years_of (resolved_dates fuse history)).
Proof.
  intros Hp. rewrite by_date_candidates_dates, Hp.
  rewrite filter_all by (intros; apply prefix_nil).
  unfold years_of. rewrite <- first_occurrences_format_d, map_map. f_equal.
  apply map_ext. intros d. now rewrite split_date_name.
Qed.

Lemma by_date_names_year fuse self history y :
  bd_prefix self = Str.format_d 4 (Z.of_nat y) ++ "/" ->
  first_occurrences String.eqb [] (by_date_candidates fuse self history)
  = map (fun m => Str.format_d 2 (Z.of_nat m)) (months_of (resolved_dates fuse history) y).
Proof.
  intros Hp. rewrite by_date_candidates_dates, Hp.
  unfold months_of. rewrite <- first_occurrences_format_d, map_map. f_equal.
  rewrite (filter_ext _ (fun d => Nat.eqb (year d) y)).
  - apply map_ext. intros d. rewrite split_date_name, count_append.
    rewrite (format_d_slash_free 4 y). reflexivity.
  - intros d. unfold Str.startswith.
    rewrite startswith_year by apply format_d_slash_free.
    rewrite format_d_eqb. apply Nat.eqb_sym.
Qed.

Lemma by_date_names_month fuse self history y m :
  bd_prefix self
  = (Str.format_d 4 (Z.of_nat y) ++ "/") ++ Str.format_d 2 (Z.of_nat m) ++ "/" ->
  first_occurrences String.eqb [] (by_date_candidates fuse self history)
  = map (fun d => Str.format_d 2 (Z.of_nat d)) (days_of (resolved_dates fuse history) y m).
Proof.
  intros Hp. rewrite by_date_candidates_dates, Hp.
  unfold days_of. rewrite <- first_occurrences_format_d, map_map. f_equal.
  rewrite (filter_ext _ (fun d => Nat.eqb (year d) y && Nat.eqb (month d) m)).
  - apply map_ext. intros d. rewrite split_date_name, !count_append.
    rewrite (format_d_slash_free 4 y), (format_d_slash_free 2 m). reflexivity.
  - intros d. unfold Str.startswith.
    rewrite startswith_month by apply format_d_slash_free.
    rewrite !format_d_eqb. now rewrite (Nat.eqb_sym y), (Nat.eqb_sym m).
Qed.

Lemma by_date_names_day fuse self history y m d :
  bd_prefix self
  = ((Str.format_d 4 (Z.of_nat y) ++ "/") ++ Str.format_d 2 (Z.of_nat m) ++ "/")
    ++ Str.format_d 2 (Z.of_nat d) ++ "/" ->
  first_occurrences String.eqb [] (by_date_candidates fuse self history) = [].
Proof.
  intros Hp. rewrite by_date_candidates_dates, Hp.
  rewrite filter_none; [reflexivity|].
  intros x. unfold Str.startswith. apply startswith_day; apply format_d_slash_free.
Qed.

Lemma all_some_map {A B} (f : A -> option B) (g : A -> B) (l : list A) :
  (forall x, In x l -> f x = Some (g x)) -> all_some (map f l) = Some (map g l).
Proof.
  induction l as [|x l IH]; intros H; [reflexivity|].
  simpl. rewrite (H x) by (left; reflexivity).
  rewrite IH by (intros y Hy; apply H; right; exact Hy). reflexivity.
Qed.

Lemma forallb_resolved_true fuse history :
  (forall s, In s history -> cache_metadata_get fuse s <> None) ->
  forallb (resolved fuse) history = true.
Proof.
  intros H. apply forallb_forall. intros s Hs. specialize (H s Hs).
  unfold resolved. destruct (cache_metadata_get fuse s); congruence.
Qed.

(** One level of the recursive listing, from the names of the level and the
    trees below them. *)
Lemma by_date_tree_level {A} E fuse fuel self history (name : A -> string)
      (keys : list A) (subtree : A -> tree) :
  get_history fuse (bd_history_swhid self) = Ok history ->
  forallb (resolved fuse) history = true ->
  first_occurrences String.eqb [] (by_date_candidates fuse self history) = map name keys ->
  (forall k, In k keys ->
     by_date_tree E fuse fuel (EByDate (by_date_dir E self (name k))) = Some (subtree k)) ->
  by_date_tree E fuse (S fuel) (EByDate self)
  = Some (Node (EByDate self) (map subtree keys)).
Proof.
  intros Hh Hr Hn Hsub. cbn [by_date_tree].
  rewrite (by_date_listing E fuse self history Hh), Hr, Hn, app_nil_r.
  rewrite yielded_map_Yield, !map_map.
  rewrite (all_some_map _ subtree) by assumption. reflexivity.
Qed.

Lemma resolved_dates_length fuse history :
  forallb (resolved fuse) history = true ->
  List.length (resolved_dates fuse history) = List.length history.
Proof.
  unfold resolved_dates, resolved.
  induction history as [|s history IH]; intros H; [reflexivity|].
  simpl in *. destruct (cache_metadata_get fuse s); [|discriminate].
  simpl. f_equal. apply IH. exact H.
Qed.

Lemma resolved_members_dates fuse history :
  map snd (resolved_members fuse history) = resolved_dates fuse history.
Proof.
  unfold resolved_members, resolved_dates.
  induction history as [|s history IH]; [reflexivity|].
  cbn [flat_map]. rewrite map_app, IH.
  now destruct (cache_metadata_get fuse s).
Qed.

Lemma skeleton_is_not_partition E root leaf member members :
  by_date_skeleton E root (map snd (member :: members))
  <> calendar_partition E root leaf (member :: members).
Proof.
  destruct member as [s date].
  unfold by_date_skeleton, calendar_partition. cbv zeta.
  unfold years_of. cbn [map snd first_occurrences existsb].
  intros H. injection H as H _. revert H.
  unfold months_of. cbn [filter]. rewrite Nat.eqb_refl.
  cbn [map first_occurrences existsb]. intros H. injection H as H _. revert H.
  unfold days_of. cbn [filter]. rewrite !Nat.eqb_refl.
  cbn [andb map first_occurrences existsb]. intros H. injection H as H _. revert H.
  unfold commits_of. cbn [filter snd]. rewrite !Nat.eqb_refl.
  cbn [andb map]. discriminate.
Qed.

Lemma resolved_members_nonempty fuse s history :
  (forall s', In s' (s :: history) -> cache_metadata_get fuse s' <> None) ->
  exists member members, resolved_members fuse (s :: history) = member :: members.
Proof.
  intros Hall. unfold resolved_members at 1. cbn [flat_map].
  specialize (Hall s (or_introl eq_refl)).
  destruct (cache_metadata_get fuse s) as [meta|]; [|contradiction].
  cbn [app]. eexists. eexists. reflexivity.
Qed.

(** C4. For a by-date directory over a history of N commits. While a member
    has no record in the metadata cache, the listing ends with one [.status]
    file whose [todo] is N and whose [done] is the number of members with a
    record, at most N, and the file reads [Done: done/N]. Once every member
    has its record, no [.status] file is listed and the dates at hand are
    those of all N members; the recursive listing of the by-date root is then
    the bare tree of the year, month and day directories, and it is not the
    calendar partition of the commits, whose days hold the commits of their
    date, as soon as the history has a member: every day directory is
    empty. *)
Theorem by_date_calendar_without_commits E fuse self history :
  get_history fuse (bd_history_swhid self) = Ok history ->
  ((exists s, In s history /\ cache_metadata_get fuse s = None) ->
   exists dirs file,
     RevisionHistoryShardByDate.compute_entries E fuse self
     = (map Yield (map EByDate dirs ++ [EStatusFile file]), Ret tt)
     /\ sf_todo file = List.length history
     /\ sf_done file = List.length (filter (resolved fuse) history)
     /\ sf_done file <= sf_todo file
     /\ RevisionHistoryShardByDate.StatusFile_get_content file
        = "Done: " ++ Str.decimal (sf_done file) ++ "/"
          ++ Str.decimal (List.length history) ++ String (ascii_of_nat 10) EmptyString)
  /\ ((forall s, In s history -> cache_metadata_get fuse s <> None) ->
      (forall f, ~ In (EStatusFile f)
                     (yielded (fst (RevisionHistoryShardByDate.compute_entries E fuse self))))
      /\ List.length (resolved_dates fuse history) = List.length history
      /\ (bd_prefix self = "" ->
          by_date_tree E fuse 4 (EByDate self)
          = Some (by_date_skeleton E self (resolved_dates fuse history))
          /\ (history <> [] ->
              forall leaf,
                by_date_tree E fuse 4 (EByDate self)
                <> Some (calendar_partition E self leaf (resolved_members fuse history))))).
Proof.
  intros Hh. split.
  - intros Hu. rewrite (by_date_listing E fuse self history Hh).
    rewrite (forallb_resolved_false fuse history Hu).
    eexists. eexists. split.
    + rewrite map_app, <- (map_map _ EByDate). reflexivity.
    + cbn [sf_todo sf_done]. split; [reflexivity|]. split; [reflexivity|].
      split; [apply filter_length_le | reflexivity].
  - intros Hall. pose proof (forallb_resolved_true fuse history Hall) as Hr.
    split; [|split].
    + intros f. rewrite (by_date_listing E fuse self history Hh), Hr, app_nil_r.
      cbn [fst]. rewrite yielded_map_Yield. intros Hin.
      apply in_map_iff in Hin. destruct Hin as [n [Hn _]]. discriminate.
    + now apply resolved_dates_length.
    + intros Hp.
      assert (Htree : by_date_tree E fuse 4 (EByDate self)
                      = Some (by_date_skeleton E self (resolved_dates fuse history))).
      { unfold by_date_skeleton.
        apply (by_date_tree_level E fuse 3 self history
                 (fun y => Str.format_d 4 (Z.of_nat y))); try assumption.
        { now apply by_date_names_root. }
        intros y _.
        apply (by_date_tree_level E fuse 2 _ history
                 (fun m => Str.format_d 2 (Z.of_nat m))); try assumption.
        { apply by_date_names_year. cbn [by_date_dir bd_prefix]. now rewrite Hp. }
        intros m _.
        apply (by_date_tree_level E fuse 1 _ history
                 (fun d => Str.format_d 2 (Z.of_nat d))); try assumption.
        { apply by_date_names_month. cbn [by_date_dir bd_prefix]. now rewrite Hp. }
        intros d _.
        apply (by_date_tree_level E fuse 0 _ history (fun n : string => n) []
                 (fun _ => Node (EByDate self) [])); try assumption.
        { apply (by_date_names_day fuse _ history y m d).
          cbn [by_date_dir bd_prefix]. now rewrite Hp. }
        intros k []. }
      split; [exact Htree|].
      intros Hne leaf. rewrite Htree. intros Heq.
      assert (Heq' : by_date_skeleton E self (resolved_dates fuse history)
                     = calendar_partition E self leaf (resolved_members fuse history))
        by congruence.
      destruct history as [|s history]; [contradiction|].
      destruct (resolved_members_nonempty fuse s history Hall) as (member & members & Hm).
      rewrite <- resolved_members_dates, Hm in Heq'.
      exact (skeleton_is_not_partition E self leaf member members Heq').
Qed.

Lemma by_date_calendar_without_commits_witness :
  (forall s, In s Sample.history ->
             cache_metadata_get (Sample.archive Sample.cache_full 1 2) s <> None)
  /\ by_date_tree Sample.E (Sample.archive Sample.cache_full 1 2) 4
       (EByDate Sample.by_date)
     = Some (by_date_skeleton Sample.E Sample.by_date
               [mkDate 2020 12 4; mkDate 2020 12 25; mkDate 2021 1 15])
  /\ by_date_tree Sample.E (Sample.archive Sample.cache_full 1 2) 4
       (EByDate Sample.by_date)
     <> Some (calendar_partition Sample.E Sample.by_date
                (fun day s => hash_leaf Sample.E (bd_depth day) s)
                [(Sample.rev1, mkDate 2020 12 4); (Sample.rev2, mkDate 2020 12 25);
                 (Sample.rev3, mkDate 2021 1 15)])
  /\ RevisionHistoryShardByDate.compute_entries Sample.E
       (Sample.archive Sample.cache_full 1 2)
       (mkByDate "04" 16749 7 Sample.rev1 "2020/12/04/")
     = ([], Ret tt).
Proof.
  assert (Hall : forall s, In s Sample.history ->
             cache_metadata_get (Sample.archive Sample.cache_full 1 2) s <> None).
  { intros s [<-|[<-|[<-|[]]]]; discriminate. }
  destruct (proj2 (proj2 (proj2 (by_date_calendar_without_commits Sample.E
                  (Sample.archive Sample.cache_full 1 2) Sample.by_date
                  Sample.history eq_refl) Hall)) eq_refl) as [Htree Hdiff].
  split; [exact Hall|]. split; [exact Htree|]. split; [|reflexivity].
  exact (Hdiff ltac:(discriminate) (fun day s => hash_leaf Sample.E (bd_depth day) s)).
Defined.

(** ** Pages *)

Lemma bind_ext {A B} (m : M A) (f g : A -> M B) :
  (forall a, f a = g a) -> bind m f = bind m g.
Proof.
  intros H. destruct m as [t [a|x]]; [|reflexivity]. simpl. now rewrite H.
Qed.

Lemma bind_ret_unit {A} (m : M A) : bind m ret = m.
Proof. destruct m as [t [a|x]]; simpl; [now rewrite app_nil_r|reflexivity]. Qed.

Lemma PAGE_SIZE_positive : (0 < RevisionHistoryShardByPage.PAGE_SIZE)%Z.
Proof. reflexivity. Qed.

Lemma chunks_aux_nil {A} fuel size : @chunks_aux A fuel size [] = [].
Proof. destruct fuel; reflexivity. Qed.

Section Pages.
Context (E : EntryModule) (self : RevisionHistoryShardByPage).

Local Abbreviation P := RevisionHistoryShardByPage.PAGE_SIZE.
Local Abbreviation size := (Z.to_nat RevisionHistoryShardByPage.PAGE_SIZE).
Local Abbreviation root := (relative_root_path E (S (bp_depth self))).
Local Abbreviation locals := RevisionHistoryShardByPage.mkLocals.
Local Opaque RevisionHistoryShardByPage.PAGE_SIZE.

(** An element that does not open a page joins the current page. *)
Lemma step_within_page idx swhid number i children pages :
  (idx mod P <> 0)%Z ->
  RevisionHistoryShardByPage.step E self idx swhid
    (locals number (Some (page_dir E self i)) (Some root) children pages)
  = ([], Ret (locals number (Some (page_dir E self i)) (Some root)
                (children ++ [page_leaf E self swhid]) pages)).
Proof.
  intros Hm. unfold RevisionHistoryShardByPage.step.
  apply Z.eqb_neq in Hm. rewrite Hm. reflexivity.
Qed.

Lemma loop_within_page l q r number i children pages :
  (1 <= r)%Z -> (r + Z.of_nat (List.length l) <= P)%Z ->
  RevisionHistoryShardByPage.loop E self (q * P + r)%Z l
    (locals number (Some (page_dir E self i)) (Some root) children pages)
  = ([], Ret (locals number (Some (page_dir E self i)) (Some root)
                (children ++ map (page_leaf E self) l) pages)).
Proof.
  revert r children. induction l as [|x l IH]; intros r children Hr Hl.
  - simpl. now rewrite app_nil_r.
  - cbn [RevisionHistoryShardByPage.loop]. cbn [List.length] in Hl.
    rewrite step_within_page.
    + rewrite bind_ret. cbn [app fst snd].
      replace (q * P + r + 1)%Z with (q * P + (r + 1))%Z by lia.
      rewrite IH by lia. cbn [fst snd map]. now rewrite <- app_assoc.
    + rewrite Z.add_comm, Z_mod_plus_full, Z.mod_small; lia.
Qed.

Lemma loop_app l1 l2 idx st :
  RevisionHistoryShardByPage.loop E self idx (l1 ++ l2) st
  = bind (RevisionHistoryShardByPage.loop E self idx l1 st)
         (fun st1 =>
            RevisionHistoryShardByPage.loop E self
              (idx + Z.of_nat (List.length l1))%Z l2 st1).
Proof.
  revert idx st. induction l1 as [|x l1 IH]; intros idx st.
  - cbn [app List.length RevisionHistoryShardByPage.loop]. rewrite Z.add_0_r.
    unfold ret. rewrite bind_ret. cbn [app].
    destruct (RevisionHistoryShardByPage.loop E self idx l2 st). reflexivity.
  - cbn [app RevisionHistoryShardByPage.loop]. rewrite bind_assoc.
    apply bind_ext. intros st1. rewrite IH.
    apply bind_ext. intros st2. f_equal. cbn [List.length]. lia.
Qed.

(** The element that opens the page [q]: the page before it is flushed. *)
Lemma step_opens_page q swhid st ev stf :
  RevisionHistoryShardByPage.flush st = (ev, Ret stf) ->
  RevisionHistoryShardByPage.page_number stf = (Z.of_nat q - 1)%Z ->
  RevisionHistoryShardByPage.step E self (Z.of_nat q * P)%Z swhid st
  = (ev, Ret (locals (Z.of_nat q) (Some (page_dir E self q)) (Some root)
                [page_leaf E self swhid] (RevisionHistoryShardByPage.pages stf))).
Proof.
  intros Hf Hn. unfold RevisionHistoryShardByPage.step.
  rewrite Z_mod_mult, Z.eqb_refl, Hf, bind_ret. cbn [fst snd ret].
  rewrite bind_ret. cbn [fst snd]. rewrite Hn.
  replace (Z.of_nat q - 1 + 1)%Z with (Z.of_nat q) by lia.
  rewrite !app_nil_r. reflexivity.
Qed.

Lemma loop_flush_pages fuel :
  forall l q idx st ev stf,
    List.length l <= fuel ->
    (l <> [] -> idx = (Z.of_nat q * P)%Z) ->
    RevisionHistoryShardByPage.flush st = (ev, Ret stf) ->
    RevisionHistoryShardByPage.page_number stf = (Z.of_nat q - 1)%Z ->
    exists st',
      bind (RevisionHistoryShardByPage.loop E self idx l st)
           RevisionHistoryShardByPage.flush
      = ((ev ++ page_sets E self q (chunks_aux fuel size l))%list, Ret st')
      /\ RevisionHistoryShardByPage.pages st'
         = (RevisionHistoryShardByPage.pages stf
            ++ map (fun i => EByPage (page_dir E self i))
                   (seq q (List.length (chunks_aux fuel size l))))%list.
Proof.
  induction fuel as [|fuel IH]; intros l q idx st ev stf Hl Hidx Hf Hn.
  - destruct l; [|simpl in Hl; lia].
    exists stf. cbn [RevisionHistoryShardByPage.loop chunks_aux page_sets List.length seq map].
    unfold ret. rewrite bind_ret, Hf. cbn [fst snd app]. now rewrite !app_nil_r.
  - destruct l as [|x l].
    + exists stf. cbn [RevisionHistoryShardByPage.loop chunks_aux page_sets List.length seq map].
      unfold ret. rewrite bind_ret, Hf. cbn [fst snd app]. now rewrite !app_nil_r.
    + rewrite (Hidx ltac:(discriminate)). clear Hidx.
      cbn [chunks_aux page_sets List.length seq map].
      assert (Hs : exists size', size = S size').
      { exists (pred size). pose proof PAGE_SIZE_positive. lia. }
      destruct Hs as [size' Hs]. rewrite Hs. cbn [firstn skipn].
      assert (Hlen : List.length (firstn size' l) <= size') by apply firstn_le_length.
      set (st2 := locals (Z.of_nat q) (Some (page_dir E self q)) (Some root)
                         (page_leaf E self x :: map (page_leaf E self) (firstn size' l))
                         (RevisionHistoryShardByPage.pages stf)).
      set (idx2 := (Z.of_nat q * P + Z.of_nat (List.length (x :: firstn size' l)))%Z).
      assert (Hloop0 :
                RevisionHistoryShardByPage.loop E self (Z.of_nat q * P) (x :: l) st
                = bind (ev, Ret st2)
                       (RevisionHistoryShardByPage.loop E self idx2 (skipn size' l))).
      { rewrite <- (firstn_skipn size' l) at 1.
        change (x :: firstn size' l ++ skipn size' l)%list
          with ((x :: firstn size' l) ++ skipn size' l)%list.
        rewrite loop_app. cbn [RevisionHistoryShardByPage.loop].
        rewrite (step_opens_page q x st ev stf Hf Hn), bind_ret. cbn [fst snd].
        rewrite loop_within_page by lia. cbn [fst snd app].
        rewrite app_nil_r. reflexivity. }
      rewrite Hloop0. clear Hloop0.
      destruct (IH (skipn size' l) (S q)
                  (Z.of_nat q * P + Z.of_nat (List.length (x :: firstn size' l)))%Z st2
                  [DirentrySet (EByPage (page_dir E self q))
                     (page_leaf E self x :: map (page_leaf E self) (firstn size' l))]
                  (locals (Z.of_nat q) (Some (page_dir E self q)) (Some root)
                     (page_leaf E self x :: map (page_leaf E self) (firstn size' l))
                     (RevisionHistoryShardByPage.pages stf ++ [EByPage (page_dir E self q)])))
        as [st' [Hrun Hpages]].
      * rewrite length_skipn. simpl in Hl. lia.
      * intros Hne. cbn [List.length].
        assert (size' < List.length l).
        { destruct (le_lt_dec (List.length l) size') as [Hle|Hlt]; [|exact Hlt].
          exfalso. apply Hne. apply skipn_all2. exact Hle. }
        rewrite length_firstn, Nat.min_l by lia. lia.
      * reflexivity.
      * cbn [RevisionHistoryShardByPage.page_number]. lia.
      * exists st'. split.
        -- rewrite bind_ret. fold idx2 in Hrun.
           destruct (RevisionHistoryShardByPage.loop E self idx2 (skipn size' l) st2)
             as [t2 [s2|x2]] eqn:Hloop; cbn [fst snd] in *; [|discriminate].
           rewrite bind_ret in *.
           injection Hrun as Ht Hr. rewrite Hr. f_equal.
           rewrite <- !app_assoc. f_equal. rewrite <- Hs. exact Ht.
        -- rewrite Hpages. cbn [RevisionHistoryShardByPage.pages].
           rewrite <- app_assoc, <- Hs. reflexivity.
Qed.

Lemma fill_direntry_cache_pages swhids :
  RevisionHistoryShardByPage.fill_direntry_cache E self swhids
  = ((page_sets E self 0 (chunks size swhids)
      ++ [DirentrySet (EByPage self)
            (map (fun i => EByPage (page_dir E self i))
                 (seq 0 (List.length (chunks size swhids))))])%list,
     Ret (map (fun i => EByPage (page_dir E self i))
              (seq 0 (List.length (chunks size swhids))))).
Proof.
  unfold RevisionHistoryShardByPage.fill_direntry_cache, chunks.
  rewrite <- bind_assoc.
  destruct (loop_flush_pages (List.length swhids) swhids 0 0%Z
              (locals (-1)%Z None None [] []) [] (locals (-1)%Z None None [] [])
              (le_n _) (fun _ => eq_refl) eq_refl eq_refl)
    as [st' [Hrun Hpages]].
  rewrite Hrun, bind_ret. cbn [app fst snd direntry_set bind ret].
  rewrite Hpages. cbn [RevisionHistoryShardByPage.pages app]. reflexivity.
Qed.

Lemma page_dir_injective i j : page_dir E self i = page_dir E self j -> i = j.
Proof.
  intros H. injection H as H. unfold RevisionHistoryShardByPage.PAGE_FMT in H.
  pose proof (decimal_value_format_d 3 i) as Hi.
  rewrite H, decimal_value_format_d in Hi. congruence.
Qed.

Lemma direntry_get_page_sets_miss cs q i :
  i < q -> direntry_get (page_sets E self q cs) (EByPage (page_dir E self i)) = None.
Proof.
  revert q. induction cs as [|c cs IH]; intros q Hq; [reflexivity|].
  cbn [page_sets direntry_get]. rewrite IH by lia.
  destruct (FuseEntry_eq_dec _ _) as [Heq|]; [|reflexivity].
  assert (Hd : page_dir E self q = page_dir E self i) by congruence.
  apply page_dir_injective in Hd. lia.
Qed.

Lemma direntry_get_page_sets cs q i c :
  nth_error cs i = Some c ->
  direntry_get (page_sets E self q cs) (EByPage (page_dir E self (q + i)))
  = Some (map (page_leaf E self) c).
Proof.
  revert q i. induction cs as [|c0 cs IH]; intros q i Hc; [destruct i; discriminate|].
  cbn [page_sets direntry_get]. destruct i as [|i].
  - injection Hc as ->. rewrite Nat.add_0_r.
    rewrite direntry_get_page_sets_miss by lia.
    destruct (FuseEntry_eq_dec _ _); [reflexivity|congruence].
  - replace (q + S i) with (S q + i) by lia. now rewrite (IH (S q) i Hc).
Qed.

End Pages.

Lemma direntry_get_app t1 t2 node :
  direntry_get (t1 ++ t2) node
  = match direntry_get t2 node with
    | Some c => Some c
    | None => direntry_get t1 node
    end.
Proof.
  induction t1 as [|ev t1 IH]; simpl.
  - now destruct (direntry_get t2 node).
  - rewrite IH. now destruct (direntry_get t2 node).
Qed.

(** ** Cutting a list into pages *)

Section Chunks.
Context {A : Type} (size : nat) (size_positive : 0 < size).

Lemma chunks_aux_concat fuel (l : list A) :
  List.length l <= fuel -> List.concat (chunks_aux fuel size l) = l.
Proof.
  revert l. induction fuel as [|fuel IH]; intros l Hl.
  - destruct l; [reflexivity|simpl in Hl; lia].
  - destruct l as [|x l]; [reflexivity|].
    cbn [chunks_aux List.concat]. rewrite IH.
    + apply firstn_skipn.
    + rewrite length_skipn. cbn [List.length] in *. lia.
Qed.

Lemma chunks_aux_nth fuel (l : list A) i c :
  List.length l <= fuel ->
  nth_error (chunks_aux fuel size l) i = Some c ->
  c = firstn size (skipn (i * size) l)
  /\ 1 <= List.length c <= size
  /\ (S i < List.length (chunks_aux fuel size l) -> List.length c = size).
Proof.
  revert l i. induction fuel as [|fuel IH]; intros l i Hl Hc.
  - destruct i; discriminate.
  - destruct l as [|x l]; [destruct i; discriminate|].
    cbn [chunks_aux] in *.
    assert (Hskip : List.length (skipn size (x :: l)) <= fuel).
    { rewrite length_skipn. cbn [List.length] in *. lia. }
    destruct i as [|i].
    + injection Hc as <-. cbn [Nat.mul skipn nth_error]. split; [reflexivity|].
      rewrite length_firstn. cbn [List.length]. split; [lia|].
      intros Hmore.
      destruct (skipn size (x :: l)) as [|y rest] eqn:Hrest.
      * rewrite chunks_aux_nil in Hmore. simpl in Hmore. lia.
      * assert (List.length (skipn size (x :: l)) <> 0) by (rewrite Hrest; discriminate).
        rewrite length_skipn in H. cbn [List.length] in H. lia.
    + cbn [nth_error] in Hc.
      destruct (IH _ _ Hskip Hc) as [Heq [Hlen Hfull]].
      split; [|split].
      * rewrite Heq, skipn_skipn. do 2 f_equal. lia.
      * exact Hlen.
      * cbn [List.length]. intros Hmore. apply Hfull. lia.
Qed.

End Chunks.

(** C3. The by-page view of a history, empty or not: the history is cut into
    consecutive pages of [PAGE_SIZE] elements, the last one holding the one to
    [PAGE_SIZE] elements that remain; the pages put end to end are the
    history, in its order; the directory of the page of index [i] is named by
    [i] zero-padded to three digits, and the cache holds for it the symlinks
    of the elements of that page, in their order; the by-page directory lists
    the pages in the order of their indices. *)
Theorem by_page_partitions_history E self swhids :
  let size := Z.to_nat RevisionHistoryShardByPage.PAGE_SIZE in
  let pages := chunks size swhids in
  let filled := RevisionHistoryShardByPage.fill_direntry_cache E self swhids in
  snd filled = Ret (map (fun i => EByPage (page_dir E self i))
                        (seq 0 (List.length pages)))
  /\ direntry_get (fst filled) (EByPage self)
     = Some (map (fun i => EByPage (page_dir E self i)) (seq 0 (List.length pages)))
  /\ List.concat pages = swhids
  /\ (forall i page,
        nth_error pages i = Some page ->
        page = firstn size (skipn (i * size) swhids)
        /\ 1 <= List.length page <= size
        /\ (S i < List.length pages -> List.length page = size)
        /\ bp_name (page_dir E self i) = Str.format_d 3 (Z.of_nat i)
        /\ direntry_get (fst filled) (EByPage (page_dir E self i))
           = Some (map (page_leaf E self) page)).
Proof.
  intros size pages filled. unfold filled.
  rewrite fill_direntry_cache_pages. fold size. fold pages. cbn [fst snd].
  assert (Hsize : 0 < size) by (pose proof PAGE_SIZE_positive; unfold size; lia).
  split; [reflexivity|]. split; [|split].
  - rewrite direntry_get_app. cbn [direntry_get].
    destruct (FuseEntry_eq_dec _ _); [reflexivity|congruence].
  - apply chunks_aux_concat; [exact Hsize|lia].
  - intros i page Hp.
    destruct (chunks_aux_nth size Hsize (List.length swhids) swhids i page
                (le_n _) Hp) as [Heq [Hlen Hfull]].
    repeat split; try assumption; try lia.
    rewrite direntry_get_app. cbn [direntry_get].
    destruct (FuseEntry_eq_dec _ _) as [Heq'|].
    + exfalso. injection Heq' as Hd. apply (f_equal bp_depth) in Hd.
      cbn [page_dir bp_depth] in Hd. lia.
    + apply (direntry_get_page_sets E self pages 0 i page Hp).
Qed.

(** ** Substrings, slices and hexadecimal digests *)

Lemma substring_zero n s : String.substring n 0 s = "".
Proof.
  revert n. induction s as [|c s IH]; intros [|n]; simpl; auto.
Qed.

Lemma substring_0_append c r : String.substring 0 (String.length c) (c ++ r) = c.
Proof.
  induction c as [|a c IH]; simpl.
  - apply substring_zero.
  - now rewrite IH.
Qed.

Lemma substring_skip a b n m :
  String.substring (String.length a + n) m (a ++ b) = String.substring n m b.
Proof. induction a as [|x a IH]; simpl; auto. Qed.

Lemma length_substring s n m :
  n + m <= String.length s -> String.length (String.substring n m s) = m.
Proof.
  revert n m. induction s as [|c s IH]; intros n m H; simpl in H.
  - destruct n, m; simpl; lia.
  - destruct n as [|n]; simpl.
    + destruct m as [|m]; simpl; [reflexivity|]. rewrite IH; lia.
    + apply IH. lia.
Qed.

Lemma substring_split s a b :
  String.substring 0 (a + b) s = String.substring 0 a s ++ String.substring a b s.
Proof.
  revert a b. induction s as [|c s IH]; intros a b.
  - destruct a, b; reflexivity.
  - destruct a as [|a]; simpl.
    + reflexivity.
    + now rewrite IH.
Qed.

Lemma all_hex_substring s n m : all_hex s = true -> all_hex (String.substring n m s) = true.
Proof.
  revert n m. induction s as [|c s IH]; intros n m H.
  - destruct n, m; reflexivity.
  - simpl in H. apply andb_true_iff in H. destruct H as [Hc Hs].
    destruct n as [|n]; simpl.
    + destruct m as [|m]; simpl; [reflexivity|]. now rewrite Hc, IH.
    + now apply IH.
Qed.

Lemma hex_digit_not_slash c : is_hex_digit c = true -> Ascii.eqb c "/" = false.
Proof. each_byte c. Qed.

Lemma hex_digit_not_dot c : is_hex_digit c = true -> Ascii.eqb c "." = false.
Proof. each_byte c. Qed.

Lemma all_hex_slash_free s : all_hex s = true -> slash_free s.
Proof.
  unfold slash_free. induction s as [|c s IH]; intros H; [reflexivity|].
  simpl in *. apply andb_true_iff in H. destruct H as [Hc Hs].
  now rewrite (hex_digit_not_slash c Hc), IH.
Qed.

Lemma all_hex_not_dot s : all_hex s = true -> String.eqb s "." = false.
Proof.
  destruct s as [|c s]; intros H; [reflexivity|].
  simpl in *. apply andb_true_iff in H. destruct H as [Hc _].
  now rewrite (hex_digit_not_dot c Hc).
Qed.

(** A slice within the bounds of the string is the substring. *)
Lemma slice_substring (a b : nat) s :
  a <= b -> b <= String.length s ->
  Str.slice (Z.of_nat a) (Z.of_nat b) s = String.substring a (b - a) s.
Proof.
  intros Hab Hb. unfold Str.slice, Str.slice_index.
  destruct (Z.ltb_spec (Z.of_nat a) 0); [lia|].
  destruct (Z.ltb_spec (Z.of_nat b) 0); [lia|].
  rewrite !Z.min_l by lia. rewrite Nat2Z.id. f_equal. lia.
Qed.

(** A slice of no length is empty, wherever it starts. *)
Lemma slice_empty (a : nat) s : Str.slice (Z.of_nat a) (Z.of_nat a) s = "".
Proof.
  unfold Str.slice. rewrite Z.sub_diag. apply substring_zero.
Qed.

(** ** Paths made of plain fields *)

Lemma splitroot_plain p : plain_field p -> Path.splitroot p = ("", p).
Proof.
  intros [Hs [He _]]. destruct p as [|c p]; [discriminate|].
  apply slash_free_cons in Hs. destruct Hs as [Hc _].
  unfold Path.splitroot. revert Hc. each_byte c.
Qed.

Lemma components_plain p : plain_field p -> Path.components p = [p].
Proof.
  intros [Hs [He Hd]]. unfold Path.components.
  rewrite (split_last p Hs). simpl. now rewrite He, Hd.
Qed.

Lemma parse_parts_plain parts root acc :
  Forall plain_field parts ->
  fold_left
    (fun (acc : string * list string) part =>
       let (root, rel) := Path.splitroot part in
       if String.eqb root "" then (fst acc, (snd acc ++ Path.components rel)%list)
       else (root, Path.components rel))
    parts (root, acc)
  = (root, (acc ++ parts)%list).
Proof.
  intros H. revert acc. induction H as [|p parts Hp _ IH]; intros acc.
  - simpl. now rewrite app_nil_r.
  - simpl. rewrite (splitroot_plain p Hp), (components_plain p Hp). simpl.
    rewrite IH, <- app_assoc. reflexivity.
Qed.

Lemma path_str_plain parts :
  Forall plain_field parts -> parts <> [] -> Path.str parts = Str.join "/" parts.
Proof.
  intros H Hne. unfold Path.str, Path.parse_parts.
  rewrite (parse_parts_plain parts "" [] H). simpl.
  destruct parts; [contradiction|reflexivity].
Qed.

Lemma concat_names_app l1 l2 : concat_names (l1 ++ l2) = concat_names l1 ++ concat_names l2.
Proof.
  unfold concat_names. induction l1 as [|x l1 IH]; simpl; [reflexivity|].
  now rewrite IH, append_assoc.
Qed.

Lemma join_fields parts x :
  Str.join "/" (parts ++ [x]) = concat_names (map (fun p => p ++ "/") parts) ++ x.
Proof.
  unfold Str.join. induction parts as [|p parts IH]; [reflexivity|].
  cbn [app map concat_names fold_right String.concat]. fold (concat_names).
  destruct (parts ++ [x])%list as [|y rest] eqn:Hr.
  - destruct parts; discriminate.
  - rewrite IH. unfold concat_names. now rewrite !append_assoc.
Qed.

Lemma SWHID_str_plain s : all_hex (object_id s) = true -> plain_field (SWHID_str s).
Proof.
  intros H. unfold SWHID_str. split; [|split; reflexivity].
  unfold slash_free. rewrite !count_append, (all_hex_slash_free _ H).
  destruct (object_type s); reflexivity.
Qed.

(** ** Sharded names *)

Section Sharding.
Context (fuse : Fuse).

Local Abbreviation D := (conf_sharding_depth fuse).
Local Abbreviation L := (conf_sharding_length fuse).
Local Abbreviation Dn := (Z.to_nat (conf_sharding_depth fuse)).
Local Abbreviation Ln := (Z.to_nat (conf_sharding_length fuse)).

Hypothesis depth_nonneg : (0 <= D)%Z.
Hypothesis length_nonneg : (0 <= L)%Z.
Hypothesis fits_digest : (D * L <= Z.of_nat DIGEST_LENGTH)%Z.

Lemma valid_swhid_digest s :
  valid_swhid s = true ->
  String.length (object_id s) = DIGEST_LENGTH /\ all_hex (object_id s) = true.
Proof.
  unfold valid_swhid. intros H. apply andb_true_iff in H. destruct H as [Hl Hh].
  apply Nat.eqb_eq in Hl. auto.
Qed.

Lemma chunk_within i : i < Dn -> i * Ln + Ln <= DIGEST_LENGTH.
Proof.
  intros Hi. assert ((Z.of_nat i + 1) * L <= D * L)%Z by nia. nia.
Qed.

Lemma hash_chunk_length i s :
  valid_swhid s = true -> i < Dn -> String.length (hash_chunk fuse i s) = Ln.
Proof.
  intros Hv Hi. destruct (valid_swhid_digest s Hv) as [Hlen _].
  unfold hash_chunk. apply length_substring. rewrite Hlen. now apply chunk_within.
Qed.

Lemma hash_chunk_slash_free i s : valid_swhid s = true -> slash_free (hash_chunk fuse i s).
Proof.
  intros Hv. destruct (valid_swhid_digest s Hv) as [_ Hhex].
  apply all_hex_slash_free. now apply all_hex_substring.
Qed.

Lemma hash_chunk_plain i s :
  valid_swhid s = true -> i < Dn -> 0 < Ln -> plain_field (hash_chunk fuse i s).
Proof.
  intros Hv Hi HL. destruct (valid_swhid_digest s Hv) as [_ Hhex].
  split; [now apply hash_chunk_slash_free|]. split.
  - pose proof (hash_chunk_length i s Hv Hi) as Hlen.
    destruct (hash_chunk fuse i s); [simpl in Hlen; lia|reflexivity].
  - apply all_hex_not_dot. now apply all_hex_substring.
Qed.

Lemma hash_prefix_S k s :
  hash_prefix fuse (S k) s = hash_prefix fuse k s ++ hash_chunk fuse k s ++ "/".
Proof.
  unfold hash_prefix. rewrite seq_S, map_app, concat_names_app. simpl.
  now rewrite append_nil_r.
Qed.

Lemma hash_prefix_split k n s :
  exists rest, hash_prefix fuse (k + S n) s
               = hash_prefix fuse k s ++ hash_chunk fuse k s ++ rest.
Proof.
  unfold hash_prefix. rewrite seq_app, map_app, concat_names_app.
  cbn [seq map concat_names fold_right Nat.add].
  eexists. rewrite !append_assoc. reflexivity.
Qed.

(** The sharded name of an identifier: its chunks, each followed by [/], and
    the identifier. *)
Lemma get_full_sharded_name_fields s :
  valid_swhid s = true -> 0 < Dn -> 0 < Ln ->
  RevisionHistoryShardByHash.get_full_sharded_name fuse s
  = hash_prefix fuse Dn s ++ SWHID_str s.
Proof.
  intros Hv HD HL. destruct (valid_swhid_digest s Hv) as [Hlen Hhex].
  unfold RevisionHistoryShardByHash.get_full_sharded_name.
  destruct (Z.leb_spec D 0); [lia|].
  rewrite (map_ext_in _ (fun i => hash_chunk fuse i s)).
  - rewrite path_str_plain.
    + rewrite join_fields. unfold hash_prefix. now rewrite map_map.
    + apply Forall_app. split.
      * apply Forall_forall. intros p Hp. apply in_map_iff in Hp.
        destruct Hp as [i [<- Hi]]. apply in_seq in Hi.
        apply hash_chunk_plain; [assumption|lia|assumption].
      * constructor; [now apply SWHID_str_plain|constructor].
    + intros Hnil. apply app_eq_nil in Hnil. destruct Hnil; discriminate.
  - intros i Hi. apply in_seq in Hi.
    assert (Hw : i * Ln + Ln <= DIGEST_LENGTH) by (apply chunk_within; lia).
    replace (Z.of_nat i * L)%Z with (Z.of_nat (i * Ln)) by nia.
    replace ((Z.of_nat i + 1) * L)%Z with (Z.of_nat (i * Ln + Ln)) by nia.
    rewrite slice_substring by lia. unfold hash_chunk. f_equal. lia.
Qed.

(** The name of the subdirectory an identifier goes to, from a directory at
    depth [k] that holds it. *)
Lemma next_prefix_chunk k s :
  valid_swhid s = true -> k < Dn ->
  Str.slice (Z.of_nat (String.length (hash_prefix fuse k s)))
            (Z.of_nat (String.length (hash_prefix fuse k s)) + L)
            (RevisionHistoryShardByHash.get_full_sharded_name fuse s)
  = hash_chunk fuse k s.
Proof.
  intros Hv Hk. destruct (Nat.eq_dec Ln 0) as [HL0|HL].
  - replace L with 0%Z by lia. rewrite Z.add_0_r, slice_empty.
    unfold hash_chunk. rewrite HL0. now rewrite substring_zero.
  - rewrite get_full_sharded_name_fields by (assumption || lia).
    destruct (hash_prefix_split k (Dn - S k) s) as [rest Hrest].
    replace (k + S (Dn - S k)) with Dn in Hrest by lia.
    rewrite Hrest, !append_assoc.
    pose proof (hash_chunk_length k s Hv Hk) as Hlen.
    set (P := hash_prefix fuse k s) in *. set (c := hash_chunk fuse k s) in *.
    replace (Z.of_nat (String.length P) + L)%Z
      with (Z.of_nat (String.length P + Ln)) by lia.
    rewrite slice_substring.
    + replace (String.length P + Ln - String.length P) with (String.length c) by lia.
      rewrite <- (Nat.add_0_r (String.length P)) at 1.
      rewrite substring_skip. apply substring_0_append.
    + lia.
    + rewrite !length_append. lia.
Qed.

End Sharding.

(** ** Grouping *)

Section Grouping.
Context (key : SWHID -> string).

Lemma setdefault_append_keys subdirs g s k :
  In k (map fst (setdefault_append subdirs g s)) -> k = g \/ In k (map fst subdirs).
Proof.
  induction subdirs as [|[k0 v0] subdirs IH]; simpl.
  - intros [<-|[]]. now left.
  - destruct (String.eqb_spec k0 g) as [->|Hne]; simpl.
    + intros [<-|H]; auto.
    + intros [<-|H]; [auto|]. destruct (IH H); auto.
Qed.

Lemma setdefault_append_NoDup subdirs g s :
  NoDup (map fst subdirs) -> NoDup (map fst (setdefault_append subdirs g s)).
Proof.
  induction subdirs as [|[k0 v0] subdirs IH]; simpl; intros H.
  - constructor; [intros []|constructor].
  - inversion H as [|? ? Hnin Hnd]; subst.
    destruct (String.eqb_spec k0 g) as [->|Hne]; simpl.
    + constructor; assumption.
    + constructor; [|now apply IH].
      intros Hin. apply setdefault_append_keys in Hin. destruct Hin; congruence.
Qed.

Lemma setdefault_append_members subdirs g s :
  key s = g ->
  (forall g' m, In (g', m) subdirs -> m <> [] /\ forall x, In x m -> key x = g') ->
  forall g' m, In (g', m) (setdefault_append subdirs g s) ->
               m <> [] /\ forall x, In x m -> key x = g'.
Proof.
  intros Hk. induction subdirs as [|[k0 v0] subdirs IH]; simpl; intros H g' m Hin.
  - destruct Hin as [[= <- <-]|[]]. split; [discriminate|].
    intros x [<-|[]]. exact Hk.
  - destruct (String.eqb_spec k0 g) as [->|Hne]; simpl in Hin.
    + destruct Hin as [[= <- <-]|Hin]; [|apply H; now right].
      destruct (H g v0 (or_introl eq_refl)) as [_ Hv]. split.
      * destruct v0; discriminate.
      * intros x Hx. apply in_app_or in Hx. destruct Hx as [Hx|[<-|[]]]; auto.
    + destruct Hin as [[= <- <-]|Hin]; [apply H; now left|].
      apply IH; [|exact Hin]. intros g'' m' Hin'. apply H. now right.
Qed.

Lemma setdefault_append_perm subdirs g s :
  Permutation (List.concat (map snd (setdefault_append subdirs g s)))
              (s :: List.concat (map snd subdirs)).
Proof.
  induction subdirs as [|[k0 v0] subdirs IH]; simpl.
  - reflexivity.
  - destruct (String.eqb k0 g); simpl.
    + rewrite <- app_assoc. simpl.
      symmetry. apply Permutation_middle.
    + rewrite IH. symmetry. apply Permutation_middle.
Qed.

Lemma group_by_fold l subdirs :
  NoDup (map fst subdirs) ->
  (forall g m, In (g, m) subdirs -> m <> [] /\ forall x, In x m -> key x = g) ->
  let G := fold_left (fun acc s => setdefault_append acc (key s) s) l subdirs in
  NoDup (map fst G)
  /\ (forall g m, In (g, m) G -> m <> [] /\ forall x, In x m -> key x = g)
  /\ Permutation (List.concat (map snd G)) (List.concat (map snd subdirs) ++ l).
Proof.
  revert subdirs. induction l as [|s l IH]; intros subdirs Hnd Hm; simpl.
  - split; [assumption|]. split; [assumption|]. now rewrite app_nil_r.
  - destruct (IH (setdefault_append subdirs (key s) s)) as [H1 [H2 H3]].
    + now apply setdefault_append_NoDup.
    + now apply setdefault_append_members.
    + split; [assumption|]. split; [assumption|].
      rewrite H3, setdefault_append_perm. simpl.
      apply Permutation_middle.
Qed.

Lemma group_by_spec l :
  NoDup (map fst (group_by key l))
  /\ (forall g m, In (g, m) (group_by key l) -> m <> [] /\ forall x, In x m -> key x = g)
  /\ Permutation (List.concat (map snd (group_by key l))) l.
Proof.
  apply (group_by_fold l []); [constructor|intros g m []].
Qed.

End Grouping.

Lemma group_by_ext key1 key2 l :
  (forall s, In s l -> key1 s = key2 s) -> group_by key1 l = group_by key2 l.
Proof.
  unfold group_by. generalize (@nil (string * list SWHID)).
  induction l as [|s l IH]; intros acc H; [reflexivity|].
  simpl. rewrite (H s) by (left; reflexivity).
  apply IH. intros x Hx. apply H. now right.
Qed.

(** ** Collected results and cache lookups *)

Lemma collect_rets {A B} (l : list A) (body : A -> M B) (f : A -> B) :
  (forall x, In x l -> snd (body x) = Ret (f x)) ->
  collect l body = (List.concat (map (fun x => fst (body x)) l), Ret (map f l)).
Proof.
  induction l as [|x l IH]; intros H; [reflexivity|].
  cbn [collect map List.concat].
  specialize (H x (or_introl eq_refl)) as Hx.
  destruct (body x) as [t r]. cbn [snd] in Hx. subst r.
  rewrite bind_ret, IH by (intros y Hy; apply H; now right).
  cbn [fst snd]. rewrite bind_ret. cbn [fst snd ret]. now rewrite app_nil_r.
Qed.

Lemma all_some_exists {A B} (f : A -> option B) (R : A -> B -> Prop) (l : list A) :
  (forall x, In x l -> exists y, f x = Some y /\ R x y) ->
  exists ys, all_some (map f l) = Some ys /\ Forall2 R l ys.
Proof.
  induction l as [|x l IH]; intros H.
  - exists []. split; [reflexivity|constructor].
  - destruct (H x (or_introl eq_refl)) as [y [Hy HR]].
    destruct IH as [ys [Hys HF]]; [intros z Hz; apply H; now right|].
    exists (y :: ys). split; [|now constructor].
    simpl. now rewrite Hy, Hys.
Qed.

Lemma prefix_split p s : String.prefix p s = true -> exists r, s = p ++ r.
Proof.
  revert s. induction p as [|a p IH]; intros s H.
  - exists s. reflexivity.
  - destruct s as [|b s]; [discriminate|].
    rewrite prefix_cons in H. apply andb_true_iff in H. destruct H as [Hab Hp].
    apply Ascii.eqb_eq in Hab. subst b. destruct (IH s Hp) as [r ->].
    exists r. reflexivity.
Qed.

Lemma prefix_append p r : String.prefix p (p ++ r) = true.
Proof.
  induction p as [|a p IH]; [apply prefix_nil|].
  cbn [append]. now rewrite prefix_cons, Ascii.eqb_refl, IH.
Qed.

Lemma prefix_refl p : String.prefix p p = true.
Proof.
  induction p as [|a p IH]; [reflexivity|].
  now rewrite prefix_cons, Ascii.eqb_refl, IH.
Qed.

Lemma prefix_trans p q s :
  String.prefix p q = true -> String.prefix q s = true -> String.prefix p s = true.
Proof.
  intros Hpq Hqs. apply prefix_split in Hpq, Hqs.
  destruct Hpq as [r1 ->]. destruct Hqs as [r2 ->].
  rewrite append_assoc. apply prefix_append.
Qed.

Lemma prefix_append_inv p a s :
  String.prefix (p ++ a) (p ++ s) = String.prefix a s.
Proof.
  induction p as [|c p IH]; [reflexivity|].
  cbn [append]. now rewrite prefix_cons, Ascii.eqb_refl, IH.
Qed.

(** Two subdirectories of one directory whose prefixes both start a string
    have the same name. *)
Lemma sibling_prefixes P g1 g2 s :
  slash_free g1 -> slash_free g2 ->
  String.prefix (P ++ g1 ++ "/") s = true ->
  String.prefix (P ++ g2 ++ "/") s = true ->
  g1 = g2.
Proof.
  intros H1 H2 Hp1 Hp2.
  apply prefix_split in Hp2. destruct Hp2 as [r ->].
  rewrite append_assoc, prefix_append_inv in Hp1.
  rewrite append_assoc in Hp1.
  change (g1 ++ "/") with (g1 ++ "/" ++ "") in Hp1.
  rewrite prefix_field in Hp1 by assumption.
  apply andb_true_iff in Hp1. destruct Hp1 as [Hg _].
  now apply String.eqb_eq in Hg.
Qed.

Lemma keys_under_app Q t1 t2 : keys_under Q (t1 ++ t2) <-> keys_under Q t1 /\ keys_under Q t2.
Proof. apply Forall_app. Qed.

Lemma keys_under_weaken P Q t :
  String.prefix P Q = true -> keys_under Q t -> keys_under P t.
Proof.
  intros HPQ H. unfold keys_under in *. eapply Forall_impl; [|exact H].
  intros [e|[| | | | | |d|] c]; try tauto.
  intros Hd. eapply prefix_trans; eassumption.
Qed.

Lemma keys_under_miss Q t d :
  keys_under Q t -> String.prefix Q (bh_prefix d) = false ->
  direntry_get t (EByHash d) = None.
Proof.
  intros H Hd. induction H as [|ev t Hev _ IH]; [reflexivity|].
  cbn [direntry_get]. rewrite IH.
  destruct ev as [e|n c]; [reflexivity|].
  destruct (FuseEntry_eq_dec n (EByHash d)) as [->|]; [|reflexivity].
  congruence.
Qed.

Lemma keys_under_yielded Q t : keys_under Q t -> yielded t = [].
Proof.
  induction 1 as [|ev t Hev _ IH]; [reflexivity|].
  destruct ev as [e|n c]; [contradiction|exact IH].
Qed.

Lemma direntry_get_concat_miss {X} (G : list X) (logs : X -> list event) node :
  (forall y, In y G -> direntry_get (logs y) node = None) ->
  direntry_get (List.concat (map logs G)) node = None.
Proof.
  induction G as [|y G IH]; intros H; [reflexivity|].
  cbn [map List.concat]. rewrite direntry_get_app, IH.
  - apply H. now left.
  - intros z Hz. apply H. now right.
Qed.

Lemma direntry_get_concat_unique {X} (G1 G2 : list X) (x : X)
      (logs : X -> list event) node :
  (forall y, In y (G1 ++ G2) -> direntry_get (logs y) node = None) ->
  direntry_get (List.concat (map logs (G1 ++ x :: G2))) node = direntry_get (logs x) node.
Proof.
  intros H. rewrite map_app, concat_app. cbn [map List.concat].
  rewrite !direntry_get_app.
  rewrite (direntry_get_concat_miss G2) by (intros y Hy; apply H, in_or_app; now right).
  rewrite (direntry_get_concat_miss G1) by (intros y Hy; apply H, in_or_app; now left).
  now destruct (direntry_get (logs x) node).
Qed.

Lemma NoDup_fst_eq {A B} (G : list (A * B)) x y :
  NoDup (map fst G) -> In x G -> In y G -> fst x = fst y -> x = y.
Proof.
  induction G as [|z G IH]; intros Hnd Hx Hy Hxy; [destruct Hx|].
  inversion Hnd as [|? ? Hz Hnd']; subst.
  destruct Hx as [->|Hx], Hy as [->|Hy]; auto.
  - exfalso. apply Hz. rewrite Hxy. now apply in_map.
  - exfalso. apply Hz. rewrite <- Hxy. now apply in_map.
Qed.

Lemma prefix_length p s : String.prefix p s = true -> String.length p <= String.length s.
Proof.
  intros H. apply prefix_split in H. destruct H as [r ->]. rewrite length_append. lia.
Qed.

Lemma prefix_longer P g : String.prefix (P ++ g ++ "/") P = false.
Proof.
  destruct (String.prefix (P ++ g ++ "/") P) eqn:H; [|reflexivity].
  apply prefix_length in H. rewrite !length_append in H. simpl in H. lia.
Qed.

Lemma Forall2_concat_perm {X Y Z} (G : list X) (yss : list (list Y))
      (f : Y -> Z) (g : X -> list Z) :
  Forall2 (fun x ys => Permutation (map f ys) (g x)) G yss ->
  Permutation (map f (List.concat yss)) (List.concat (map g G)).
Proof.
  induction 1 as [|x ys G yss Hx _ IH]; [reflexivity|].
  cbn [List.concat map]. rewrite map_app. now apply Permutation_app.
Qed.

Lemma Forall2_concat_Forall {X Y} (G : list X) (yss : list (list Y))
      (R : X -> Y -> Prop) (Q : Y -> Prop) :
  (forall x y, In x G -> R x y -> Q y) ->
  Forall2 (fun x ys => Forall (R x) ys) G yss ->
  Forall Q (List.concat yss).
Proof.
  intros HRQ H. induction H as [|x ys G yss Hx _ IH]; [constructor|].
  cbn [List.concat]. apply Forall_app. split.
  - eapply Forall_impl; [|exact Hx]. intros y. apply HRQ. now left.
  - apply IH. intros x' y Hin. apply HRQ. now right.
Qed.

(** ** The by-hash tree *)

Section ByHashTree.
Context (E : EntryModule) (fuse : Fuse).

Local Abbreviation D := (conf_sharding_depth fuse).
Local Abbreviation L := (conf_sharding_length fuse).
Local Abbreviation Dn := (Z.to_nat (conf_sharding_depth fuse)).
Local Abbreviation fill := (RevisionHistoryShardByHash.fill_direntry_cache E fuse).

Hypothesis depth_nonneg : (0 <= D)%Z.
Hypothesis length_nonneg : (0 <= L)%Z.
Hypothesis fits_digest : (D * L <= Z.of_nat DIGEST_LENGTH)%Z.

Lemma fill_at_depth limit node l :
  Z.of_nat (Str.count "/" (bh_prefix node)) = D ->
  fill (S limit) node l
  = ([DirentrySet (EByHash node) (map (hash_leaf E (bh_depth node)) l)],
     Ret (map (hash_leaf E (bh_depth node)) l)).
Proof.
  intros H. cbn [RevisionHistoryShardByHash.fill_direntry_cache].
  apply Z.eqb_eq in H. rewrite H. reflexivity.
Qed.

Lemma fill_above_depth limit node l :
  Z.of_nat (Str.count "/" (bh_prefix node)) <> D ->
  fill (S limit) node l
  = bind (collect (RevisionHistoryShardByHash.group fuse node l)
            (fun item =>
               bind (fill limit (by_hash_dir E node (fst item)) (snd item))
                    (fun _ => ret (EByHash (by_hash_dir E node (fst item))))))
         (fun children =>
            bind (direntry_set (EByHash node) children) (fun _ => ret children)).
Proof.
  intros H. cbn [RevisionHistoryShardByHash.fill_direntry_cache].
  apply Z.eqb_neq in H. rewrite H. reflexivity.
Qed.

(** The dictionary built by the grouping loop of a directory at depth [k]
    groups the identifiers by their chunk [k]. *)
Lemma group_by_chunk k node l :
  k < Dn ->
  (forall s, In s l -> valid_swhid s = true /\ bh_prefix node = hash_prefix fuse k s) ->
  RevisionHistoryShardByHash.group fuse node l = group_by (hash_chunk fuse k) l.
Proof.
  intros Hk Hl. unfold RevisionHistoryShardByHash.group.
  apply (group_by_ext
           (fun s => Str.slice (Z.of_nat (String.length (bh_prefix node)))
                       (Z.of_nat (String.length (bh_prefix node)) + L)
                       (RevisionHistoryShardByHash.get_full_sharded_name fuse s))).
  intros s Hs. destruct (Hl s Hs) as [Hv ->].
  now apply next_prefix_chunk.
Qed.

Lemma fill_tree n :
  forall k limit node l,
    k + n = Dn -> n < limit ->
    Str.count "/" (bh_prefix node) = k ->
    (forall s, In s l -> valid_swhid s = true /\ bh_prefix node = hash_prefix fuse k s) ->
    exists t children,
      fill limit node l = (t, Ret children)
      /\ direntry_get t (EByHash node) = Some children
      /\ keys_under (bh_prefix node) t
      /\ (n = 0 -> children = map (hash_leaf E (bh_depth node)) l)
      /\ forall cache path,
          (forall d, String.prefix (bh_prefix node) (bh_prefix d) = true ->
                     direntry_get cache (EByHash d) = direntry_get t (EByHash d)) ->
          exists leaves,
            by_hash_walk n cache path children = Some leaves
            /\ Permutation (map snd leaves) (map (hash_leaf E (bh_depth node + n)) l)
            /\ Forall (fun pe =>
                         exists s, In s l
                                   /\ snd pe = hash_leaf E (bh_depth node + n) s
                                   /\ fst pe = (path ++ map (fun i => hash_chunk fuse i s)
                                                            (seq k n))%list)
                      leaves.
Proof.
  induction n as [|n IH]; intros k limit node l Hkn Hlimit Hcount Hl.
  - destruct limit as [|limit]; [lia|].
    exists [DirentrySet (EByHash node) (map (hash_leaf E (bh_depth node)) l)].
    exists (map (hash_leaf E (bh_depth node)) l).
    split; [apply fill_at_depth; lia|]. split.
    { cbn [direntry_get]. destruct (FuseEntry_eq_dec _ _); [reflexivity|congruence]. }
    split.
    { constructor; [apply prefix_refl|constructor]. }
    split; [reflexivity|].
    intros cache path _. exists (map (fun s => (path, hash_leaf E (bh_depth node) s)) l).
    rewrite Nat.add_0_r. split; [|split].
    + unfold by_hash_walk. rewrite map_map.
      rewrite (all_some_map _ (fun s => [(path, hash_leaf E (bh_depth node) s)]))
        by (intros; destruct fuse; reflexivity).
      cbn [option_map]. f_equal.
      induction l as [|s l IHl]; [reflexivity|].
      cbn [map List.concat app]. f_equal. apply IHl.
      intros s' Hs'. apply Hl. now right.
    + rewrite map_map. reflexivity.
    + apply Forall_forall. intros pe Hpe. apply in_map_iff in Hpe.
      destruct Hpe as [s [<- Hs]]. exists s. cbn [fst snd seq map].
      now rewrite app_nil_r.
  - destruct limit as [|limit]; [lia|].
    assert (Hk : k < Dn) by lia.
    pose proof (group_by_spec (hash_chunk fuse k) l) as [HndG [HmemG HpermG]].
    rewrite <- (group_by_chunk k node l Hk Hl) in HndG, HmemG, HpermG.
    set (G := RevisionHistoryShardByHash.group fuse node l) in *.
    set (body := fun item : string * list SWHID =>
                   bind (fill limit (by_hash_dir E node (fst item)) (snd item))
                        (fun _ => ret (EByHash (by_hash_dir E node (fst item))))).
    (* what the induction hypothesis says of each group *)
    assert (Hin_l : forall x s, In x G -> In s (snd x) -> In s l).
    { intros x s Hx Hs. eapply Permutation_in; [exact HpermG|].
      apply in_concat. exists (snd x). split; [now apply in_map|exact Hs]. }
    assert (Hkey : forall x s, In x G -> In s (snd x) -> hash_chunk fuse k s = fst x).
    { intros [g m] s Hx Hs. now apply (HmemG g m Hx). }
    assert (Hfree : forall x, In x G -> slash_free (fst x)).
    { intros [g m] Hx. destruct (HmemG g m Hx) as [Hne Hm].
      destruct m as [|s m]; [contradiction|].
      rewrite <- (Hm s (or_introl eq_refl)).
      apply hash_chunk_slash_free. apply (Hl s).
      apply (Hin_l (g, s :: m) s Hx). now left. }
    assert (Hgood : forall x, In x G ->
              exists t children,
                fill limit (by_hash_dir E node (fst x)) (snd x) = (t, Ret children)
                /\ direntry_get t (EByHash (by_hash_dir E node (fst x))) = Some children
                /\ keys_under (bh_prefix node ++ fst x ++ "/") t
                /\ forall cache path,
                    (forall d, String.prefix (bh_prefix node ++ fst x ++ "/")
                                             (bh_prefix d) = true ->
                               direntry_get cache (EByHash d) = direntry_get t (EByHash d)) ->
                    exists leaves,
                      by_hash_walk n cache path children = Some leaves
                      /\ Permutation (map snd leaves)
                                     (map (hash_leaf E (bh_depth node + S n)) (snd x))
                      /\ Forall (fun pe =>
                                   exists s, In s (snd x)
                                     /\ snd pe = hash_leaf E (bh_depth node + S n) s
                                     /\ fst pe = (path ++ map (fun i => hash_chunk fuse i s)
                                                              (seq (S k) n))%list)
                                leaves).
    { intros x Hx.
      destruct (IH (S k) limit (by_hash_dir E node (fst x)) (snd x))
        as [t [children [H1 [H2 [H3 [_ H4]]]]]].
      - lia.
      - lia.
      - cbn [by_hash_dir bh_prefix]. rewrite !count_append, (Hfree x Hx), Hcount.
        simpl. lia.
      - intros s Hs. split; [apply (Hl s), (Hin_l x s Hx Hs)|].
        cbn [by_hash_dir bh_prefix]. rewrite hash_prefix_S, (Hkey x s Hx Hs).
        now rewrite (proj2 (Hl s (Hin_l x s Hx Hs))).
      - exists t, children. repeat split; try assumption.
        cbn [by_hash_dir bh_depth] in H4.
        replace (bh_depth node + S n) with (S (bh_depth node) + n) by lia.
        exact H4. }
    assert (Hbody : forall x, In x G ->
              snd (body x) = Ret (EByHash (by_hash_dir E node (fst x)))
              /\ fst (body x) = fst (fill limit (by_hash_dir E node (fst x)) (snd x))).
    { intros x Hx. destruct (Hgood x Hx) as [t [children [H1 _]]].
      unfold body. rewrite H1, bind_ret. cbn [fst snd ret]. now rewrite app_nil_r. }
    set (children := map (fun x => EByHash (by_hash_dir E node (fst x))) G).
    set (T := (List.concat (map (fun x => fst (body x)) G)
               ++ [DirentrySet (EByHash node) children])%list).
    assert (Hfill : fill (S limit) node l = (T, Ret children)).
    { rewrite fill_above_depth by lia. fold G. fold body.
      rewrite (collect_rets G body (fun x => EByHash (by_hash_dir E node (fst x))))
        by (intros x Hx; apply (Hbody x Hx)).
      rewrite bind_ret. reflexivity. }
    (* lookups below a subdirectory only see the writes of its group *)
    assert (HU : forall x d, In x G ->
              String.prefix (bh_prefix node ++ fst x ++ "/") (bh_prefix d) = true ->
              direntry_get T (EByHash d) = direntry_get (fst (body x)) (EByHash d)).
    { intros x d Hx Hd. unfold T. rewrite direntry_get_app. cbn [direntry_get].
      destruct (FuseEntry_eq_dec (EByHash node) (EByHash d)) as [Heq|_].
      { injection Heq as <-. now rewrite prefix_longer in Hd. }
      destruct (in_split x G Hx) as [G1 [G2 HG]].
      rewrite HG, direntry_get_concat_unique.
      - now destruct (direntry_get (fst (body x)) (EByHash d)).
      - intros y Hy.
        assert (HyG : In y G).
        { rewrite HG. apply in_app_or in Hy. apply in_or_app.
          destruct Hy; [now left|right; now right]. }
        destruct (Hgood y HyG) as [t [c [H1 [_ [H3 _]]]]].
        rewrite (proj2 (Hbody y HyG)), H1. cbn [fst].
        apply (keys_under_miss _ _ _ H3).
        destruct (String.prefix (bh_prefix node ++ fst y ++ "/") (bh_prefix d)) eqn:Hyd;
          [|reflexivity].
        exfalso.
        assert (fst y = fst x)
          by (eapply sibling_prefixes; eauto).
        assert (y = x) by (eapply NoDup_fst_eq; eauto). subst y.
        assert (Hnd : NoDup G).
        { apply (NoDup_map_inv fst). exact HndG. }
        rewrite HG in Hnd. apply NoDup_remove_2 in Hnd. contradiction. }
    exists T, children. split; [exact Hfill|]. split.
    { unfold T. rewrite direntry_get_app. cbn [direntry_get].
      destruct (FuseEntry_eq_dec _ _); [reflexivity|congruence]. }
    split.
    { unfold T. apply keys_under_app. split.
      - apply Forall_concat. apply Forall_forall. intros t Ht.
        apply in_map_iff in Ht. destruct Ht as [x [<- Hx]].
        destruct (Hgood x Hx) as [t [c [H1 [_ [H3 _]]]]].
        rewrite (proj2 (Hbody x Hx)), H1. cbn [fst].
        eapply keys_under_weaken; [|exact H3]. apply prefix_append.
      - constructor; [apply prefix_refl|constructor]. }
    split; [discriminate|].
    intros cache path Hag.
    destruct (all_some_exists
                (fun x => by_hash_leaves (S n) cache path (EByHash (by_hash_dir E node (fst x))))
                (fun x leaves =>
                   Permutation (map snd leaves)
                               (map (hash_leaf E (bh_depth node + S n)) (snd x))
                   /\ Forall (fun pe =>
                                exists s, In s (snd x)
                                  /\ snd pe = hash_leaf E (bh_depth node + S n) s
                                  /\ fst pe = ((path ++ [fst x])
                                               ++ map (fun i => hash_chunk fuse i s)
                                                      (seq (S k) n))%list)
                             leaves)
                G) as [yss [Hall HF2]].
    { intros x Hx. destruct (Hgood x Hx) as [t [c [H1 [H2 [H3 H4]]]]].
      assert (Hlog : fst (body x) = t) by (rewrite (proj2 (Hbody x Hx)), H1; reflexivity).
      destruct (H4 cache (path ++ [fst x])%list) as [leaves [Hw [Hp HF]]].
      { intros d Hd. rewrite Hag.
        - rewrite (HU x d Hx Hd), Hlog. reflexivity.
        - eapply prefix_trans; [|exact Hd]. apply prefix_append. }
      exists leaves. split; [|split; assumption].
      cbn [by_hash_leaves]. rewrite Hag by apply prefix_append.
      rewrite (HU x _ Hx) by apply prefix_refl.
      rewrite Hlog, H2. exact Hw. }
    exists (List.concat yss). split; [|split].
    + unfold by_hash_walk, children. rewrite map_map, Hall. reflexivity.
    + transitivity (List.concat
                      (map (fun x => map (hash_leaf E (bh_depth node + S n)) (snd x)) G)).
      * apply (Forall2_concat_perm G yss snd
                 (fun x => map (hash_leaf E (bh_depth node + S n)) (snd x))).
        eapply Forall2_impl; [|exact HF2]. intros x ys [Hp _]. exact Hp.
      * rewrite <- (map_map snd (map (hash_leaf E (bh_depth node + S n))) G).
        rewrite <- concat_map. now apply Permutation_map.
    + apply (Forall2_concat_Forall G yss
               (fun x pe => exists s, In s (snd x)
                              /\ snd pe = hash_leaf E (bh_depth node + S n) s
                              /\ fst pe = ((path ++ [fst x])
                                           ++ map (fun i => hash_chunk fuse i s)
                                                  (seq (S k) n))%list)).
      * intros x pe Hx [s [Hs [Hleaf Hpath]]]. exists s.
        split; [apply (Hin_l x s Hx Hs)|]. split; [exact Hleaf|].
        rewrite Hpath, <- app_assoc. cbn [seq map app].
        now rewrite (Hkey x s Hx Hs).
      * eapply Forall2_impl; [|exact HF2]. intros x ys [_ HF]. exact HF.
Qed.

End ByHashTree.

Lemma hash_chunks_concat fuse n s :
  concat_names (map (fun i => hash_chunk fuse i s) (seq 0 n))
  = String.substring 0 (n * Z.to_nat (conf_sharding_length fuse)) (object_id s).
Proof.
  induction n as [|n IH].
  - simpl. now rewrite substring_zero.
  - rewrite seq_S, map_app, concat_names_app, IH. cbn [map concat_names fold_right].
    rewrite append_nil_r. unfold hash_chunk. cbn [Nat.add Nat.mul].
    rewrite (Nat.add_comm _ (n * _)). now rewrite substring_split.
Qed.

Lemma SWHID_str_injective a b : SWHID_str a = SWHID_str b -> a = b.
Proof.
  destruct a as [ta ia], b as [tb ib]. unfold SWHID_str. cbn [object_type object_id].
  intros H. destruct ta, tb; simpl in H; try discriminate; injection H as ->; reflexivity.
Qed.

Lemma direntry_get_yields l node : direntry_get (map Yield l) node = None.
Proof. induction l as [|e l IH]; simpl; [reflexivity|]. now rewrite IH. Qed.

Lemma by_hash_compute_entries_root E fuse limit self history :
  bh_prefix self = "" ->
  get_history fuse (bh_history_swhid self) = Ok history ->
  RevisionHistoryShardByHash.compute_entries E fuse limit self
  = bind (RevisionHistoryShardByHash.fill_direntry_cache E fuse limit self history)
         (fun children => for_each children yield).
Proof.
  intros Hp Hh. unfold RevisionHistoryShardByHash.compute_entries.
  rewrite Hh, Hp. change (await (Ok history)) with (@ret (list SWHID) history).
  unfold ret at 1. rewrite bind_ret. cbn [app fst snd Str.remove].
  rewrite filter_all by (intros; apply prefix_nil).
  now destruct (bind _ _).
Qed.

(** C2, amended. When the configured depth [D] and prefix length [L] are not
    negative and [D * L] digits fit in a digest, the recursive listing of the
    by-hash root over a history of N distinct, well-formed identifiers finds N
    symlinks with no name twice: they are the symlinks of the N identifiers,
    each named by the full identifier, below [D] directories whose names put
    end to end are the first [D * L] digits of its digest; with [D = 0] the
    root lists the N symlinks itself. *)
Theorem by_hash_leaves_partition E fuse limit self history :
  (0 <= conf_sharding_depth fuse)%Z ->
  (0 <= conf_sharding_length fuse)%Z ->
  (conf_sharding_depth fuse * conf_sharding_length fuse <= Z.of_nat DIGEST_LENGTH)%Z ->
  bh_prefix self = "" ->
  get_history fuse (bh_history_swhid self) = Ok history ->
  Forall (fun s => valid_swhid s = true) history ->
  NoDup history ->
  Z.to_nat (conf_sharding_depth fuse) < limit ->
  let depth := Z.to_nat (conf_sharding_depth fuse) in
  let leaf := hash_leaf E (bh_depth self + depth) in
  exists leaves,
    by_hash_recursive_listing E fuse limit depth self = Some leaves
    /\ List.length leaves = List.length history
    /\ NoDup (map (fun pe => entry_name_of (snd pe)) leaves)
    /\ Permutation (map snd leaves) (map leaf history)
    /\ Forall (fun pe =>
                 exists s, In s history
                   /\ snd pe = leaf s
                   /\ entry_name_of (snd pe) = SWHID_str s
                   /\ List.length (fst pe) = depth
                   /\ concat_names (fst pe)
                      = String.substring 0
                          (Z.to_nat (conf_sharding_depth fuse * conf_sharding_length fuse))
                          (object_id s))
              leaves
    /\ (conf_sharding_depth fuse = 0%Z ->
        yielded (fst (RevisionHistoryShardByHash.compute_entries E fuse limit self))
        = map leaf history).
Proof.
  intros HD HL Hfit Hp Hh Hvalid Hnd Hlimit depth leaf.
  destruct (fill_tree E fuse HD HL Hfit depth 0 limit self history)
    as [t [children [Hfill [Hget [Hkeys [Hflat Hwalk]]]]]].
  - reflexivity.
  - exact Hlimit.
  - now rewrite Hp.
  - intros s Hs. split; [|now rewrite Hp].
    rewrite Forall_forall in Hvalid. now apply Hvalid.
  - assert (Hce : RevisionHistoryShardByHash.compute_entries E fuse limit self
                  = ((t ++ map Yield children)%list, Ret tt)).
    { rewrite (by_hash_compute_entries_root E fuse limit self history Hp Hh).
      rewrite Hfill, bind_ret, for_each_yield. reflexivity. }
    destruct (Hwalk (t ++ map Yield children)%list []) as [leaves [Hw [Hperm HF]]].
    { intros d _. rewrite direntry_get_app, direntry_get_yields. reflexivity. }
    exists leaves. split; [|split; [|split; [|split; [|split]]]].
    + unfold by_hash_recursive_listing. rewrite Hce.
      rewrite yielded_app, (keys_under_yielded _ _ Hkeys), yielded_map_Yield.
      exact Hw.
    + rewrite <- (length_map snd leaves), <- (length_map leaf history).
      now apply Permutation_length.
    + rewrite <- (map_map snd entry_name_of).
      apply (Permutation_NoDup (l := map entry_name_of (map leaf history))).
      * symmetry. now apply Permutation_map.
      * rewrite map_map. cbn [leaf hash_leaf entry_name_of lnk_name].
        apply NoDup_map_injective; [apply SWHID_str_injective|exact Hnd].
    + exact Hperm.
    + eapply Forall_impl; [|exact HF]. intros pe [s [Hs [Hleaf Hpath]]].
      exists s. split; [exact Hs|]. split; [exact Hleaf|].
      split; [rewrite Hleaf; reflexivity|].
      rewrite Hpath. cbn [app]. split.
      * now rewrite length_map, length_seq.
      * rewrite hash_chunks_concat. f_equal. unfold depth. nia.
    + intros HD0. rewrite Hce. cbn [fst].
      rewrite yielded_app, (keys_under_yielded _ _ Hkeys), yielded_map_Yield.
      cbn [app]. rewrite Hflat by (unfold depth; rewrite HD0; reflexivity).
      unfold leaf, depth. rewrite HD0. cbn [Z.to_nat]. now rewrite Nat.add_0_r.
Qed.

Lemma by_hash_leaves_partition_witness :
  exists leaves,
    by_hash_recursive_listing Sample.E Sample.fuse 5 1 Sample.by_hash = Some leaves
    /\ List.length leaves = 3
    /\ NoDup (map (fun pe => entry_name_of (snd pe)) leaves).
Proof.
  assert (Hnd : NoDup Sample.history).
  { unfold Sample.history. constructor.
    - intros [H|[H|[]]]; vm_compute in H; discriminate.
    - constructor.
      + intros [H|[]]; vm_compute in H; discriminate.
      + constructor; [intros []|constructor]. }
  assert (Hvalid : Forall (fun s => valid_swhid s = true) Sample.history).
  { repeat constructor. }
  destruct (by_hash_leaves_partition Sample.E Sample.fuse 5 Sample.by_hash Sample.history)
    as [leaves [H1 [H2 [H3 _]]]];
    [discriminate|discriminate|discriminate|reflexivity|reflexivity
    |exact Hvalid|exact Hnd|simpl; lia|].
  exists leaves. split; [exact H1|]. split; [exact H2|exact H3].
Defined.

(** C2, as stated, fails. With depth 3 and prefix length 20, sixty digits
    do not fit in a digest of forty: the third level of directories is named
    by the start of the identifier's text, and the names that lead to a
    symlink, put end to end, are not the leading digits of its digest. *)
Lemma by_hash_names_beyond_digest :
  let fuse := Sample.archive (fun _ => None) 3 20 in
  NoDup Sample.history
  /\ option_map (map (fun pe => (fst pe, entry_name_of (snd pe))))
       (by_hash_recursive_listing Sample.E fuse 50 3 Sample.by_hash)
     = Some [(["00000000000000000000"; "000000000000000000c1"; "swh:1:rev:0000000000"],
              "swh:1:rev:00000000000000000000000000000000000000c1");
             (["00000000000000000000"; "000000000000000000c2"; "swh:1:rev:0000000000"],
              "swh:1:rev:00000000000000000000000000000000000000c2");
             (["00000000000000000000"; "000000000000000000c3"; "swh:1:rev:0000000000"],
              "swh:1:rev:00000000000000000000000000000000000000c3")]
  /\ concat_names ["00000000000000000000"; "000000000000000000c1"; "swh:1:rev:0000000000"]
     <> String.substring 0 (3 * 20) (object_id Sample.rev1).
Proof.
  split; [|split].
  - unfold Sample.history. constructor.
    + intros [H|[H|[]]]; vm_compute in H; discriminate.
    + constructor.
      * intros [H|[]]; vm_compute in H; discriminate.
      * constructor; [intros []|constructor].
  - vm_compute. reflexivity.
  - vm_compute. discriminate.
Qed.

(** ** Children are stored before they are yielded *)

Lemma split_after_silent a b t1 e t2 :
  yielded a = [] ->
  (a ++ b)%list = (t1 ++ Yield e :: t2)%list ->
  exists t1', t1 = (a ++ t1')%list /\ b = (t1' ++ Yield e :: t2)%list.
Proof.
  revert t1. induction a as [|ev a IH]; intros t1 Ha H.
  - exists t1. auto.
  - destruct ev as [x|n c]; [discriminate|].
    destruct t1 as [|ev' t1]; [discriminate|].
    injection H as <- H. destruct (IH t1 Ha H) as [t1' [-> ->]].
    exists t1'. auto.
Qed.

Lemma direntry_get_yield_prefix l t1 rest node :
  map Yield l = (t1 ++ rest)%list -> direntry_get t1 node = None.
Proof.
  revert l. induction t1 as [|ev t1 IH]; intros l H; [reflexivity|].
  destruct l as [|x l]; [discriminate|]. injection H as <- H.
  simpl. now rewrite (IH l H).
Qed.

Lemma stored_before_yield (filled : M (list FuseEntry)) (self : FuseEntry) t1 e t2 :
  yielded (fst filled) = [] ->
  (forall children, snd filled = Ret children ->
                    direntry_get (fst filled) self = Some children) ->
  fst (bind filled (fun children => for_each children yield))
  = (t1 ++ Yield e :: t2)%list ->
  direntry_get t1 self
  = Some (yielded (fst (bind filled (fun children => for_each children yield)))).
Proof.
  destruct filled as [t [children|x]]; cbn [fst snd]; intros Hs Hget.
  - rewrite bind_ret, for_each_yield. cbn [fst]. intros H.
    destruct (split_after_silent _ _ _ _ _ Hs H) as [t1' [-> Hy]].
    rewrite direntry_get_app, (direntry_get_yield_prefix _ _ _ self Hy).
    rewrite yielded_app, Hs, yielded_map_Yield. now apply Hget.
  - cbn [bind fst]. intros H. exfalso.
    assert (Hy : yielded (t1 ++ Yield e :: t2) = []) by now rewrite <- H.
    rewrite yielded_app in Hy. apply app_eq_nil in Hy. destruct Hy; discriminate.
Qed.

Lemma collect_silent {A B} (l : list A) (body : A -> M B) :
  (forall x, yielded (fst (body x)) = []) -> yielded (fst (collect l body)) = [].
Proof.
  intros H. induction l as [|x l IH]; [reflexivity|].
  cbn [collect]. specialize (H x). destruct (body x) as [t [b|err]]; [|exact H].
  rewrite bind_ret. cbn [fst] in *. rewrite yielded_app, H.
  destruct (collect l body) as [t' [bs|err]]; cbn [fst] in *.
  - rewrite bind_ret. cbn [fst ret]. now rewrite app_nil_r.
  - exact IH.
Qed.

Lemma by_hash_fill_stores E fuse limit self swhids :
  let filled := RevisionHistoryShardByHash.fill_direntry_cache E fuse limit self swhids in
  yielded (fst filled) = []
  /\ forall children, snd filled = Ret children ->
                      direntry_get (fst filled) (EByHash self) = Some children.
Proof.
  revert self swhids. induction limit as [|limit IH]; intros self swhids.
  - split; [reflexivity|discriminate].
  - cbn [RevisionHistoryShardByHash.fill_direntry_cache]. cbv zeta.
    set (inner := if (_ =? _)%Z then _ else _).
    assert (Hinner : yielded (fst inner) = []).
    { unfold inner. destruct (_ =? _)%Z; [reflexivity|].
      apply collect_silent. intros x.
      destruct (IH (mkByHash (fst x) (RDONLY_DIR E) (S (bh_depth self))
                      (bh_history_swhid self) (bh_prefix self ++ fst x ++ "/"))
                   (snd x)) as [Hs _].
      destruct (RevisionHistoryShardByHash.fill_direntry_cache _ _ _ _ _)
        as [t [c|err]]; cbn [fst] in *; [|exact Hs].
      rewrite bind_ret. cbn [fst ret]. now rewrite app_nil_r. }
    destruct inner as [t [children|err]]; cbn [fst] in *.
    + rewrite bind_ret. cbn [fst snd direntry_set bind ret app].
      split.
      * rewrite yielded_app, Hinner. reflexivity.
      * intros c [= <-]. rewrite direntry_get_app. cbn [direntry_get].
        destruct (FuseEntry_eq_dec _ _); [reflexivity|congruence].
    + split; [exact Hinner|discriminate].
Qed.

Lemma page_sets_silent E self first pages : yielded (page_sets E self first pages) = [].
Proof.
  revert first. induction pages as [|c pages IH]; intros first; [reflexivity|].
  cbn [page_sets yielded]. apply IH.
Qed.

Lemma by_page_fill_stores E self swhids :
  let filled := RevisionHistoryShardByPage.fill_direntry_cache E self swhids in
  yielded (fst filled) = []
  /\ forall children, snd filled = Ret children ->
                      direntry_get (fst filled) (EByPage self) = Some children.
Proof.
  cbv zeta. rewrite fill_direntry_cache_pages. cbn [fst snd]. split.
  - rewrite yielded_app, page_sets_silent. reflexivity.
  - intros c [= <-]. rewrite direntry_get_app. cbn [direntry_get].
    destruct (FuseEntry_eq_dec _ _); [reflexivity|congruence].
Qed.

Lemma collect_shape {A B C} (l : list A) (m : A -> M C) (f : A -> B) cs :
  snd (collect l (fun x => bind (m x) (fun _ => ret (f x)))) = Ret cs -> cs = map f l.
Proof.
  revert cs. induction l as [|x l IH]; intros cs; cbn [collect map].
  - cbn. intros H. now injection H.
  - set (rest := collect l _) in *.
    destruct (m x) as [t [c|e]]; [|cbn; discriminate].
    destruct rest as [t' [cs'|e]]; cbn; [|discriminate].
    intros H. injection H as <-. f_equal. now apply IH.
Qed.

Lemma fill_shape E fuse limit node l children :
  snd (RevisionHistoryShardByHash.fill_direntry_cache E fuse limit node l) = Ret children ->
  children = by_hash_children E fuse node l.
Proof.
  destruct limit as [|limit]; [discriminate|]. unfold by_hash_children.
  destruct (Z.eqb_spec (Z.of_nat (Str.count "/" (bh_prefix node))) (conf_sharding_depth fuse))
    as [Heq | Hne].
  - rewrite (fill_at_depth E fuse limit node l Heq). cbn. intros H. now injection H.
  - rewrite (fill_above_depth E fuse limit node l Hne).
    set (body := fun item : string * list SWHID => _).
    destruct (collect (RevisionHistoryShardByHash.group fuse node l) body)
      as [t [cs|e]] eqn:Hc; cbn; [|discriminate].
    intros H. injection H as <-.
    apply (collect_shape _
             (fun item => RevisionHistoryShardByHash.fill_direntry_cache E fuse limit
                            (by_hash_dir E node (fst item)) (snd item))
             (fun item => EByHash (by_hash_dir E node (fst item)))).
    fold body. now rewrite Hc.
Qed.

Lemma bind_ret_left {A B} (a : A) (f : A -> M B) : bind (ret a) f = f a.
Proof. unfold bind, ret. now destruct (f a). Qed.

Lemma stored_then_yielded (t : list event) (children : list FuseEntry) (self : FuseEntry)
      t1 e t2 :
  yielded t = [] ->
  direntry_get t self = Some children ->
  (t ++ map Yield children)%list = (t1 ++ Yield e :: t2)%list ->
  direntry_get t1 self = Some children.
Proof.
  intros Hs Hget H.
  pose proof (stored_before_yield (t, Ret children) self t1 e t2) as Hsb.
  cbn [fst snd] in Hsb. rewrite bind_ret, for_each_yield in Hsb. cbn [fst] in Hsb.
  rewrite Hsb; [|exact Hs| |exact H].
  - now rewrite yielded_app, Hs, yielded_map_Yield.
  - intros c Hc. injection Hc as <-. exact Hget.
Qed.

(** C9. Listing a by-hash or a by-page directory whose history is at hand
    first fills the cache, without yielding, then yields. For by-hash, when
    the filling returns, its children are those built from all the members of
    the directory, the cache holds them for the directory, and the listing
    is the cache writes followed by the yield of each of them: at every yield
    the cache holds the whole list; when the filling raises, nothing is
    yielded. For by-page the filling always returns: the children are the
    directories of all the pages of the history, the cache holds them for the
    directory and holds for each page the symlinks of its commits, and the
    yields come after. A listing whose history cannot be fetched does
    nothing. A by-hash root with a configuration that fits the digest, on
    well-formed identifiers, ends normally for every limit above the
    sharding depth. *)
Theorem children_stored_before_yield E fuse :
  (forall limit self,
     match get_history fuse (bh_history_swhid self) with
     | Err x => RevisionHistoryShardByHash.compute_entries E fuse limit self = ([], Raise x)
     | Ok history =>
         let members := by_hash_members history self in
         let filled :=
           RevisionHistoryShardByHash.fill_direntry_cache E fuse limit self members in
         yielded (fst filled) = []
         /\ match snd filled with
            | Ret children =>
                children = by_hash_children E fuse self members
                /\ direntry_get (fst filled) (EByHash self) = Some children
                /\ RevisionHistoryShardByHash.compute_entries E fuse limit self
                   = ((fst filled ++ map Yield children)%list, Ret tt)
                /\ (forall t1 e t2,
                      (fst filled ++ map Yield children)%list = (t1 ++ Yield e :: t2)%list ->
                      direntry_get t1 (EByHash self) = Some children)
            | Raise x =>
                RevisionHistoryShardByHash.compute_entries E fuse limit self
                = (fst filled, Raise x)
            end
     end)
  /\ (forall self,
        match get_history fuse (bp_history_swhid self) with
        | Err x => RevisionHistoryShardByPage.compute_entries E fuse self = ([], Raise x)
        | Ok history =>
            let pages := chunks (Z.to_nat RevisionHistoryShardByPage.PAGE_SIZE) history in
            let children :=
              map (fun i => EByPage (page_dir E self i)) (seq 0 (List.length pages)) in
            let filled := RevisionHistoryShardByPage.fill_direntry_cache E self history in
            yielded (fst filled) = []
            /\ snd filled = Ret children
            /\ direntry_get (fst filled) (EByPage self) = Some children
            /\ (forall i page,
                  nth_error pages i = Some page ->
                  direntry_get (fst filled) (EByPage (page_dir E self i))
                  = Some (map (page_leaf E self) page))
            /\ RevisionHistoryShardByPage.compute_entries E fuse self
               = ((fst filled ++ map Yield children)%list, Ret tt)
            /\ (forall t1 e t2,
                  (fst filled ++ map Yield children)%list = (t1 ++ Yield e :: t2)%list ->
                  direntry_get t1 (EByPage self) = Some children)
        end)
  /\ (forall limit self history,
        (0 <= conf_sharding_depth fuse)%Z ->
        (0 <= conf_sharding_length fuse)%Z ->
        (conf_sharding_depth fuse * conf_sharding_length fuse <= Z.of_nat DIGEST_LENGTH)%Z ->
        bh_prefix self = "" ->
        get_history fuse (bh_history_swhid self) = Ok history ->
        Forall (fun s => valid_swhid s = true) history ->
        Z.to_nat (conf_sharding_depth fuse) < limit ->
        snd (RevisionHistoryShardByHash.compute_entries E fuse limit self) = Ret tt).
Proof.
  split; [|split].
  - intros limit self.
    destruct (get_history fuse (bh_history_swhid self)) as [history|err] eqn:Hh.
    2: { unfold RevisionHistoryShardByHash.compute_entries. now rewrite Hh. }
    assert (Hce : RevisionHistoryShardByHash.compute_entries E fuse limit self
                  = bind (RevisionHistoryShardByHash.fill_direntry_cache E fuse limit self
                            (by_hash_members history self))
                         (fun children => for_each children yield)).
    { unfold RevisionHistoryShardByHash.compute_entries. rewrite Hh.
      cbn [await]. now rewrite bind_ret_left. }
    cbv zeta. rewrite Hce.
    destruct (by_hash_fill_stores E fuse limit self (by_hash_members history self))
      as [Hs Hget].
    pose proof (fill_shape E fuse limit self (by_hash_members history self)) as Hshape.
    destruct (RevisionHistoryShardByHash.fill_direntry_cache E fuse limit self
                (by_hash_members history self)) as [t [children|x]];
      cbn [fst snd] in *.
    + split; [exact Hs|]. split; [exact (Hshape _ eq_refl)|].
      split; [exact (Hget _ eq_refl)|]. split.
      * rewrite bind_ret, for_each_yield. reflexivity.
      * intros t1 e t2. apply stored_then_yielded; [exact Hs | exact (Hget _ eq_refl)].
    + split; [exact Hs | reflexivity].
  - intros self.
    destruct (get_history fuse (bp_history_swhid self)) as [history|err] eqn:Hh.
    2: { unfold RevisionHistoryShardByPage.compute_entries. now rewrite Hh. }
    assert (Hce : RevisionHistoryShardByPage.compute_entries E fuse self
                  = bind (RevisionHistoryShardByPage.fill_direntry_cache E self history)
                         (fun children => for_each children yield)).
    { unfold RevisionHistoryShardByPage.compute_entries. rewrite Hh.
      cbn [await]. now rewrite bind_ret_left. }
    cbv zeta. rewrite Hce.
    destruct (by_page_fill_stores E self history) as [Hs Hget].
    pose proof (fill_direntry_cache_pages E self history) as Hpages.
    set (pages := chunks (Z.to_nat RevisionHistoryShardByPage.PAGE_SIZE) history) in *.
    set (children := map (fun i => EByPage (page_dir E self i))
                         (seq 0 (List.length pages))) in *.
    assert (Hentries : forall i page,
              nth_error pages i = Some page ->
              direntry_get (fst (RevisionHistoryShardByPage.fill_direntry_cache E self history))
                           (EByPage (page_dir E self i))
              = Some (map (page_leaf E self) page)).
    { intros i page Hp. rewrite Hpages. cbn [fst].
      rewrite direntry_get_app. cbn [direntry_get].
      destruct (FuseEntry_eq_dec _ _) as [Heq'|].
      - exfalso. injection Heq' as Hd. apply (f_equal bp_depth) in Hd.
        cbn [page_dir bp_depth] in Hd. lia.
      - apply (direntry_get_page_sets E self pages 0 i page Hp). }
    assert (Hret : snd (RevisionHistoryShardByPage.fill_direntry_cache E self history)
                   = Ret children) by (now rewrite Hpages).
    destruct (RevisionHistoryShardByPage.fill_direntry_cache E self history) as [t r].
    cbn [fst snd] in *. subst r.
    split; [exact Hs|]. split; [reflexivity|]. split; [exact (Hget _ eq_refl)|].
    split; [exact Hentries|]. split.
    + rewrite bind_ret, for_each_yield. reflexivity.
    + intros t1 e t2. apply stored_then_yielded; [exact Hs | exact (Hget _ eq_refl)].
  - intros limit self history HD HL Hfit Hp Hh Hvalid Hlimit.
    destruct (fill_tree E fuse HD HL Hfit (Z.to_nat (conf_sharding_depth fuse)) 0 limit
                self history) as (t & children & Hfill & _).
    + reflexivity.
    + exact Hlimit.
    + now rewrite Hp.
    + intros s Hs. split; [|now rewrite Hp].
      rewrite Forall_forall in Hvalid. now apply Hvalid.
    + rewrite (by_hash_compute_entries_root E fuse limit self history Hp Hh).
      now rewrite Hfill, bind_ret, for_each_yield.
Qed.

Lemma children_stored_before_yield_witness :
  (let filled :=
     RevisionHistoryShardByHash.fill_direntry_cache Sample.E Sample.fuse 5 Sample.by_hash
       Sample.history in
   let children := [EByHash (by_hash_dir Sample.E Sample.by_hash "00")] in
   direntry_get (fst filled) (EByHash Sample.by_hash) = Some children
   /\ RevisionHistoryShardByHash.compute_entries Sample.E Sample.fuse 5 Sample.by_hash
      = ((fst filled ++ map Yield children)%list, Ret tt))
  /\ (let filled :=
        RevisionHistoryShardByPage.fill_direntry_cache Sample.E Sample.by_page
          Sample.history in
      let children := [EByPage (page_dir Sample.E Sample.by_page 0)] in
      direntry_get (fst filled) (EByPage Sample.by_page) = Some children
      /\ direntry_get (fst filled) (EByPage (page_dir Sample.E Sample.by_page 0))
         = Some (map (page_leaf Sample.E Sample.by_page) Sample.history)
      /\ RevisionHistoryShardByPage.compute_entries Sample.E Sample.fuse Sample.by_page
         = ((fst filled ++ map Yield children)%list, Ret tt)).
Proof.
  destruct (children_stored_before_yield Sample.E Sample.fuse) as (Hhash & Hpage & _).
  split.
  - specialize (Hhash 5 Sample.by_hash).
    change (get_history Sample.fuse (bh_history_swhid Sample.by_hash))
      with (Ok Sample.history) in Hhash.
    cbv beta iota zeta in Hhash.
    change (by_hash_members Sample.history Sample.by_hash) with Sample.history in Hhash.
    destruct Hhash as [_ Hhash].
    change (snd (RevisionHistoryShardByHash.fill_direntry_cache Sample.E Sample.fuse 5
                   Sample.by_hash Sample.history))
      with (Ret [EByHash (by_hash_dir Sample.E Sample.by_hash "00")]) in Hhash.
    cbv beta iota in Hhash. destruct Hhash as (_ & Hget & Hlisting & _).
    cbv zeta. split; assumption.
  - specialize (Hpage Sample.by_page).
    change (get_history Sample.fuse (bp_history_swhid Sample.by_page))
      with (Ok Sample.history) in Hpage.
    cbv beta iota zeta in Hpage.
    destruct Hpage as (_ & _ & Hget & Hentries & Hlisting & _).
    cbv zeta. split; [exact Hget|]. split; [|exact Hlisting].
    exact (Hentries 0 Sample.history eq_refl).
Defined.

(** ** Examples *)

Example path_str_joins_parts :
  Path.str ["../../"; "archive/swh:1:rev:ab"] = "../../archive/swh:1:rev:ab".
Proof. reflexivity. Qed.

Example path_str_drops_empty_parts : Path.str ["ab"; ""; "cd"; ""] = "ab/cd".
Proof. reflexivity. Qed.

Example slice_examples :
  Str.slice 2 5 "abcdefg" = "cde" /\ Str.slice 5 100 "abcdefg" = "fg"
  /\ Str.slice 0 (-1) "abcdefg" = "abcdef" /\ Str.slice 5 2 "abcdefg" = "".
Proof. repeat split; reflexivity. Qed.

Example format_d_examples :
  Str.format_d 3 7 = "007" /\ Str.format_d 3 1234 = "1234" /\ Str.format_d 4 (-5) = "-005".
Proof. repeat split; reflexivity. Qed.

Example quote_plus_examples :
  urllib_parse.quote_plus "refs/heads/a b+c" = "refs%2Fheads%2Fa+b%2Bc"
  /\ urllib_parse.quote_plus "v1.0-rc_2~1" = "v1.0-rc_2~1".
Proof. split; reflexivity. Qed.

Example status_file_content :
  RevisionHistoryShardByDate.StatusFile_get_content (mkStatusFile 6 2 3)
  = "Done: 2/3" ++ String (ascii_of_nat 10) "".
Proof. reflexivity. Qed.

Example sharded_name_two_levels :
  RevisionHistoryShardByHash.get_full_sharded_name
    (Sample.archive (fun _ => None) 2 19) Sample.rev1
  = "0000000000000000000/0000000000000000000/swh:1:rev:00000000000000000000000000000000000000c1".
Proof. reflexivity. Qed.

(** With depth 2 and prefix length 21 the second slice of the sharded name
    takes in a [/]: the count of [/] in the prefix steps over the depth and
    the recursion does not end. *)
Example by_hash_depth_never_reached :
  RevisionHistoryShardByHash.compute_entries Sample.E
    (Sample.archive (fun _ => None) 2 21) 50 Sample.by_hash
  = ([], Raise RecursionError).
Proof. vm_compute. reflexivity. Qed.

Example by_page_empty_history :
  RevisionHistoryShardByPage.fill_direntry_cache Sample.E Sample.by_page []
  = ([DirentrySet (EByPage Sample.by_page) []], Ret []).
Proof. reflexivity. Qed.

Example release_to_blob_has_no_root :
  Release.compute_entries Sample.E Sample.fuse 5 Sample.release3
  = (map Yield (release_fixed_entries Sample.E Sample.release3 Sample.blob1), Ret tt).
Proof. reflexivity. Qed.

(* ------------------------------------------------------------------ *)
(** * Further properties *)

(** ** Directories and files *)

Lemma for_each_app {A} (body : A -> M unit) (l1 l2 : list A) :
  for_each (l1 ++ l2) body = bind (for_each l1 body) (fun _ => for_each l2 body).
Proof.
  induction l1 as [|x l1 IH]; cbn [for_each app].
  - unfold ret. rewrite bind_ret. cbn. now destruct (for_each l2 body).
  - rewrite IH. now rewrite bind_assoc.
Qed.

Lemma compute_entry_name E fuse self entry e :
  Directory.compute_entry E fuse self entry = ([Yield e], Ret tt) ->
  entry_name_of e = entry_name entry.
Proof.
  unfold Directory.compute_entry.
  destruct (ObjectType_eqb (object_type (entry_target entry)) CONTENT).
  { intros H; injection H as <-; reflexivity. }
  destruct (ObjectType_eqb (object_type (entry_target entry)) DIRECTORY).
  { intros H; injection H as <-; reflexivity. }
  destruct (_ =? _)%Z.
  { destruct (get_blob fuse (entry_target entry)); cbn; intros H; [|discriminate].
    injection H as <-; reflexivity. }
  destruct (ObjectType_eqb (object_type (entry_target entry)) REVISION).
  { destruct (get_metadata_revision fuse (entry_target entry)); cbn; intros H; [|discriminate].
    injection H as <-; reflexivity. }
  cbn; discriminate.
Qed.

Lemma for_each_entries_names E fuse self metadata :
  exists n,
    n <= List.length metadata
    /\ fst (for_each metadata (Directory.compute_entry E fuse self))
       = map Yield (yielded (fst (for_each metadata (Directory.compute_entry E fuse self))))
    /\ map entry_name_of (yielded (fst (for_each metadata (Directory.compute_entry E fuse self))))
       = map entry_name (firstn n metadata)
    /\ (snd (for_each metadata (Directory.compute_entry E fuse self)) = Ret tt ->
        n = List.length metadata).
Proof.
  induction metadata as [|entry metadata IH].
  - exists 0. cbn. repeat split; auto.
  - destruct IH as (n & Hn & Hev & Hnames & Hret).
    cbn [for_each].
    destruct (compute_entry_cases E fuse self entry) as [(e & He) | (err & He)].
    + rewrite He. rewrite bind_ret. cbn [fst snd].
      exists (S n). cbn [List.length firstn map app yielded].
      repeat split.
      * lia.
      * f_equal. exact Hev.
      * f_equal; [exact (compute_entry_name _ _ _ _ _ He) | exact Hnames].
      * intros H. f_equal. exact (Hret H).
    + rewrite He. rewrite bind_raise. exists 0. cbn. repeat split; try lia; auto.
      discriminate.
Qed.

(** X1. A directory lists its children under the names of the archived
    entries, in the order of the archive: the names yielded are those of the
    first [n] entries, of all the entries when the listing ends normally, and
    the listing writes nothing to the directory-entry cache. *)
Theorem directory_lists_names_in_order E fuse self metadata :
  get_metadata_directory fuse (dir_swhid self) = Ok metadata ->
  let listing := Directory.compute_entries E fuse self in
  (exists n, n <= List.length metadata
             /\ map entry_name_of (yielded (fst listing)) = map entry_name (firstn n metadata))
  /\ (snd listing = Ret tt ->
      map entry_name_of (yielded (fst listing)) = map entry_name metadata)
  /\ fst listing = map Yield (yielded (fst listing)).
Proof.
  intros Hm listing. subst listing.
  rewrite (compute_entries_metadata _ _ _ _ Hm).
  destruct (for_each_entries_names E fuse self metadata) as (n & Hn & Hev & Hnames & Hret).
  repeat split.
  - exists n. split; assumption.
  - intros H. rewrite Hnames, (Hret H). now rewrite firstn_all.
  - exact Hev.
Qed.

Lemma directory_lists_names_in_order_witness :
  get_metadata_directory Sample.fuse (dir_swhid Sample.dir3)
  = Ok [Sample.readme; Sample.weird; Sample.src]
  /\ exists n, n <= 3
       /\ map entry_name_of
            (yielded (fst (Directory.compute_entries Sample.E Sample.fuse Sample.dir3)))
          = map entry_name (firstn n [Sample.readme; Sample.weird; Sample.src]).
Proof.
  split; [reflexivity|].
  exact (proj1 (directory_lists_names_in_order Sample.E Sample.fuse Sample.dir3
                  [Sample.readme; Sample.weird; Sample.src] eq_refl)).
Defined.

(** X2. A directory whose entries all point to blobs or to trees lists one
    child per entry, a file for a blob and a read-only directory for a tree,
    and ends normally: whatever the archive holds for the blobs and the
    commits, since none is fetched. An empty directory lists nothing. *)
Theorem plain_tree_listing_needs_no_fetch E fuse self metadata :
  get_metadata_directory fuse (dir_swhid self) = Ok metadata ->
  Forall (fun entry => object_type (entry_target entry) = CONTENT
                       \/ object_type (entry_target entry) = DIRECTORY) metadata ->
  Directory.compute_entries E fuse self
  = (map Yield (map (directory_child E self) metadata), Ret tt).
Proof.
  intros Hm Hall. rewrite (compute_entries_metadata _ _ _ _ Hm).
  clear Hm. induction Hall as [|entry metadata Hkind _ IH]; [reflexivity|].
  cbn [for_each map]. rewrite IH.
  assert (Hentry : Directory.compute_entry E fuse self entry
                   = ([Yield (directory_child E self entry)], Ret tt)).
  { unfold directory_child. destruct Hkind as [Hc | Hd].
    - rewrite (compute_entry_blob _ _ _ _ Hc), Hc. reflexivity.
    - rewrite (compute_entry_tree _ _ _ _ Hd), Hd. reflexivity. }
  rewrite Hentry, bind_ret. reflexivity.
Qed.

Lemma plain_tree_listing_needs_no_fetch_witness :
  Directory.compute_entries Sample.E Sample.fuse Sample.dir1
  = (map Yield (map (directory_child Sample.E Sample.dir1)
                    [Sample.readme; Sample.link; Sample.src]), Ret tt).
Proof.
  apply (plain_tree_listing_needs_no_fetch Sample.E Sample.fuse Sample.dir1
           [Sample.readme; Sample.link; Sample.src] eq_refl).
  repeat (apply Forall_cons; [(left; reflexivity) || (right; reflexivity)|]).
  apply Forall_nil.
Defined.

Lemma compute_entry_submodule E fuse self entry :
  object_type (entry_target entry) = REVISION ->
  entry_perms entry <> DentryPerms.symlink ->
  Directory.compute_entry E fuse self entry
  = match get_metadata_revision fuse (entry_target entry) with
    | Ok _ =>
        ([Yield (submodule_link E self entry)], Ret tt)
    | Err x => ([], Raise x)
    end.
Proof.
  intros Hr Hp. unfold Directory.compute_entry. rewrite Hr. cbn [ObjectType_eqb].
  destruct (Z.eqb_spec (entry_perms entry) DentryPerms.symlink) as [Heq|_]; [contradiction|].
  destruct (get_metadata_revision fuse (entry_target entry)); reflexivity.
Qed.

(** X3. An entry that points to a commit and is not a symlink is a
    submodule. When the metadata of the commit are found, the entry is listed
    after its predecessors as a symlink to the commit in [archive/], and the
    listing goes on; when fetching them fails, the listing stops there with
    that error. *)
Theorem submodule_listed_as_archive_symlink E fuse self pre entry post t :
  get_metadata_directory fuse (dir_swhid self) = Ok (pre ++ entry :: post)%list ->
  object_type (entry_target entry) = REVISION ->
  entry_perms entry <> DentryPerms.symlink ->
  for_each pre (Directory.compute_entry E fuse self) = (t, Ret tt) ->
  let listing := Directory.compute_entries E fuse self in
  let rest := for_each post (Directory.compute_entry E fuse self) in
  match get_metadata_revision fuse (entry_target entry) with
  | Ok _ =>
      fst listing
      = (t ++ Yield (submodule_link E self entry) :: fst rest)%list
      /\ snd listing = snd rest
  | Err x => listing = (t, Raise x)
  end.
Proof.
  intros Hm Hr Hp Hpre listing rest. subst listing rest.
  rewrite (compute_entries_metadata _ _ _ _ Hm).
  rewrite for_each_app, Hpre, bind_ret. cbn [for_each].
  rewrite (compute_entry_submodule E fuse self entry Hr Hp).
  destruct (get_metadata_revision fuse (entry_target entry)) as [m|x].
  - rewrite bind_ret. cbn [fst snd app]. split; reflexivity.
  - rewrite bind_raise. cbn [fst snd]. now rewrite app_nil_r.
Qed.

Lemma submodule_listed_as_archive_symlink_witness :
  Directory.compute_entries Sample.E Sample2.fuse Sample2.dir4
  = ([Yield (EContent (mkContent "README" 33188 3 Sample.blob1 (Some Sample.readme)));
      Yield (ESymlink (mkSymlink "vendor" 3 ("../archive/swh:1:rev:" ++ Sample.digest "c1")));
      Yield (EDirectory (mkDirectory "src" 16749 3 Sample.tree2))], Ret tt).
Proof.
  pose proof (submodule_listed_as_archive_symlink Sample.E Sample2.fuse Sample2.dir4
                [Sample.readme] Sample2.submodule [Sample.src] _
                eq_refl eq_refl ltac:(discriminate) eq_refl) as H.
  cbv zeta in H. 
  change (get_metadata_revision Sample2.fuse (entry_target Sample2.submodule))
    with (Ok (A:=RevisionMeta) (mkRevisionMeta Sample.tree1 [] (mkDate 2020 12 4))) in H.
  cbv beta iota in H. destruct H as [H1 H2].
  rewrite (surjective_pairing (Directory.compute_entries _ _ _)), H1, H2. reflexivity.
Defined.

(** X4. A file without prefetched metadata: when the blob is found, [size]
    is the length of what [get_content] returns, and both leave the same
    record of that length, from which every later [size] answers without
    fetching, whatever the archive then holds; when the blob is missing, both
    raise the error of the fetch and record nothing. *)
Theorem content_size_matches_content fuse self :
  match Content.get_content fuse self None with
  | (Ok data, prefetch) =>
      Content.size fuse self None = (Ok (Z.of_nat (String.length data)), prefetch)
      /\ forall fuse',
           Content.size fuse' self prefetch = (Ok (Z.of_nat (String.length data)), prefetch)
           /\ snd (Content.get_content fuse' self prefetch) = prefetch
  | (Err x, prefetch) =>
      prefetch = None /\ Content.size fuse self None = (Err x, None)
  end.
Proof.
  unfold Content.size, Content.get_content.
  destruct (get_blob fuse (cnt_swhid self)) as [data|x].
  - split; [reflexivity|]. intros fuse'. split; [reflexivity|].
    now destruct (get_blob fuse' (cnt_swhid self)).
  - split; reflexivity.
Qed.

(** X5. The size of a file listed by a directory is the length recorded in
    the archived entry: before and after its content is read, and whatever
    the blob store holds, since the prefetched entry is never replaced. *)
Theorem listed_file_size_is_recorded_length E fuse self entry :
  object_type (entry_target entry) = CONTENT ->
  exists child,
    Directory.compute_entry E fuse self entry = ([Yield (EContent child)], Ret tt)
    /\ forall fuse' prefetch,
         prefetch = Content.initial_prefetch child
         \/ prefetch = snd (Content.get_content fuse' child (Content.initial_prefetch child)) ->
         Content.size fuse' child prefetch = (Ok (entry_length entry), prefetch).
Proof.
  intros Hc. eexists. split; [exact (compute_entry_blob E fuse self entry Hc)|].
  intros fuse' prefetch [-> | ->]; [reflexivity|].
  unfold Content.get_content; cbn.
  now destruct (get_blob fuse' (entry_target entry)).
Qed.

Lemma listed_file_size_is_recorded_length_witness :
  exists child,
    Directory.compute_entry Sample.E Sample.fuse Sample.dir1 Sample.readme
    = ([Yield (EContent child)], Ret tt)
    /\ Content.size Sample.fuse child (Content.initial_prefetch child)
       = (Ok 12%Z, Content.initial_prefetch child).
Proof.
  destruct (listed_file_size_is_recorded_length Sample.E Sample.fuse Sample.dir1
              Sample.readme eq_refl) as (child & Hchild & Hsize).
  exists child. split; [exact Hchild|].
  exact (Hsize Sample.fuse _ (or_introl eq_refl)).
Defined.

(** ** Commits and their parents *)

Lemma decimal_value_decimal n : decimal_value (Str.decimal n) = Some n.
Proof.
  unfold decimal_value, Str.decimal. rewrite NilEmpty.usu. cbn [option_map].
  now rewrite Unsigned.of_to.
Qed.

Lemma decimal_injective a b : Str.decimal a = Str.decimal b -> a = b.
Proof.
  intros H. pose proof (decimal_value_decimal a) as Ha.
  rewrite H, decimal_value_decimal in Ha. congruence.
Qed.

Lemma enumerate_nth {A} (l : list A) i k :
  nth_error (enumerate i l) k = option_map (fun x => (i + k, x)) (nth_error l k).
Proof.
  revert i k. induction l as [|x l IH]; intros i [|k]; cbn; try reflexivity.
  - now rewrite Nat.add_0_r.
  - rewrite IH. destruct (nth_error l k); cbn; [|reflexivity]. do 2 f_equal. lia.
Qed.

Lemma enumerate_fst {A} (l : list A) i : map fst (enumerate i l) = seq i (List.length l).
Proof.
  revert i. induction l as [|x l IH]; intros i; cbn; [reflexivity|]. now rewrite IH.
Qed.

Lemma parents_listing E self :
  RevisionParents.compute_entries E self
  = (map Yield (map (fun item => parent_link E self (fst item) (snd item))
                    (enumerate 0 (rp_parents self))), Ret tt).
Proof.
  unfold RevisionParents.compute_entries.
  exact (for_each_yield_map (fun item => parent_link E self (fst item) (snd item)) _).
Qed.

(** X6. A [parents/] directory always lists normally, one symlink per
    parent: the parent of index [k], counted from zero, is named by the
    decimal writing of [k + 1] and points to that commit in [archive/]; the
    names are pairwise distinct, also when a commit is listed twice among the
    parents. *)
Theorem parents_numbered_from_one E self :
  let listing := RevisionParents.compute_entries E self in
  snd listing = Ret tt
  /\ List.length (yielded (fst listing)) = List.length (rp_parents self)
  /\ (forall k parent,
        nth_error (rp_parents self) k = Some parent ->
        nth_error (yielded (fst listing)) k = Some (parent_link E self k parent))
  /\ NoDup (map entry_name_of (yielded (fst listing))).
Proof.
  intros listing. subst listing. rewrite parents_listing. cbn [fst snd].
  rewrite yielded_map_Yield. split; [reflexivity|]. split; [|split].
  - rewrite length_map.
    rewrite <- (length_map fst), enumerate_fst. apply length_seq.
  - intros k parent Hk. rewrite nth_error_map, enumerate_nth, Hk. reflexivity.
  - rewrite map_map. cbn [parent_link entry_name_of lnk_name].
    rewrite <- (map_map fst (fun i => Str.decimal (i + 1))), enumerate_fst.
    apply NoDup_map_injective; [|apply seq_NoDup].
    intros x y H. apply decimal_injective in H. lia.
Qed.

(** X7. A commit whose metadata are found lists [root], [meta.json],
    [parents], then [parent] exactly when it has at least one parent, then
    [history]: in this order, under distinct names, ending normally. *)
Theorem revision_listing_names E fuse self metadata :
  get_metadata_revision fuse (rv_swhid self) = Ok metadata ->
  let listing := Revision.compute_entries E fuse self in
  let names := map revision_child_name (fst listing) in
  snd listing = Ret tt
  /\ names = (["root"; "meta.json"; "parents"]
              ++ (match rev_parents metadata with [] => [] | _ :: _ => ["parent"] end)
              ++ ["history"])%list
  /\ NoDup names
  /\ (In "parent" names <-> rev_parents metadata <> []).
Proof.
  intros Hm listing names. subst names listing.
  unfold Revision.compute_entries. rewrite Hm.
  destruct (rev_parents metadata) as [|p rest]; cbn.
  - split; [reflexivity|]. split; [reflexivity|]. split.
    + repeat constructor; cbn; intuition discriminate.
    + split; [intuition discriminate | congruence].
  - split; [reflexivity|]. split; [reflexivity|]. split.
    + repeat constructor; cbn; intuition discriminate.
    + split; [discriminate | auto 6].
Qed.

Lemma revision_listing_names_witness :
  map revision_child_name (fst (Revision.compute_entries Sample.E Sample2.fuse Sample2.revision0))
  = ["root"; "meta.json"; "parents"; "parent"; "history"].
Proof.
  exact (proj1 (proj2 (revision_listing_names Sample.E Sample2.fuse Sample2.revision0
                         _ eq_refl))).
Defined.

(** X8. The [parent] symlink of a commit never dangles: its target is the
    path, from the commit, of the first entry its [parents/] directory
    lists, and that entry points to the first parent. *)
Theorem parent_link_resolves_to_first_parent E fuse self metadata parent rest :
  get_metadata_revision fuse (rv_swhid self) = Ok metadata ->
  rev_parents metadata = parent :: rest ->
  let children := fst (Revision.compute_entries E fuse self) in
  exists parents link,
    In (RParents parents) children
    /\ In (RSymlink link) children
    /\ lnk_name link = "parent"
    /\ nth_error (yielded (fst (RevisionParents.compute_entries E parents))) 0
       = Some (parent_link E parents 0 parent)
    /\ lnk_target link
       = rp_name parents ++ "/" ++ entry_name_of (parent_link E parents 0 parent) ++ "/"
    /\ lnk_depth link = rp_depth parents.
Proof.
  intros Hm Hp children. subst children.
  unfold Revision.compute_entries. rewrite Hm, Hp. cbn [List.length Nat.leb fst app].
  eexists. eexists. split; [right; right; left; reflexivity|].
  split; [right; right; right; left; reflexivity|].
  split; [reflexivity|]. split; [|split; reflexivity].
  rewrite parents_listing. cbn [fst]. rewrite yielded_map_Yield. reflexivity.
Qed.

Lemma parent_link_resolves_to_first_parent_witness :
  exists parents link,
    In (RParents parents)
       (fst (Revision.compute_entries Sample.E Sample2.fuse Sample2.revision0))
    /\ In (RSymlink link)
          (fst (Revision.compute_entries Sample.E Sample2.fuse Sample2.revision0))
    /\ lnk_name link = "parent"
    /\ nth_error (yielded (fst (RevisionParents.compute_entries Sample.E parents))) 0
       = Some (parent_link Sample.E parents 0 Sample.rev1)
    /\ lnk_target link
       = rp_name parents ++ "/"
         ++ entry_name_of (parent_link Sample.E parents 0 Sample.rev1) ++ "/"
    /\ lnk_depth link = rp_depth parents.
Proof.
  exact (parent_link_resolves_to_first_parent Sample.E Sample2.fuse Sample2.revision0
           _ Sample.rev1 [Sample.rev2] eq_refl eq_refl).
Defined.

(** ** The history of a commit *)

Lemma history_listing_unfold E fuse limit self history :
  get_history fuse (rh_swhid self) = Ok history ->
  let filled_hash :=
    RevisionHistoryShardByHash.fill_direntry_cache E fuse limit
      (RevisionHistory.by_hash E self) history in
  let filled_page :=
    RevisionHistoryShardByPage.fill_direntry_cache E (RevisionHistory.by_page E self) history in
  RevisionHistory.compute_entries E fuse limit self
  = match snd filled_hash with
    | Ret _ =>
        ((Yield (EByDate (RevisionHistory.by_date E self)) :: fst filled_hash
          ++ Yield (EByHash (RevisionHistory.by_hash E self)) :: fst filled_page
          ++ [Yield (EByPage (RevisionHistory.by_page E self))])%list, Ret tt)
    | Raise x =>
        ((Yield (EByDate (RevisionHistory.by_date E self)) :: fst filled_hash)%list, Raise x)
    end.
Proof.
  intros Hh filled_hash filled_page. subst filled_hash filled_page.
  unfold RevisionHistory.compute_entries. rewrite Hh.
  cbn [await]. unfold ret at 1. rewrite bind_ret. cbn [app].
  unfold yield at 1. rewrite bind_ret. 
  destruct (RevisionHistoryShardByHash.fill_direntry_cache E fuse limit
              (RevisionHistory.by_hash E self) history) as [th [ch|x]].
  - rewrite bind_ret. unfold yield at 1. rewrite bind_ret.
    rewrite (fill_direntry_cache_pages E (RevisionHistory.by_page E self) history).
    rewrite bind_ret. cbn [fst snd app yield]. reflexivity.
  - rewrite bind_raise. reflexivity.
Qed.

(** X9. For a sharding configuration that fits the digest and a history of
    well-formed identifiers, a [history/] directory lists [by-date],
    [by-hash] and [by-page], in this order, and ends normally. The cache
    writes come between the yields: when [by-hash] is yielded the cache holds
    for it the children its own listing yields, and likewise for [by-page]
    when it is yielded. *)
Theorem history_lists_three_filled_views E fuse limit self history :
  get_history fuse (rh_swhid self) = Ok history ->
  (0 <= conf_sharding_depth fuse)%Z ->
  (0 <= conf_sharding_length fuse)%Z ->
  (conf_sharding_depth fuse * conf_sharding_length fuse <= Z.of_nat DIGEST_LENGTH)%Z ->
  Forall (fun s => valid_swhid s = true) history ->
  Z.to_nat (conf_sharding_depth fuse) < limit ->
  let by_date := RevisionHistory.by_date E self in
  let by_hash := RevisionHistory.by_hash E self in
  let by_page := RevisionHistory.by_page E self in
  exists hash_log page_log,
    RevisionHistory.compute_entries E fuse limit self
    = ((Yield (EByDate by_date) :: hash_log ++ Yield (EByHash by_hash) :: page_log
        ++ [Yield (EByPage by_page)])%list, Ret tt)
    /\ yielded hash_log = [] /\ yielded page_log = []
    /\ direntry_get (Yield (EByDate by_date) :: hash_log) (EByHash by_hash)
       = Some (yielded (fst (RevisionHistoryShardByHash.compute_entries E fuse limit by_hash)))
    /\ direntry_get (Yield (EByDate by_date) :: hash_log ++ Yield (EByHash by_hash) :: page_log)
         (EByPage by_page)
       = Some (yielded (fst (RevisionHistoryShardByPage.compute_entries E fuse by_page))).
Proof.
  intros Hh HD HL Hfit Hvalid Hlimit by_date by_hash by_page.
  destruct (fill_tree E fuse HD HL Hfit (Z.to_nat (conf_sharding_depth fuse)) 0 limit
              by_hash history)
    as [t [children [Hfill [Hget [Hkeys _]]]]].
  - reflexivity.
  - exact Hlimit.
  - reflexivity.
  - intros s Hs. split; [|reflexivity].
    rewrite Forall_forall in Hvalid. now apply Hvalid.
  - pose proof (by_page_fill_stores E by_page history) as [Hpy Hpget].
    pose proof (fill_direntry_cache_pages E by_page history) as Hpages.
    exists t, (fst (RevisionHistoryShardByPage.fill_direntry_cache E by_page history)).
    split; [|split; [|split; [|split]]].
    + rewrite (history_listing_unfold E fuse limit self history Hh).
      fold by_hash by_page. rewrite Hfill. reflexivity.
    + exact (keys_under_yielded _ _ Hkeys).
    + exact Hpy.
    + change (Yield (EByDate by_date) :: t)%list with ([Yield (EByDate by_date)] ++ t)%list.
      rewrite direntry_get_app, Hget.
      rewrite (by_hash_compute_entries_root E fuse limit by_hash history eq_refl Hh).
      rewrite Hfill, bind_ret, for_each_yield. cbn [fst].
      rewrite yielded_app, (keys_under_yielded _ _ Hkeys), yielded_map_Yield. reflexivity.
    + assert (Hsplit : forall p,
                (Yield (EByDate by_date) :: t ++ Yield (EByHash by_hash) :: p)%list
                = ((Yield (EByDate by_date) :: t ++ [Yield (EByHash by_hash)]) ++ p)%list).
      { intros p. cbn [app]. now rewrite <- app_assoc. }
      apply (f_equal snd) in Hpages. cbn [snd] in Hpages.
      specialize (Hpget _ Hpages).
      rewrite Hsplit, direntry_get_app, Hpget.
      unfold RevisionHistoryShardByPage.compute_entries.
      change (bp_history_swhid by_page) with (rh_swhid self). rewrite Hh.
      cbn [await]. unfold ret at 1. rewrite bind_ret. cbn [app].
      destruct (RevisionHistoryShardByPage.fill_direntry_cache E by_page history)
        as [tp op].
      cbn [fst snd] in *. subst op.
      rewrite bind_ret, for_each_yield. cbn [fst].
      now rewrite yielded_app, yielded_map_Yield, Hpy.
Qed.

Lemma history_lists_three_filled_views_witness :
  map entry_name_of
    (yielded (fst (RevisionHistory.compute_entries Sample.E Sample2.fuse 5 Sample2.history0)))
  = ["by-date"; "by-hash"; "by-page"].
Proof.
  destruct (history_lists_three_filled_views Sample.E Sample2.fuse 5 Sample2.history0
              Sample.history eq_refl ltac:(discriminate) ltac:(discriminate)
              ltac:(discriminate) ltac:(repeat constructor) ltac:(cbn; lia))
    as (hash_log & page_log & Hlisting & Hh & Hp & _).
  rewrite Hlisting. cbn [fst yielded].
  rewrite yielded_app, Hh. cbn [app yielded]. rewrite yielded_app, Hp. reflexivity.
Defined.

(** X10. When filling the by-hash view fails, the listing of [history/]
    stops with that error after [by-date]: [by-hash] and [by-page] are not
    listed. *)
Theorem history_stops_when_by_hash_fails E fuse limit self history err :
  get_history fuse (rh_swhid self) = Ok history ->
  snd (RevisionHistoryShardByHash.fill_direntry_cache E fuse limit
         (RevisionHistory.by_hash E self) history) = Raise err ->
  let listing := RevisionHistory.compute_entries E fuse limit self in
  snd listing = Raise err
  /\ yielded (fst listing) = [EByDate (RevisionHistory.by_date E self)]
  /\ forall e, In (Yield e) (fst listing) -> e <> EByPage (RevisionHistory.by_page E self).
Proof.
  intros Hh Hraise listing. subst listing.
  rewrite (history_listing_unfold E fuse limit self history Hh). rewrite Hraise.
  pose proof (by_hash_fill_stores E fuse limit (RevisionHistory.by_hash E self) history)
    as [Hsilent _].
  cbn [fst snd yielded]. rewrite Hsilent.
  split; [reflexivity|]. split; [reflexivity|].
  intros e [He | He]; [injection He as <-; discriminate|].
  exfalso. clear Hraise. revert He Hsilent.
  generalize (fst (RevisionHistoryShardByHash.fill_direntry_cache E fuse limit
                     (RevisionHistory.by_hash E self) history)).
  intros l. induction l as [|[e'|n c] l IH]; cbn; [tauto | discriminate |].
  intros [H|H]; [discriminate | auto].
Qed.

Lemma history_stops_when_by_hash_fails_witness :
  let listing :=
    RevisionHistory.compute_entries Sample.E (Sample.archive (fun _ => None) (-1) 2) 5
      Sample2.history0 in
  snd listing = Raise RecursionError
  /\ yielded (fst listing)
     = [EByDate (RevisionHistory.by_date Sample.E Sample2.history0)].
Proof.
  pose proof (history_stops_when_by_hash_fails Sample.E
                (Sample.archive (fun _ => None) (-1) 2) 5 Sample2.history0 Sample.history
                RecursionError eq_refl eq_refl) as H.
  split; [exact (proj1 H) | exact (proj1 (proj2 H))].
Defined.

(** ** The by-hash view, beyond well-formed configurations *)

Lemma group_by_nonempty key l :
  l <> [] -> exists g m rest, group_by key l = (g, m) :: rest /\ m <> [].
Proof.
  intros Hl. destruct (group_by_spec key l) as (_ & Hmem & Hperm).
  destruct (group_by key l) as [|[g m] rest] eqn:HG.
  - cbn in Hperm. apply Permutation_nil in Hperm. contradiction.
  - exists g, m, rest. split; [reflexivity|].
    exact (proj1 (Hmem g m (or_introl eq_refl))).
Qed.

Lemma fill_negative_depth E fuse :
  (conf_sharding_depth fuse < 0)%Z ->
  forall limit self swhids,
    swhids <> [] ->
    RevisionHistoryShardByHash.fill_direntry_cache E fuse limit self swhids
    = ([], Raise RecursionError).
Proof.
  intros HD. induction limit as [|limit IH]; intros self swhids Hne; [reflexivity|].
  cbn [RevisionHistoryShardByHash.fill_direntry_cache].
  destruct (Z.eqb_spec (Z.of_nat (Str.count "/" (bh_prefix self))) (conf_sharding_depth fuse))
    as [Heq|_]; [lia|].
  set (key := fun swhid =>
                Str.slice (Z.of_nat (String.length (bh_prefix self)))
                  (Z.of_nat (String.length (bh_prefix self)) + conf_sharding_length fuse)
                  (RevisionHistoryShardByHash.get_full_sharded_name fuse swhid)).
  change (RevisionHistoryShardByHash.group fuse self swhids) with (group_by key swhids).
  destruct (group_by_nonempty key swhids Hne) as (g & m & rest & -> & Hm).
  cbn [collect fst snd]. rewrite (IH _ m Hm). reflexivity.
Qed.

(** X11. With a negative sharding depth, listing a by-hash directory that
    has at least one member always ends with a recursion error, whatever the
    recursion limit, and lists nothing: no depth is ever the sharding depth,
    so every level makes a deeper one. *)
Theorem negative_sharding_depth_exhausts_recursion E fuse limit self history :
  (conf_sharding_depth fuse < 0)%Z ->
  get_history fuse (bh_history_swhid self) = Ok history ->
  (exists s, In s history
             /\ Str.startswith (object_id s) (Str.remove "/" (bh_prefix self)) = true) ->
  RevisionHistoryShardByHash.compute_entries E fuse limit self = ([], Raise RecursionError).
Proof.
  intros HD Hh (s & Hs & Hp).
  unfold RevisionHistoryShardByHash.compute_entries. rewrite Hh.
  cbn [await]. unfold ret at 1. rewrite bind_ret. cbn [app].
  rewrite (fill_negative_depth E fuse HD).
  - reflexivity.
  - intros Hnil.
    assert (Hin : In s (filter (fun s => Str.startswith (object_id s)
                                           (Str.remove "/" (bh_prefix self))) history)).
    { apply filter_In. split; assumption. }
    rewrite Hnil in Hin. exact Hin.
Qed.

Lemma negative_sharding_depth_exhausts_recursion_witness :
  RevisionHistoryShardByHash.compute_entries Sample.E
    (Sample.archive (fun _ => None) (-1) 2) 1000 Sample.by_hash
  = ([], Raise RecursionError).
Proof.
  apply (negative_sharding_depth_exhausts_recursion Sample.E
           (Sample.archive (fun _ => None) (-1) 2) 1000 Sample.by_hash Sample.history).
  - reflexivity.
  - reflexivity.
  - exists Sample.rev1. split; [left; reflexivity | reflexivity].
Defined.

(** X12. A by-hash directory under whose prefix no member of the history
    falls, in particular any by-hash directory of an empty history, lists
    nothing, ends normally and stores the empty list for itself, for every
    sharding configuration. *)
Theorem by_hash_directory_without_members_is_empty E fuse limit self history :
  get_history fuse (bh_history_swhid self) = Ok history ->
  (forall s, In s history ->
     Str.startswith (object_id s) (Str.remove "/" (bh_prefix self)) = false) ->
  RevisionHistoryShardByHash.compute_entries E fuse (S limit) self
  = ([DirentrySet (EByHash self) []], Ret tt).
Proof.
  intros Hh Hnone.
  unfold RevisionHistoryShardByHash.compute_entries. rewrite Hh.
  cbn [await]. unfold ret at 1. rewrite bind_ret. cbn [app].
  replace (filter _ history) with (@nil SWHID).
  - cbn [RevisionHistoryShardByHash.fill_direntry_cache].
    destruct (Z.of_nat _ =? _)%Z; reflexivity.
  - symmetry. clear Hh. induction history as [|s history IH]; [reflexivity|].
    cbn [filter]. rewrite (Hnone s (or_introl eq_refl)).
    apply IH. intros s' Hs'. apply Hnone. now right.
Qed.

Lemma by_hash_directory_without_members_is_empty_witness :
  RevisionHistoryShardByHash.compute_entries Sample.E Sample.fuse 1
    (mkByHash "ff" 16749 5 Sample.rev1 "ff/")
  = ([DirentrySet (EByHash (mkByHash "ff" 16749 5 Sample.rev1 "ff/")) []], Ret tt).
Proof.
  apply (by_hash_directory_without_members_is_empty Sample.E Sample.fuse 0
           (mkByHash "ff" 16749 5 Sample.rev1 "ff/") Sample.history eq_refl).
  intros s [<- | [<- | [<- | []]]]; reflexivity.
Defined.

Lemma splitroot_hex p : all_hex p = true -> Path.splitroot p = ("", p).
Proof.
  destruct p as [|c p]; [reflexivity|]. cbn [all_hex]. intros H.
  apply andb_true_iff in H. destruct H as [Hc _].
  apply hex_digit_not_slash in Hc. unfold Path.splitroot. revert Hc. each_byte c.
Qed.

Lemma components_hex p :
  all_hex p = true -> Path.components p = if String.eqb p "" then [] else [p].
Proof.
  intros H. unfold Path.components. rewrite (split_last p (all_hex_slash_free p H)).
  cbn [filter]. rewrite (all_hex_not_dot p H).
  now destruct (String.eqb p "").
Qed.

Lemma parse_parts_hex parts root acc :
  Forall (fun p => all_hex p = true) parts ->
  fold_left
    (fun (acc : string * list string) part =>
       let (root, rel) := Path.splitroot part in
       if String.eqb root "" then (fst acc, (snd acc ++ Path.components rel)%list)
       else (root, Path.components rel))
    parts (root, acc)
  = (root, (acc ++ filter (fun p => negb (String.eqb p "")) parts)%list).
Proof.
  intros H. revert acc. induction H as [|p parts Hp _ IH]; intros acc.
  - cbn. now rewrite app_nil_r.
  - cbn [fold_left filter]. rewrite (splitroot_hex p Hp), (components_hex p Hp).
    cbn [String.eqb fst snd]. rewrite IH.
    destruct (String.eqb p ""); cbn [negb]; [now rewrite app_nil_r|].
    now rewrite <- app_assoc.
Qed.

Lemma split_fields dirs x :
  Forall slash_free dirs -> slash_free x ->
  Str.split "/" (concat_names (map (fun d => d ++ "/") dirs) ++ x) = (dirs ++ [x])%list.
Proof.
  intros Hd Hx. induction Hd as [|d dirs Hdf _ IH].
  - cbn. exact (split_last x Hx).
  - cbn [map concat_names fold_right app]. fold (concat_names (map (fun d => d ++ "/") dirs)).
    rewrite !append_assoc. rewrite (split_field d _ Hdf). now rewrite IH.
Qed.

(** X13. For every sharding configuration, the sharded name of an
    identifier with a hexadecimal digest is a sequence of non-empty
    hexadecimal directory names followed by the full identifier: the last
    field of the name is the identifier itself. *)
Theorem sharded_name_keeps_full_identifier fuse s :
  all_hex (object_id s) = true ->
  exists dirs,
    RevisionHistoryShardByHash.get_full_sharded_name fuse s
    = concat_names (map (fun d => d ++ "/") dirs) ++ SWHID_str s
    /\ Forall hex_field dirs
    /\ Str.split "/" (RevisionHistoryShardByHash.get_full_sharded_name fuse s)
       = (dirs ++ [SWHID_str s])%list.
Proof.
  intros Hhex.
  assert (Hid : slash_free (SWHID_str s)) by exact (proj1 (SWHID_str_plain s Hhex)).
  unfold RevisionHistoryShardByHash.get_full_sharded_name.
  destruct (conf_sharding_depth fuse <=? 0)%Z.
  { exists []. cbn. split; [reflexivity|]. split; [constructor|]. exact (split_last _ Hid). }
  set (parts := map _ (seq 0 _)).
  assert (Hparts : Forall (fun p => all_hex p = true) parts).
  { apply Forall_forall. intros p Hp. apply in_map_iff in Hp. destruct Hp as (i & <- & _).
    unfold Str.slice. now apply all_hex_substring. }
  exists (filter (fun p => negb (String.eqb p "")) parts).
  assert (Hdirs : Forall hex_field (filter (fun p => negb (String.eqb p "")) parts)).
  { apply Forall_forall. intros p Hp. apply filter_In in Hp. destruct Hp as [Hin Hne].
    rewrite Forall_forall in Hparts. split; [now apply Hparts|].
    intros ->. discriminate. }
  assert (Hname : Path.str (parts ++ [SWHID_str s])
                  = concat_names (map (fun d => d ++ "/")
                                      (filter (fun p => negb (String.eqb p "")) parts))
                    ++ SWHID_str s).
  { unfold Path.str, Path.parse_parts. rewrite fold_left_app.
    rewrite (parse_parts_hex parts "" [] Hparts). cbn [fold_left app].
    rewrite (splitroot_plain _ (SWHID_str_plain s Hhex)).
    rewrite (components_plain _ (SWHID_str_plain s Hhex)). cbn [String.eqb fst snd].
    rewrite <- join_fields.
    destruct (filter _ parts); reflexivity. }
  split; [exact Hname|]. split; [exact Hdirs|].
  rewrite Hname. apply split_fields; [|exact Hid].
  eapply Forall_impl; [|exact Hdirs]. intros p [Hp _]. now apply all_hex_slash_free.
Qed.

Lemma sharded_name_keeps_full_identifier_witness :
  exists dirs,
    RevisionHistoryShardByHash.get_full_sharded_name
      (Sample.archive (fun _ => None) 3 20) Sample.rev1
    = concat_names (map (fun d => d ++ "/") dirs) ++ SWHID_str Sample.rev1
    /\ Forall hex_field dirs
    /\ Str.split "/" (RevisionHistoryShardByHash.get_full_sharded_name
                        (Sample.archive (fun _ => None) 3 20) Sample.rev1)
       = (dirs ++ [SWHID_str Sample.rev1])%list.
Proof.
  exact (sharded_name_keeps_full_identifier (Sample.archive (fun _ => None) 3 20)
           Sample.rev1 eq_refl).
Defined.

(** ** The by-hash cache against the listings *)

Lemma subdirs_get_setdefault_append subdirs g x k :
  subdirs_get (setdefault_append subdirs g x) k
  = if String.eqb g k then (subdirs_get subdirs g ++ [x])%list else subdirs_get subdirs k.
Proof.
  unfold subdirs_get. induction subdirs as [|[k0 v0] subdirs IH]; cbn [setdefault_append find].
  - cbn [fst snd app]. now destruct (String.eqb g k).
  - destruct (String.eqb_spec k0 g) as [-> | Hne]; cbn [find fst snd].
    + rewrite String.eqb_refl. now destruct (String.eqb g k).
    + destruct (String.eqb_spec k0 k) as [-> | Hk].
      * destruct (String.eqb_spec g k) as [-> | _]; [contradiction|].
        destruct (String.eqb_spec k g) as [-> | _]; [contradiction | reflexivity].
      * rewrite IH. destruct (String.eqb_spec k0 g); [contradiction|]. reflexivity.
Qed.

Lemma subdirs_get_group_by key l k :
  subdirs_get (group_by key l) k = filter (fun s => String.eqb (key s) k) l.
Proof.
  induction l as [|x l IH] using rev_ind; [reflexivity|].
  unfold group_by in *. rewrite fold_left_app. cbn [fold_left].
  rewrite subdirs_get_setdefault_append, filter_app. cbn [filter].
  destruct (String.eqb_spec (key x) k) as [<- | Hne].
  - now rewrite IH.
  - now rewrite IH, app_nil_r.
Qed.

Lemma subdirs_get_in subdirs g m :
  NoDup (map fst subdirs) -> In (g, m) subdirs -> subdirs_get subdirs g = m.
Proof.
  unfold subdirs_get. induction subdirs as [|[k0 v0] subdirs IH]; [intros _ []|].
  cbn [map fst]. intros Hnd [H | H]; cbn [find fst].
  - injection H as -> ->. now rewrite String.eqb_refl.
  - destruct (String.eqb_spec k0 g) as [-> | _].
    + apply NoDup_cons_iff in Hnd. exfalso. apply (proj1 Hnd).
      apply in_map_iff. exists (g, m). auto.
    + apply IH; [|exact H]. now apply NoDup_cons_iff in Hnd.
Qed.

Lemma group_by_members key l g m :
  In (g, m) (group_by key l) -> m = filter (fun s => String.eqb (key s) g) l.
Proof.
  intros H. rewrite <- subdirs_get_group_by. symmetry.
  apply subdirs_get_in; [|exact H]. apply group_by_spec.
Qed.

Lemma direntry_get_In t node c :
  direntry_get t node = Some c -> In (DirentrySet node c) t.
Proof.
  induction t as [|ev t IH]; [discriminate|]. cbn [direntry_get].
  destruct (direntry_get t node) as [c'|].
  - intros H. injection H as <-. right. now apply IH.
  - destruct ev as [e | n c']; [discriminate|].
    destruct (FuseEntry_eq_dec n node) as [-> | _]; [|discriminate].
    intros H. injection H as <-. now left.
Qed.

Lemma remove_append c (a b : string) : Str.remove c (a ++ b) = Str.remove c a ++ Str.remove c b.
Proof.
  induction a as [|x a IH]; [reflexivity|]. cbn [append Str.remove].
  destruct (Ascii.eqb x c); [exact IH|]. cbn [append]. now rewrite IH.
Qed.

Lemma remove_slash_free a : slash_free a -> Str.remove "/" a = a.
Proof.
  induction a as [|x a IH]; [reflexivity|]. intros H.
  apply slash_free_cons in H. destruct H as [Hx Ha].
  cbn [Str.remove]. rewrite Hx. now rewrite IH.
Qed.

Lemma prefix_eqb p x :
  String.prefix p x = String.eqb (String.substring 0 (String.length p) x) p.
Proof.
  revert x. induction p as [|a p IH]; intros x.
  - rewrite prefix_nil. cbn [String.length]. now rewrite substring_zero.
  - destruct x as [|b x]; [reflexivity|].
    rewrite prefix_cons. cbn [String.length String.substring String.eqb].
    rewrite IH. now rewrite (Ascii.eqb_sym a b).
Qed.

Lemma append_eqb (a1 a2 b1 b2 : string) :
  String.length a1 = String.length a2 ->
  String.eqb (a1 ++ b1) (a2 ++ b2) = String.eqb a1 a2 && String.eqb b1 b2.
Proof.
  revert a2. induction a1 as [|x a1 IH]; intros [|y a2] H; try discriminate.
  - reflexivity.
  - cbn [append String.eqb]. injection H as H. rewrite (IH a2 H).
    now destruct (Ascii.eqb x y).
Qed.

Section Members.
Context (fuse : Fuse).

Local Abbreviation D := (conf_sharding_depth fuse).
Local Abbreviation L := (conf_sharding_length fuse).
Local Abbreviation Dn := (Z.to_nat (conf_sharding_depth fuse)).
Local Abbreviation Ln := (Z.to_nat (conf_sharding_length fuse)).

Hypothesis depth_nonneg : (0 <= D)%Z.
Hypothesis length_nonneg : (0 <= L)%Z.
Hypothesis fits_digest : (D * L <= Z.of_nat DIGEST_LENGTH)%Z.

Lemma remove_hash_prefix k s :
  valid_swhid s = true ->
  Str.remove "/" (hash_prefix fuse k s) = String.substring 0 (k * Ln) (object_id s).
Proof.
  intros Hv. rewrite <- hash_chunks_concat. unfold hash_prefix.
  induction (seq 0 k) as [|i l IH]; [reflexivity|].
  cbn [map concat_names fold_right].
  fold (concat_names (map (fun i => hash_chunk fuse i s ++ "/") l)).
  fold (concat_names (map (fun i => hash_chunk fuse i s) l)).
  rewrite append_assoc, !remove_append, IH.
  rewrite (remove_slash_free _ (hash_chunk_slash_free fuse i s Hv)). reflexivity.
Qed.

Lemma member_test k s1 s :
  k <= Dn -> valid_swhid s1 = true ->
  Str.startswith (object_id s) (Str.remove "/" (hash_prefix fuse k s1))
  = String.eqb (String.substring 0 (k * Ln) (object_id s))
               (String.substring 0 (k * Ln) (object_id s1)).
Proof.
  intros Hk Hv1. unfold Str.startswith.
  rewrite (remove_hash_prefix k s1 Hv1), prefix_eqb.
  rewrite length_substring; [reflexivity|].
  destruct (valid_swhid_digest s1 Hv1) as [-> _].
  unfold DIGEST_LENGTH in *. nia.
Qed.

Lemma member_test_S k s1 s :
  k < Dn -> valid_swhid s1 = true -> valid_swhid s = true ->
  Str.startswith (object_id s) (Str.remove "/" (hash_prefix fuse (S k) s1))
  = Str.startswith (object_id s) (Str.remove "/" (hash_prefix fuse k s1))
    && String.eqb (hash_chunk fuse k s) (hash_chunk fuse k s1).
Proof.
  intros Hk Hv1 Hv.
  rewrite (member_test (S k) s1 s) by (lia || assumption).
  rewrite (member_test k s1 s) by (lia || assumption).
  replace (S k * Ln) with (k * Ln + Ln) by lia.
  rewrite !substring_split. unfold hash_chunk.
  apply append_eqb.
  destruct (valid_swhid_digest s Hv) as [Hl _].
  destruct (valid_swhid_digest s1 Hv1) as [Hl1 _].
  rewrite !length_substring; [reflexivity | |]; unfold DIGEST_LENGTH in *; nia.
Qed.

End Members.

Lemma filter_twice {A} (p q r : A -> bool) (l : list A) :
  (forall x, In x l -> p x = q x && r x) -> filter p l = filter r (filter q l).
Proof.
  induction l as [|x l IH]; intros H; [reflexivity|]. cbn [filter].
  rewrite (H x (or_introl eq_refl)), IH by (intros y Hy; apply H; now right).
  destruct (q x); cbn [andb filter]; [|reflexivity]. now destruct (r x).
Qed.

Section ByHashRelist.
Context (E : EntryModule) (fuse : Fuse) (history_swhid : SWHID) (history : list SWHID).

Local Abbreviation D := (conf_sharding_depth fuse).
Local Abbreviation L := (conf_sharding_length fuse).
Local Abbreviation Dn := (Z.to_nat (conf_sharding_depth fuse)).
Local Abbreviation fill := (RevisionHistoryShardByHash.fill_direntry_cache E fuse).
Local Abbreviation members := (by_hash_members history).
Local Abbreviation at_depth := (by_hash_at_depth fuse history_swhid history).
Local Abbreviation logged := (by_hash_logged E fuse history_swhid history).

Hypothesis depth_nonneg : (0 <= D)%Z.
Hypothesis length_nonneg : (0 <= L)%Z.
Hypothesis fits_digest : (D * L <= Z.of_nat DIGEST_LENGTH)%Z.
Hypothesis history_valid : Forall (fun s => valid_swhid s = true) history.

Lemma members_valid node s : In s (members node) -> valid_swhid s = true.
Proof.
  intros H. apply filter_In in H. rewrite Forall_forall in history_valid.
  now apply history_valid.
Qed.

Lemma members_child k node s1 :
  k < Dn -> valid_swhid s1 = true -> bh_prefix node = hash_prefix fuse k s1 ->
  members (by_hash_dir E node (hash_chunk fuse k s1))
  = filter (fun s => String.eqb (hash_chunk fuse k s) (hash_chunk fuse k s1)) (members node).
Proof.
  intros Hk Hv1 Hp. unfold by_hash_members. cbn [by_hash_dir bh_prefix].
  rewrite Hp, <- hash_prefix_S.
  apply filter_twice. intros s Hs. rewrite Forall_forall in history_valid.
  exact (member_test_S fuse depth_nonneg length_nonneg fits_digest k s1 s Hk Hv1
           (history_valid s Hs)).
Qed.

Lemma fill_result k n limit node :
  k + n = Dn -> n < limit -> at_depth k node ->
  exists t,
    fill limit node (members node) = (t, Ret (by_hash_children E fuse node (members node)))
    /\ yielded t = [].
Proof.
  intros Hkn Hlimit (_ & Hcount & _ & Hprefix).
  destruct (fill_tree E fuse depth_nonneg length_nonneg fits_digest n k limit node
              (members node) Hkn Hlimit Hcount)
    as (t & children & Hfill & _ & Hkeys & _).
  { intros s Hs. split; [exact (members_valid node s Hs) | exact (Hprefix s Hs)]. }
  exists t. split; [|exact (keys_under_yielded _ _ Hkeys)].
  rewrite Hfill. do 2 f_equal.
  apply (fill_shape E fuse limit). now rewrite Hfill.
Qed.

Lemma fill_log n :
  forall k limit node,
    k + n = Dn -> n < limit -> at_depth k node ->
    Forall logged (fst (fill limit node (members node))).
Proof.
  induction n as [|n IH]; intros k limit node Hkn Hlimit Hnode.
  - destruct limit as [|limit]; [lia|].
    pose proof Hnode as (_ & Hcount & _).
    rewrite fill_at_depth by lia. cbn [fst].
    constructor; [|constructor]. exists node, k. split; [|exact Hnode].
    unfold by_hash_children.
    replace (Z.of_nat (Str.count "/" (bh_prefix node)) =? D)%Z with true
      by (symmetry; apply Z.eqb_eq; lia).
    reflexivity.
  - destruct limit as [|limit]; [lia|].
    pose proof Hnode as (_ & Hcount & Hh & Hprefix).
    assert (Hk : k < Dn) by lia.
    assert (Hl : forall s, In s (members node) ->
                   valid_swhid s = true /\ bh_prefix node = hash_prefix fuse k s).
    { intros s Hs. split; [exact (members_valid node s Hs) | exact (Hprefix s Hs)]. }
    pose proof (group_by_spec (hash_chunk fuse k) (members node)) as [HndG [HmemG HpermG]].
    pose proof (group_by_members (hash_chunk fuse k) (members node)) as HfilterG.
    rewrite <- (group_by_chunk fuse depth_nonneg length_nonneg fits_digest k node
                  (members node) Hk Hl) in HndG, HmemG, HpermG, HfilterG.
    set (G := RevisionHistoryShardByHash.group fuse node (members node)) in *.
    set (body := fun item : string * list SWHID =>
                   bind (fill limit (by_hash_dir E node (fst item)) (snd item))
                        (fun _ => ret (EByHash (by_hash_dir E node (fst item))))).
    assert (Hchild : forall x, In x G ->
              snd x = members (by_hash_dir E node (fst x))
              /\ at_depth (S k) (by_hash_dir E node (fst x))).
    { intros [g m] Hx. cbn [fst snd].
      destruct (HmemG g m Hx) as [Hne Hkey].
      destruct m as [|s1 m']; [contradiction|].
      assert (Hs1 : In s1 (members node)).
      { eapply Permutation_in; [exact HpermG|]. apply in_concat.
        exists (s1 :: m'). split; [|now left].
        apply in_map_iff. exists (g, s1 :: m'). auto. }
      destruct (Hl s1 Hs1) as [Hv1 Hp1].
      pose proof (Hkey s1 (or_introl eq_refl)) as Hg.
      assert (Hmem : s1 :: m' = members (by_hash_dir E node g)).
      { rewrite <- Hg, (members_child k node s1 Hk Hv1 Hp1), Hg.
        exact (HfilterG g (s1 :: m') Hx). }
      split; [exact Hmem|].
      split; [lia|]. split; [|split].
      - cbn [by_hash_dir bh_prefix]. rewrite !count_append, Hcount.
        rewrite <- Hg, (hash_chunk_slash_free fuse k s1 Hv1). cbn. lia.
      - exact Hh.
      - intros s Hs. rewrite <- Hmem in Hs.
        assert (Hsl : In s (members node)).
        { eapply Permutation_in; [exact HpermG|]. apply in_concat.
          exists (s1 :: m'). split; [|exact Hs].
          apply in_map_iff. exists (g, s1 :: m'). auto. }
        cbn [by_hash_dir bh_prefix]. rewrite hash_prefix_S, (Hkey s Hs).
        now rewrite (proj2 (Hl s Hsl)). }
    assert (Hbody : forall x, In x G ->
              snd (body x) = Ret (EByHash (by_hash_dir E node (fst x)))
              /\ fst (body x) = fst (fill limit (by_hash_dir E node (fst x)) (snd x))).
    { intros x Hx. destruct (Hchild x Hx) as [Hm Hd].
      destruct (fill_result (S k) n limit (by_hash_dir E node (fst x))) as (t & Hfill & _);
        [lia | lia | exact Hd |].
      unfold body. rewrite Hm, Hfill, bind_ret. cbn [fst snd ret]. now rewrite app_nil_r. }
    rewrite fill_above_depth by lia. fold G. fold body.
    rewrite (collect_rets G body (fun x => EByHash (by_hash_dir E node (fst x))))
      by (intros x Hx; apply (Hbody x Hx)).
    rewrite bind_ret. cbn [fst direntry_set bind ret app].
    apply Forall_app. split.
    + apply Forall_concat. apply Forall_forall. intros t Ht.
      apply in_map_iff in Ht. destruct Ht as (x & <- & Hx).
      destruct (Hchild x Hx) as [Hm Hd].
      rewrite (proj2 (Hbody x Hx)), Hm.
      apply (IH (S k) limit); [lia | lia | exact Hd].
    + constructor; [|constructor]. exists node, k. split; [|exact Hnode].
      unfold by_hash_children.
      replace (Z.of_nat (Str.count "/" (bh_prefix node)) =? D)%Z with false
        by (symmetry; apply Z.eqb_neq; lia).
      reflexivity.
Qed.

End ByHashRelist.

(** X14. For a sharding configuration that fits the digest and a history of
    well-formed identifiers: whatever children the listing of the by-hash
    root has stored in the cache for a by-hash directory, at any depth, are
    the children the listing of that directory yields, and that listing ends
    normally. *)
Theorem by_hash_cache_agrees_with_listing E fuse limit limit' self history d children :
  (0 <= conf_sharding_depth fuse)%Z ->
  (0 <= conf_sharding_length fuse)%Z ->
  (conf_sharding_depth fuse * conf_sharding_length fuse <= Z.of_nat DIGEST_LENGTH)%Z ->
  bh_prefix self = "" ->
  get_history fuse (bh_history_swhid self) = Ok history ->
  Forall (fun s => valid_swhid s = true) history ->
  Z.to_nat (conf_sharding_depth fuse) < limit ->
  Z.to_nat (conf_sharding_depth fuse) < limit' ->
  direntry_get (fst (RevisionHistoryShardByHash.compute_entries E fuse limit self))
               (EByHash d) = Some children ->
  let listing := RevisionHistoryShardByHash.compute_entries E fuse limit' d in
  snd listing = Ret tt /\ yielded (fst listing) = children.
Proof.
  intros HD HL Hfit Hp Hh Hvalid Hlimit Hlimit' Hget listing. subst listing.
  assert (Hroot : by_hash_at_depth fuse (bh_history_swhid self) history 0 self).
  { split; [lia|]. split; [now rewrite Hp|]. split; [reflexivity|].
    intros s _. now rewrite Hp. }
  assert (Hmembers : by_hash_members history self = history).
  { unfold by_hash_members. rewrite Hp. apply filter_all. intros s. apply prefix_nil. }
  pose proof (fill_log E fuse (bh_history_swhid self) history HD HL Hfit Hvalid
                (Z.to_nat (conf_sharding_depth fuse)) 0 limit self eq_refl Hlimit Hroot)
    as Hlog.
  destruct (fill_result E fuse (bh_history_swhid self) history HD HL Hfit Hvalid
              0 (Z.to_nat (conf_sharding_depth fuse)) limit self eq_refl Hlimit Hroot)
    as (t & Hfill & _).
  rewrite Hmembers in Hlog, Hfill.
  rewrite (by_hash_compute_entries_root E fuse limit self history Hp Hh) in Hget.
  rewrite Hfill, bind_ret, for_each_yield in Hget. cbn [fst] in Hget.
  rewrite direntry_get_app, direntry_get_yields in Hget.
  rewrite Hfill in Hlog. cbn [fst] in Hlog.
  apply direntry_get_In in Hget. rewrite Forall_forall in Hlog.
  destruct (Hlog _ Hget) as (d' & k & Hev & Hd).
  injection Hev as <- ->.
  pose proof Hd as (Hk & _ & Hhist & _).
  destruct (fill_result E fuse (bh_history_swhid self) history HD HL Hfit Hvalid
              k (Z.to_nat (conf_sharding_depth fuse) - k) limit' d) as (t' & Hfill' & Hsilent);
    [lia | lia | exact Hd |].
  assert (Hce : RevisionHistoryShardByHash.compute_entries E fuse limit' d
                = ((t' ++ map Yield (by_hash_children E fuse d (by_hash_members history d)))%list,
                   Ret tt)).
  { unfold RevisionHistoryShardByHash.compute_entries.
    rewrite Hhist, Hh. cbn [await]. unfold ret at 1. rewrite bind_ret. cbn [app].
    change (filter _ history) with (by_hash_members history d).
    rewrite Hfill', bind_ret, for_each_yield. reflexivity. }
  rewrite Hce. cbn [fst snd]. split; [reflexivity|].
  now rewrite yielded_app, Hsilent, yielded_map_Yield.
Qed.

Lemma by_hash_cache_agrees_with_listing_witness :
  yielded (fst (RevisionHistoryShardByHash.compute_entries Sample.E Sample.fuse 5
                  (by_hash_dir Sample.E Sample.by_hash "00")))
  = map (hash_leaf Sample.E 5) Sample.history.
Proof.
  refine (proj2 (by_hash_cache_agrees_with_listing Sample.E Sample.fuse 5 5 Sample.by_hash
                   Sample.history (by_hash_dir Sample.E Sample.by_hash "00")
                   (map (hash_leaf Sample.E 5) Sample.history)
                   _ _ _ eq_refl eq_refl _ _ _ _)).
  - discriminate.
  - discriminate.
  - discriminate.
  - repeat constructor.
  - cbn. lia.
  - cbn. lia.
  - vm_compute. reflexivity.
Defined.

(** ** The by-date view *)

Lemma first_occurrences_spec (seen l : list string) :
  NoDup (first_occurrences String.eqb seen l)
  /\ forall x, In x (first_occurrences String.eqb seen l) -> In x l /\ ~ In x seen.
Proof.
  revert seen. induction l as [|a l IH]; intros seen; cbn [first_occurrences].
  - split; [constructor | intros x []].
  - destruct (existsb (String.eqb a) seen) eqn:Hex.
    + destruct (IH seen) as [Hnd Hin]. split; [exact Hnd|].
      intros x Hx. destruct (Hin x Hx). split; [now right | assumption].
    + destruct (IH (a :: seen)) as [Hnd Hin]. split.
      * constructor; [|exact Hnd]. intros Ha. destruct (Hin a Ha) as [_ Hn].
        apply Hn. now left.
      * intros x [<- | Hx].
        -- split; [now left|]. intros Ha.
           assert (existsb (String.eqb a) seen = true) as Heq.
           { apply existsb_exists. exists a. split; [exact Ha | apply String.eqb_refl]. }
           congruence.
        -- destruct (Hin x Hx) as [H1 H2]. split; [now right|].
           intros H. apply H2. now right.
Qed.

Lemma candidate_is_number fuse self history x :
  In x (by_date_candidates fuse self history) -> x = "" \/ exists n, decimal_value x = Some n.
Proof.
  rewrite by_date_candidates_dates. intros H. apply in_map_iff in H.
  destruct H as (d & <- & _). rewrite split_date_name.
  destruct (Str.count "/" (bd_prefix self)) as [|[|[|[|k]]]]; cbn [nth];
    try (right; eexists; apply decimal_value_format_d); now left.
Qed.

(** X15. Whatever the metadata cache holds and whatever the prefix of the
    directory, a by-date listing ends normally; it yields by-date
    subdirectories, then at most a status file, under pairwise distinct
    names. *)
Theorem by_date_listing_always_completes E fuse self history :
  get_history fuse (bd_history_swhid self) = Ok history ->
  let listing := RevisionHistoryShardByDate.compute_entries E fuse self in
  snd listing = Ret tt
  /\ NoDup (map entry_name_of (yielded (fst listing)))
  /\ (forall e, In e (yielded (fst listing)) ->
        (exists name, e = EByDate (by_date_dir E self name))
        \/ (exists f, e = EStatusFile f)).
Proof.
  intros Hh listing. subst listing.
  rewrite (by_date_listing E fuse self history Hh). cbn [fst snd].
  split; [reflexivity|].
  rewrite yielded_app, yielded_map_Yield.
  set (names := first_occurrences String.eqb [] (by_date_candidates fuse self history)).
  destruct (first_occurrences_spec [] (by_date_candidates fuse self history))
    as [Hnd Hin]. fold names in Hnd, Hin.
  assert (Hnames : map entry_name_of (map (fun n => EByDate (by_date_dir E self n)) names)
                   = names).
  { rewrite map_map. cbn [entry_name_of by_date_dir bd_name]. apply map_id. }
  split.
  - rewrite map_app, Hnames.
    destruct (forallb (resolved fuse) history); cbn [yielded map].
    + now rewrite app_nil_r.
    + cbn [entry_name_of]. apply NoDup_app; [exact Hnd | repeat constructor; intros [] |].
      intros x Hx [<- | []]. destruct (Hin _ Hx) as [Hc _].
      destruct (candidate_is_number _ _ _ _ Hc) as [H | [n H]]; discriminate.
  - intros e He. apply in_app_or in He. destruct He as [He | He].
    + apply in_map_iff in He. destruct He as (n & <- & _). left. now exists n.
    + right. destruct (forallb (resolved fuse) history); cbn in He; [contradiction|].
      destruct He as [<- | []]. eexists; reflexivity.
Qed.

Lemma by_date_listing_always_completes_witness :
  snd (RevisionHistoryShardByDate.compute_entries Sample.E
         (Sample.archive Sample.cache_partial 1 2) Sample.by_date_2020) = Ret tt.
Proof.
  exact (proj1 (by_date_listing_always_completes Sample.E
                  (Sample.archive Sample.cache_partial 1 2) Sample.by_date_2020
                  Sample.history eq_refl)).
Defined.

Lemma sharded_name_is_date_name meta :
  RevisionHistoryShardByDate.get_full_sharded_name meta = date_name (rev_date meta).
Proof. reflexivity. Qed.

Lemma format_d_injective w a b :
  Str.format_d w (Z.of_nat a) = Str.format_d w (Z.of_nat b) -> a = b.
Proof.
  intros H. pose proof (decimal_value_format_d w a) as Ha.
  rewrite H, decimal_value_format_d in Ha. congruence.
Qed.

(** X16. Two commits get the same by-date sharded name exactly when they
    have the same date. *)
Theorem by_date_sharded_name_determines_date meta1 meta2 :
  RevisionHistoryShardByDate.get_full_sharded_name meta1
  = RevisionHistoryShardByDate.get_full_sharded_name meta2
  <-> rev_date meta1 = rev_date meta2.
Proof.
  split; [|intros H; unfold RevisionHistoryShardByDate.get_full_sharded_name; now rewrite H].
  rewrite !sharded_name_is_date_name. intros H.
  apply (f_equal (Str.split "/")) in H. rewrite !split_date_name in H.
  injection H as Hy Hm Hd.
  apply format_d_injective in Hy, Hm, Hd.
  destruct (rev_date meta1), (rev_date meta2). cbn in *. congruence.
Qed.

(** X17. The by-date view never lists a commit: no by-date listing yields
    a symlink, and a day directory lists nothing but, possibly, the status
    file. *)
Theorem by_date_never_lists_commits E fuse self history :
  get_history fuse (bd_history_swhid self) = Ok history ->
  let listing := RevisionHistoryShardByDate.compute_entries E fuse self in
  (forall link, ~ In (ESymlink link) (yielded (fst listing)))
  /\ (forall meta,
        bd_prefix self = RevisionHistoryShardByDate.get_full_sharded_name meta ++ "/" ->
        forall e, In e (yielded (fst listing)) -> exists f, e = EStatusFile f).
Proof.
  intros Hh listing. subst listing.
  rewrite (by_date_listing E fuse self history Hh). cbn [fst].
  rewrite yielded_app, yielded_map_Yield.
  assert (Hstatus : forall e,
            In e (yielded (if forallb (resolved fuse) history then []
                           else [Yield (EStatusFile
                                   (mkStatusFile (S (bd_depth self))
                                      (List.length (filter (resolved fuse) history))
                                      (List.length history)))])) ->
            exists f, e = EStatusFile f).
  { intros e He. destruct (forallb (resolved fuse) history); cbn in He; [contradiction|].
    destruct He as [<- | []]. eexists; reflexivity. }
  split.
  - intros link Hin. apply in_app_or in Hin. destruct Hin as [Hin | Hin].
    + apply in_map_iff in Hin. destruct Hin as (n & Hn & _). discriminate.
    + destruct (Hstatus _ Hin) as [f Hf]. discriminate.
  - intros meta Hp e He.
    rewrite (by_date_names_day fuse self history (year (rev_date meta))
               (month (rev_date meta)) (day (rev_date meta))) in He.
    + cbn [map app] in He. exact (Hstatus e He).
    + rewrite Hp. unfold RevisionHistoryShardByDate.get_full_sharded_name.
      now rewrite !append_assoc.
Qed.

Lemma by_date_never_lists_commits_witness :
  yielded (fst (RevisionHistoryShardByDate.compute_entries Sample.E
                  (Sample.archive Sample.cache_partial 1 2)
                  (mkByDate "04" 16749 7 Sample.rev1 "2020/12/04/")))
  = [EStatusFile (mkStatusFile 8 2 3)]
  /\ exists f, EStatusFile (mkStatusFile 8 2 3) = EStatusFile f.
Proof.
  split; [reflexivity|].
  apply (proj2 (by_date_never_lists_commits Sample.E
                  (Sample.archive Sample.cache_partial 1 2)
                  (mkByDate "04" 16749 7 Sample.rev1 "2020/12/04/") Sample.history eq_refl)
           (mkRevisionMeta Sample.tree1 [] (mkDate 2020 12 4)) eq_refl).
  left. reflexivity.
Defined.

(** ** The background task of the by-date view *)

Section MetadataCache.
Context {S : Type} (get_metadata : S -> SWHID -> S * result RevisionMeta).

Lemma fill_metadata_cache_app (pre post : list SWHID) (state : S) :
  MetadataTask.fill_metadata_cache get_metadata state (pre ++ post)
  = match MetadataTask.fill_metadata_cache get_metadata state pre with
    | (state', Ret _) => MetadataTask.fill_metadata_cache get_metadata state' post
    | (state', Raise x) => (state', Raise x)
    end.
Proof.
  revert state. induction pre as [|s pre IH]; intros state; cbn [app].
  - reflexivity.
  - cbn [MetadataTask.fill_metadata_cache].
    destruct (get_metadata state s) as [state' [m|x]]; [apply IH | reflexivity].
Qed.

Context (cached : S -> SWHID -> option RevisionMeta).
Hypothesis get_metadata_stores :
  forall state s state' meta,
    get_metadata state s = (state', Ok meta) -> cached state' s <> None.
Hypothesis get_metadata_keeps :
  forall state s state' r s',
    get_metadata state s = (state', r) -> cached state s' <> None -> cached state' s' <> None.

Lemma fill_metadata_cache_keeps swhids :
  forall state state' r s',
    MetadataTask.fill_metadata_cache get_metadata state swhids = (state', r) ->
    cached state s' <> None -> cached state' s' <> None.
Proof.
  induction swhids as [|s swhids IH]; intros state state' r s' Hfill Hc.
  - injection Hfill as <- _. exact Hc.
  - cbn [MetadataTask.fill_metadata_cache] in Hfill.
    destruct (get_metadata state s) as [state1 [m|x]] eqn:Hg.
    + apply (IH _ _ _ _ Hfill). exact (get_metadata_keeps _ _ _ _ _ Hg Hc).
    + injection Hfill as <- _. exact (get_metadata_keeps _ _ _ _ _ Hg Hc).
Qed.

Lemma fill_metadata_cache_resolves swhids :
  forall state state',
    MetadataTask.fill_metadata_cache get_metadata state swhids = (state', Ret tt) ->
    forall s, In s swhids -> cached state' s <> None.
Proof.
  induction swhids as [|s0 swhids IH]; intros state state' Hfill s Hs; [destruct Hs|].
  cbn [MetadataTask.fill_metadata_cache] in Hfill.
  destruct (get_metadata state s0) as [state1 [m|x]] eqn:Hg; [|discriminate].
  destruct Hs as [<- | Hs].
  - apply (fill_metadata_cache_keeps swhids _ _ _ _ Hfill).
    exact (get_metadata_stores _ _ _ _ Hg).
  - exact (IH _ _ Hfill s Hs).
Qed.

End MetadataCache.

(** X18. Provided [get_metadata] caches what it returns and evicts nothing:
    once the background task has gone through the history without error, a
    by-date listing shows no status file, and the dates of all the members
    are resolved. *)
Theorem by_date_complete_after_metadata_task {S : Type}
    (get_metadata : S -> SWHID -> S * result RevisionMeta)
    (cached : S -> SWHID -> option RevisionMeta)
    E fuse self history state state' :
  (forall st s st' meta, get_metadata st s = (st', Ok meta) -> cached st' s <> None) ->
  (forall st s st' r s',
     get_metadata st s = (st', r) -> cached st s' <> None -> cached st' s' <> None) ->
  get_history fuse (bd_history_swhid self) = Ok history ->
  MetadataTask.fill_metadata_cache get_metadata state history = (state', Ret tt) ->
  let listing :=
    RevisionHistoryShardByDate.compute_entries E
      (MetadataTask.with_cache fuse (cached state')) self in
  snd listing = Ret tt
  /\ (forall f, ~ In (EStatusFile f) (yielded (fst listing)))
  /\ List.length (resolved_dates (MetadataTask.with_cache fuse (cached state')) history)
     = List.length history.
Proof.
  intros Hstores Hkeeps Hh Hfill listing. subst listing.
  set (fuse' := MetadataTask.with_cache fuse (cached state')).
  assert (Hh' : get_history fuse' (bd_history_swhid self) = Ok history) by exact Hh.
  assert (Hall : forallb (resolved fuse') history = true).
  { apply forallb_resolved_true. intros s Hs.
    exact (fill_metadata_cache_resolves get_metadata cached Hstores Hkeeps
             history state state' Hfill s Hs). }
  rewrite (by_date_listing E fuse' self history Hh'), Hall. cbn [fst snd].
  split; [reflexivity|]. split.
  - intros f Hin. rewrite app_nil_r, yielded_map_Yield in Hin.
    apply in_map_iff in Hin. destruct Hin as (n & Hn & _). discriminate.
  - now apply resolved_dates_length.
Qed.

Lemma SWHID_eqb_refl s : SWHID_eqb s s = true.
Proof.
  unfold SWHID_eqb. rewrite String.eqb_refl. now destruct (object_type s).
Qed.

Lemma by_date_complete_after_metadata_task_witness :
  snd (RevisionHistoryShardByDate.compute_entries Sample.E
         (MetadataTask.with_cache Sample2.fuse
            (Sample2.lookup
               (fst (MetadataTask.fill_metadata_cache Sample2.get_metadata
                       [] Sample.history))))
         Sample.by_date)
  = Ret tt
  /\ List.length
       (resolved_dates
          (MetadataTask.with_cache Sample2.fuse
             (Sample2.lookup
                (fst (MetadataTask.fill_metadata_cache Sample2.get_metadata
                        [] Sample.history))))
          Sample.history)
     = 3.
Proof.
  assert (Htask := by_date_complete_after_metadata_task Sample2.get_metadata
                     Sample2.lookup Sample.E Sample2.fuse Sample.by_date Sample.history
                     [] (fst (MetadataTask.fill_metadata_cache Sample2.get_metadata
                                [] Sample.history))).
  cbv zeta in Htask.
  refine ((fun H' => conj (proj1 H') (proj2 (proj2 H'))) (Htask _ _ eq_refl eq_refl));
    clear Htask.
  - intros st s st' meta. unfold Sample2.get_metadata.
    destruct (Sample2.lookup st s) as [m|] eqn:Hl.
    + intros H. injection H as <- _. congruence.
    + destruct (Sample2.revisions s); [|discriminate].
      intros H. injection H as <- _. unfold Sample2.lookup. cbn [find fst].
      now rewrite SWHID_eqb_refl.
  - intros st s st' r s'. unfold Sample2.get_metadata.
    destruct (Sample2.lookup st s) as [m|].
    + intros H. injection H as <- _. auto.
    + destruct (Sample2.revisions s).
      * intros H. injection H as <- _. unfold Sample2.lookup. cbn [find fst].
        destruct (SWHID_eqb s s'); [discriminate | auto].
      * intros H. injection H as <- _. auto.
Defined.

(** X19. The background task stops at the first member whose metadata
    cannot be fetched: it ends with that error, in the cache state that call
    has left, and the members after it are not fetched. *)
Theorem metadata_task_stops_at_first_failure {S : Type}
    (get_metadata : S -> SWHID -> S * result RevisionMeta)
    (pre post : list SWHID) (s : SWHID) (state state1 state2 : S) (err : exn) :
  MetadataTask.fill_metadata_cache get_metadata state pre = (state1, Ret tt) ->
  get_metadata state1 s = (state2, Err err) ->
  MetadataTask.fill_metadata_cache get_metadata state (pre ++ s :: post)%list
  = (state2, Raise err).
Proof.
  intros Hpre Hs. rewrite fill_metadata_cache_app, Hpre.
  cbn [MetadataTask.fill_metadata_cache]. now rewrite Hs.
Qed.

Lemma metadata_task_stops_at_first_failure_witness :
  MetadataTask.fill_metadata_cache Sample2.get_metadata []
    [Sample.rev1; mkSWHID REVISION (Sample.digest "c9"); Sample.rev2]
  = ([(Sample.rev1, mkRevisionMeta Sample.tree1 [] (mkDate 2020 12 4))], Raise NotFound).
Proof.
  exact (metadata_task_stops_at_first_failure Sample2.get_metadata
           [Sample.rev1] [Sample.rev2] (mkSWHID REVISION (Sample.digest "c9"))
           [] _ _ NotFound eq_refl eq_refl).
Defined.

(** ** Status files, releases and pages *)

Lemma decimal_slash_free n : slash_free (Str.decimal n).
Proof.
  unfold slash_free, Str.decimal. induction (Nat.to_uint n); cbn; auto.
Qed.

Lemma append_cancel_r (a b c : string) : a ++ c = b ++ c -> a = b.
Proof.
  revert b. induction a as [|x a IH]; intros [|y b] H; cbn in H.
  - reflexivity.
  - apply (f_equal String.length) in H. cbn in H. rewrite length_append in H. lia.
  - apply (f_equal String.length) in H. cbn in H. rewrite length_append in H. lia.
  - injection H as -> H. f_equal. now apply IH.
Qed.

(** X20. The text of a status file determines its two counts: two status
    files have the same content exactly when they report the same [done]
    and the same [todo]. The size of a status file is the length of that
    text: eight characters and the digits of the two counts. *)
Theorem status_content_determines_counts f1 f2 :
  (RevisionHistoryShardByDate.StatusFile_get_content f1
   = RevisionHistoryShardByDate.StatusFile_get_content f2
   <-> sf_done f1 = sf_done f2 /\ sf_todo f1 = sf_todo f2)
  /\ StatusFile.size f1
     = 8 + String.length (Str.decimal (sf_done f1))
       + String.length (Str.decimal (sf_todo f1)).
Proof.
  unfold StatusFile.size, RevisionHistoryShardByDate.StatusFile_get_content.
  split; [split|].
  - intros H. cbn [append] in H. injection H as H.
    apply (f_equal (Str.split "/")) in H.
    change (String "/" ?x) with ("/" ++ x) in H.
    rewrite !(split_field _ _ (decimal_slash_free _)) in H.
    injection H as Hd Ht. split; [now apply decimal_injective|].
    rewrite !split_last in Ht.
    + injection Ht as Ht. apply append_cancel_r in Ht. now apply decimal_injective.
    + unfold slash_free. rewrite count_append, (decimal_slash_free (sf_todo f2)). reflexivity.
    + unfold slash_free. rewrite count_append, (decimal_slash_free (sf_todo f1)). reflexivity.
  - intros [-> ->]. reflexivity.
  - rewrite !length_append. cbn [String.length]. lia.
Qed.

Lemma release_yielded E fuse limit self metadata :
  get_metadata_release fuse (rel_swhid self) = Ok metadata ->
  exists root,
    yielded (fst (Release.compute_entries E fuse limit self))
    = (release_fixed_entries E self (rel_target metadata) ++ root)%list
    /\ (root = [] \/ exists d, root = [release_root_entry E self d]).
Proof.
  intros Hm. rewrite (release_compute_entries_unfold E fuse limit self metadata Hm).
  destruct (snd (Release.find_root_directory fuse limit (rel_target metadata))) as [[d|]|x];
    cbn [fst]; rewrite yielded_map_Yield.
  - eexists. split; [reflexivity|]. right. now exists d.
  - exists []. split; [now rewrite app_nil_r | now left].
  - exists []. split; [now rewrite app_nil_r | now left].
Qed.

(** X21. A release with metadata always lists a [target_type] file, also
    when the resolution of [root] fails; the file reads the kind of the
    immediate target of the release, followed by a newline, and its size is
    the length of that text. *)
Theorem target_type_reads_immediate_target E fuse limit self metadata :
  get_metadata_release fuse (rel_swhid self) = Ok metadata ->
  let children := yielded (fst (Release.compute_entries E fuse limit self)) in
  (exists file, In (EReleaseType file) children)
  /\ forall file,
       In (EReleaseType file) children ->
       rt_name file = "target_type"
       /\ ReleaseType.get_content file
          = ObjectType_name (object_type (rel_target metadata))
            ++ String (ascii_of_nat 10) EmptyString
       /\ ReleaseType.size file
          = String.length (ObjectType_name (object_type (rel_target metadata))) + 1.
Proof.
  intros Hm children. subst children.
  destruct (release_yielded E fuse limit self metadata Hm) as (root & -> & Hroot).
  split.
  - eexists. apply in_or_app. left. right. right. left. reflexivity.
  - intros file Hin.
    assert (Hfile : file = mkReleaseType "target_type" (RDONLY_FILE E) (S (rel_depth self))
                             (object_type (rel_target metadata))).
    { apply in_app_or in Hin. destruct Hin as [Hin | Hin].
      - destruct Hin as [H | [H | [H | []]]]; try discriminate. now injection H.
      - destruct Hroot as [-> | [d ->]]; [contradiction|].
        destruct Hin as [H | []]. discriminate. }
    subst file. split; [reflexivity|]. split; [reflexivity|].
    unfold ReleaseType.size, ReleaseType.get_content. cbn [rt_target_type].
    rewrite length_append. reflexivity.
Qed.

Lemma target_type_reads_immediate_target_witness :
  ReleaseType.get_content (mkReleaseType "target_type" 33060 3 RELEASE)
  = "release" ++ String (ascii_of_nat 10) EmptyString
  /\ ReleaseType.size (mkReleaseType "target_type" 33060 3 RELEASE) = 8.
Proof.
  assert (H := proj2 (target_type_reads_immediate_target Sample.E Sample.fuse 5
                        Sample.release1 (mkReleaseMeta Sample.tag2) eq_refl)
                 (mkReleaseType "target_type" 33060 3 RELEASE)).
  cbv zeta in H.
  refine ((fun H' => conj (proj1 (proj2 H')) (proj2 (proj2 H'))) (H _)).
  right. right. left. reflexivity.
Defined.

(** X22. A release whose target is a commit or a tag that the archive
    cannot describe still lists [meta.json], [target] and [target_type];
    the listing then ends with the error of the fetch, without [root]. *)
Theorem release_lists_fixed_entries_despite_dangling_target E fuse limit self metadata err :
  get_metadata_release fuse (rel_swhid self) = Ok metadata ->
  (object_type (rel_target metadata) = REVISION
   /\ get_metadata_revision fuse (rel_target metadata) = Err err)
  \/ (object_type (rel_target metadata) = RELEASE
      /\ get_metadata_release fuse (rel_target metadata) = Err err) ->
  Release.compute_entries E fuse (S limit) self
  = (map Yield (release_fixed_entries E self (rel_target metadata)), Raise err).
Proof.
  intros Hm Hcause.
  rewrite (release_compute_entries_unfold E fuse (S limit) self metadata Hm).
  cbn [Release.find_root_directory].
  destruct Hcause as [[Hk He] | [Hk He]]; rewrite Hk; cbn [ObjectType_eqb]; rewrite He;
    reflexivity.
Qed.

Lemma chunks_aux_length {A} fuel size (l : list A) :
  0 < size -> List.length l <= fuel ->
  List.length (chunks_aux fuel size l) = (List.length l + size - 1) / size.
Proof.
  intros Hsize. revert l. induction fuel as [|fuel IH]; intros l Hl.
  - destruct l; [|cbn in Hl; lia]. cbn. symmetry. apply Nat.div_small. lia.
  - destruct l as [|x l].
    + cbn. symmetry. apply Nat.div_small. lia.
    + cbn [chunks_aux List.length]. rewrite IH.
      * rewrite length_skipn. cbn [List.length].
        destruct (Nat.le_gt_cases (S (List.length l)) size) as [Hle | Hgt].
        -- replace (S (List.length l) - size) with 0 by lia.
           rewrite (Nat.div_small (0 + size - 1) size) by lia.
           apply (Nat.div_unique _ _ 1 (S (List.length l) - 1)); lia.
        -- replace (S (List.length l) + size - 1)
             with ((S (List.length l) - size + size - 1) + 1 * size) by lia.
           rewrite Nat.div_add by lia. lia.
      * rewrite length_skipn. cbn [List.length] in *. lia.
Qed.

(** X23. The by-page view of [N] commits has as many pages as [N] divided
    by the page size, rounded up; the page of index [i] is named by [i] on
    three digits, and the names are pairwise distinct. *)
Theorem by_page_number_of_pages E self swhids :
  let size := Z.to_nat RevisionHistoryShardByPage.PAGE_SIZE in
  exists pages,
    snd (RevisionHistoryShardByPage.fill_direntry_cache E self swhids) = Ret pages
    /\ List.length pages = (List.length swhids + size - 1) / size
    /\ NoDup (map entry_name_of pages)
    /\ (forall i page, nth_error pages i = Some page ->
          entry_name_of page = Str.format_d 3 (Z.of_nat i)).
Proof.
  intros size. rewrite (fill_direntry_cache_pages E self swhids). cbn [snd].
  eexists. split; [reflexivity|]. fold size.
  split; [|split].
  - rewrite length_map, length_seq. unfold chunks.
    apply chunks_aux_length; [|lia].
    unfold size. pose proof PAGE_SIZE_positive. lia.
  - rewrite map_map. cbn [entry_name_of page_dir bp_name].
    apply NoDup_map_injective; [|apply seq_NoDup].
    intros x y H. unfold RevisionHistoryShardByPage.PAGE_FMT in H.
    pose proof (decimal_value_format_d 3 x) as Hx.
    rewrite H, decimal_value_format_d in Hx. congruence.
  - intros i page Hi. rewrite nth_error_map in Hi.
    destruct (nth_error (seq 0 _) i) as [j|] eqn:Hj; [|discriminate].
    injection Hi as <-.
    assert (j = i).
    { pose proof (nth_error_nth _ _ 0 Hj) as Hn.
      assert (Hlt : i < List.length (seq 0 (List.length (chunks size swhids)))).
      { apply nth_error_Some. congruence. }
      rewrite length_seq in Hlt. rewrite seq_nth in Hn by exact Hlt. lia. }
    subst j. reflexivity.
Qed.

(** X24. Listing a by-page directory, be it the root or a page, yields page
    directories only: the symlinks of a page are never yielded by a listing,
    they are found in the cache entry the root has filled. *)
Theorem by_page_listing_yields_only_page_directories E fuse self :
  forall e,
    In e (yielded (fst (RevisionHistoryShardByPage.compute_entries E fuse self))) ->
    exists i, e = EByPage (page_dir E self i).
Proof.
  intros e. unfold RevisionHistoryShardByPage.compute_entries.
  destruct (get_history fuse (bp_history_swhid self)) as [history|x]; cbn [await].
  - unfold ret at 1. rewrite bind_ret. cbn [app].
    rewrite (fill_direntry_cache_pages E self history), bind_ret, for_each_yield.
    cbn [fst]. rewrite !yielded_app, page_sets_silent, yielded_map_Yield. cbn [yielded app].
    intros Hin. apply in_map_iff in Hin. destruct Hin as (i & <- & _). now exists i.
  - cbn. contradiction.
Qed.

Lemma by_page_listing_yields_only_page_directories_witness :
  exists i,
    EByPage (mkByPage "000" 16749 5 Sample.rev1)
    = EByPage (page_dir Sample.E Sample.by_page i).
Proof.
  apply (by_page_listing_yields_only_page_directories Sample.E Sample.fuse Sample.by_page).
  vm_compute. left. reflexivity.
Defined.

Lemma release_lists_fixed_entries_despite_dangling_target_witness :
  Release.compute_entries Sample.E Sample2.fuse 1 Sample2.release4
  = (map Yield (release_fixed_entries Sample.E Sample2.release4 Sample2.rev9),
     Raise NotFound).
Proof.
  exact (release_lists_fixed_entries_despite_dangling_target Sample.E Sample2.fuse 0
           Sample2.release4 (mkReleaseMeta Sample2.rev9) NotFound eq_refl
           (or_introl (conj eq_refl eq_refl))).
Defined.
